(** * RMG-Py kinetics families: recipes, rate rules and reaction generation

    A shallow embedding of [rmgpy/data/kinetics/family.py]:
    - [ReactionRecipe] ([getReverse], [__apply], [applyForward],
      [applyReverse]) over labeled molecular graphs;
    - the rate-rule side of [KineticsFamily] ([getRateRule], [hasRateRule],
      [__getAverageKinetics], [estimateKineticsUsingRateRules],
      [getKinetics]);
    - the reaction generator ([__createReaction], [__generateReactions],
      [calculateDegeneracy], [generateReactions]).

    Python exceptions are values of [exn]; a function that may raise
    returns [result A = exn + A]. *)

From Stdlib Require Import ZArith QArith String Ascii List Bool Lia.
From Stdlib Require Import DecimalString DecimalZ DecimalPos.
From stdpp Require Import gmap strings list fin_maps.

Set Warnings "-register-all".

Local Open Scope string_scope.
Local Open Scope Z_scope.

(** ** Exceptions and the error monad *)

Inductive exn : Type :=
| InvalidActionError (msg : string)
| ReactionPairsError (msg : string)
| UndeterminableKineticsError
| ForbiddenStructureException
| ActionError
| GraphError
| ValueError
| IndexError
| AttributeError
| AssertionError
| ZeroDivisionError
| Exception (msg : string).

Definition result (A : Type) : Type := (exn + A)%type.

Definition ret {A} (a : A) : result A := inr a.
Definition raise {A} (e : exn) : result A := inl e.

Definition bind {A B} (m : result A) (k : A -> result B) : result B :=
  match m with
  | inl e => inl e
  | inr a => k a
  end.

Notation "x <- m ;; k" := (bind m (fun x => k))
  (at level 100, m at next level, right associativity).

(** ** Python built-ins used by the module *)

Module Py.

(** [list[i]]: [IndexError] outside the list. *)
Definition index {A} (l : list A) (i : nat) : result A :=
  match nth_error l i with
  | Some a => ret a
  | None => raise IndexError
  end.

Definition is_space (c : ascii) : bool :=
  let n := nat_of_ascii c in
  ((9 <=? n)%nat && (n <=? 13)%nat) || (n =? 32)%nat.

Fixpoint lstrip (s : string) : string :=
  match s with
  | String c s' => if is_space c then lstrip s' else s
  | EmptyString => EmptyString
  end.

Fixpoint rstrip (s : string) : string :=
  match s with
  | String c s' =>
      match rstrip s' with
      | EmptyString => if is_space c then EmptyString else String c EmptyString
      | r => String c r
      end
  | EmptyString => EmptyString
  end.

Definition strip (s : string) : string := rstrip (lstrip s).

(** [int(s)] on a [str]: blanks around, an optional sign, decimal digits. *)
Definition int_opt (s : string) : option Z :=
  match strip s with
  | String "+" r => option_map Z.of_uint (NilZero.uint_of_string r)
  | t => option_map Z.of_int (NilZero.int_of_string t)
  end.

Definition int (s : string) : result Z :=
  match int_opt s with
  | Some z => ret z
  | None => raise ValueError
  end.

(** [str(n)] on an [int]. *)
Definition str (z : Z) : string := NilZero.string_of_int (Z.to_int z).

Definition lower_ascii (c : ascii) : ascii :=
  let n := nat_of_ascii c in
  if ((65 <=? n)%nat && (n <=? 90)%nat)%bool then ascii_of_nat (n + 32) else c.

Fixpoint lower (s : string) : string :=
  match s with
  | String c s' => String (lower_ascii c) (lower s')
  | EmptyString => EmptyString
  end.

Definition startswith (s p : string) : bool := String.prefix p s.

(** Truth value of a [str]: the empty string is false. *)
Definition str_truthy (s : string) : bool := negb (s =? "")%string.

(** The values the [or] chains of the module range over, with Python's
    truth value and [or] (which returns its first true operand, else the
    last one). *)
Inductive value : Type :=
| VBool (b : bool)
| VStr (s : string).

Definition truthy (v : value) : bool :=
  match v with
  | VBool b => b
  | VStr s => str_truthy s
  end.

Definition or (a b : value) : value := if truthy a then a else b.

(** [s in items] for a list of strings. *)
Definition elem (s : string) (items : list string) : bool :=
  existsb (String.eqb s) items.

Definition newline : string := String (ascii_of_nat 10) EmptyString.

(** [s.endswith(suffix)]. *)
Definition endswith (s suffix : string) : bool :=
  let n := String.length s in
  let m := String.length suffix in
  (m <=? n)%nat && (String.substring (n - m) m s =? suffix)%string.

(** [s.split(sep)] for a separator of one character. *)
Fixpoint split (sep : ascii) (s : string) : list string :=
  match s with
  | EmptyString => [EmptyString]
  | String c s' =>
      if Ascii.eqb c sep then EmptyString :: split sep s'
      else match split sep s' with
           | w :: ws => String c w :: ws
           | [] => [String c EmptyString]
           end
  end.

(** Characters [int] neither strips nor reads as a sign [+]. *)
Definition plain (c : ascii) : bool := negb (is_space c) && negb (Ascii.eqb c "+").

Fixpoint all_plain (s : string) : bool :=
  match s with
  | String c s' => plain c && all_plain s'
  | EmptyString => true
  end.

End Py.

(** ** Reaction recipes *)

Module Recipe.

(** An action is the list [[name, param, ...]] of strings, as the recipe
    stores it. *)
Definition Action : Type := list string.

Record ReactionRecipe : Type := mkRecipe { actions : list Action }.

Definition addAction (r : ReactionRecipe) (a : Action) : ReactionRecipe :=
  mkRecipe (actions r ++ [a]).

(** One iteration of the loop of [getReverse]: the action to append, if any
    (an action with another name is skipped). *)
Definition reverseAction (action : Action) : result (option Action) :=
  a0 <- Py.index action 0 ;;
  if (a0 =? "CHANGE_BOND")%string then
    a1 <- Py.index action 1 ;;
    a2 <- Py.index action 2 ;;
    i <- Py.int a2 ;;
    a3 <- Py.index action 3 ;;
    ret (Some ["CHANGE_BOND"; a1; Py.str (- i); a3])
  else if (a0 =? "FORM_BOND")%string then
    a1 <- Py.index action 1 ;;
    a2 <- Py.index action 2 ;;
    a3 <- Py.index action 3 ;;
    ret (Some ["BREAK_BOND"; a1; a2; a3])
  else if (a0 =? "BREAK_BOND")%string then
    a1 <- Py.index action 1 ;;
    a2 <- Py.index action 2 ;;
    a3 <- Py.index action 3 ;;
    ret (Some ["FORM_BOND"; a1; a2; a3])
  else if (a0 =? "LOSE_RADICAL")%string then
    a1 <- Py.index action 1 ;;
    a2 <- Py.index action 2 ;;
    ret (Some ["GAIN_RADICAL"; a1; a2])
  else if (a0 =? "GAIN_RADICAL")%string then
    a1 <- Py.index action 1 ;;
    a2 <- Py.index action 2 ;;
    ret (Some ["LOSE_RADICAL"; a1; a2])
  else ret None.

Fixpoint getReverse_loop (acts : list Action) (other : ReactionRecipe)
  : result ReactionRecipe :=
  match acts with
  | [] => ret other
  | action :: rest =>
      o <- reverseAction action ;;
      getReverse_loop rest
        (match o with Some a => addAction other a | None => other end)
  end.

Definition getReverse (self : ReactionRecipe) : result ReactionRecipe :=
  getReverse_loop (actions self) (mkRecipe []).

(** The documented shape of an action: one of the five names with exactly
    its parameters; [canonical] says the order of a [CHANGE_BOND] is written
    the way [str] prints an integer. *)
Definition canonical (s : string) : bool :=
  match Py.int_opt s with
  | Some z => (Py.str z =? s)%string
  | None => false
  end.

Definition documented (a : Action) : bool :=
  match a with
  | [name; _; info; _] =>
      ((name =? "CHANGE_BOND")%string && canonical info)
      || (name =? "FORM_BOND")%string || (name =? "BREAK_BOND")%string
  | [name; _; _] =>
      (name =? "GAIN_RADICAL")%string || (name =? "LOSE_RADICAL")%string
  | _ => false
  end.

(** What [getReverse] does to one action, stated on the parsed order:
    [CHANGE_BOND] negates it, [FORM_BOND] and [BREAK_BOND] swap,
    [GAIN_RADICAL] and [LOSE_RADICAL] swap. *)
Inductive reversed : Action -> Action -> Prop :=
| rev_change l1 info l2 z :
    Py.int_opt info = Some z ->
    reversed ["CHANGE_BOND"; l1; info; l2] ["CHANGE_BOND"; l1; Py.str (- z); l2]
| rev_form l1 info l2 :
    reversed ["FORM_BOND"; l1; info; l2] ["BREAK_BOND"; l1; info; l2]
| rev_break l1 info l2 :
    reversed ["BREAK_BOND"; l1; info; l2] ["FORM_BOND"; l1; info; l2]
| rev_lose l n :
    reversed ["LOSE_RADICAL"; l; n] ["GAIN_RADICAL"; l; n]
| rev_gain l n :
    reversed ["GAIN_RADICAL"; l; n] ["LOSE_RADICAL"; l; n].

(** *** The labeled graph the recipe edits

    [rmgpy.molecule] is not part of the sources at hand; the graph is the
    one section 6 of the specification asks for: atoms found by label, bonds
    looked up, added and removed, a free-electron counter per atom.  Atoms
    are identified by their position in [atoms] (Python object identity);
    a bond joins an unordered pair of atoms and carries its order. *)

Record Atom : Type := mkAtom { label : string; radicalElectrons : Z }.

Record Graph : Type := mkGraph {
  atoms : list Atom;
  bonds : gmap (nat * nat) Z
}.

(** The order of a bond made by [Bond(atom1, atom2, order='S')]. *)
Definition order_S : Z := 1.

(** Modelled from the spec: the checks [Bond.applyAction] and
    [Atom.applyAction] of [rmgpy.molecule] make on a bond order and on a
    free-electron count are not in the sources; they are parameters, and a
    value they refuse is the collaborator's [ActionError]. *)
Class Chemistry : Type := {
  order_ok : Z -> bool;
  radical_ok : Z -> bool
}.

Definition key (i j : nat) : nat * nat := (Nat.min i j, Nat.max i j).

Fixpoint find_label (l : string) (ats : list Atom) (i : nat) : option nat :=
  match ats with
  | [] => None
  | a :: rest => if (label a =? l)%string then Some i else find_label l rest (S i)
  end.

(** Modelled from the spec: [struct.getLabeledAtom(label)], the first atom
    carrying the label, [None] when there is none. *)
Definition getLabeledAtom (struct : Graph) (l : string) : option nat :=
  find_label l (atoms struct) 0.

(** Modelled from the spec: [struct.hasBond], [struct.getBond] (which fails
    in the collaborator when the atoms are not bonded), [struct.addBond] and
    [struct.removeBond]. *)
Definition hasBond (struct : Graph) (i j : nat) : bool :=
  bool_decide (is_Some (bonds struct !! key i j)).

Definition getBond (struct : Graph) (i j : nat) : result Z :=
  match bonds struct !! key i j with
  | Some o => ret o
  | None => raise GraphError
  end.

Definition addBond (struct : Graph) (i j : nat) (o : Z) : Graph :=
  mkGraph (atoms struct) (<[key i j := o]> (bonds struct)).

Definition removeBond (struct : Graph) (i j : nat) : Graph :=
  mkGraph (atoms struct) (delete (key i j) (bonds struct)).

Section Apply.
Context {chem : Chemistry}.

(** Modelled from the spec: [bond.applyAction(['CHANGE_BOND', _, d, _])]
    adds [d] to the order of the bond. *)
Definition changeBond (struct : Graph) (i j : nat) (o d : Z) : result Graph :=
  if order_ok (o + d) then ret (addBond struct i j (o + d))
  else raise ActionError.

(** Modelled from the spec: [atom.applyAction(['GAIN_RADICAL', _, 1])] and
    [atom.applyAction(['LOSE_RADICAL', _, 1])] move the free-electron counter
    of the atom by one. *)
Definition stepRadical (d : Z) (struct : Graph) (i : nat) : result Graph :=
  match atoms struct !! i with
  | Some a =>
      let n := radicalElectrons a + d in
      if radical_ok n
      then ret (mkGraph (<[i := mkAtom (label a) n]> (atoms struct)) (bonds struct))
      else raise ActionError
  | None => raise GraphError
  end.

Definition dquote : string := String (ascii_of_nat 34) EmptyString.

Definition bond_names : list string := ["CHANGE_BOND"; "FORM_BOND"; "BREAK_BOND"].
Definition radical_names : list string := ["LOSE_RADICAL"; "GAIN_RADICAL"].

Definition mem (s : string) (l : list string) : bool :=
  existsb (String.eqb s) l.

(** The [for i in range(change)] loop of a radical action. *)
Fixpoint radical_loop (gain : bool) (n : nat) (struct : Graph) (i : nat)
  : result Graph :=
  match n with
  | O => ret struct
  | S n' =>
      s <- stepRadical (if gain then 1 else -1) struct i ;;
      radical_loop gain n' s i
  end.

(** The body of the loop of [__apply] for one action, on a molecule (for a
    group pattern the bond made is a [GroupBond] of orders [['S']]).  The
    calls [atom1.applyAction] and [atom2.applyAction] of the bond actions
    refresh data the collaborator derives from the bonds; they leave the
    labels, the bonds and the free-electron counts alone. *)
Definition applyAction (doForward : bool) (action : Action) (struct : Graph)
  : result Graph :=
  a0 <- Py.index action 0 ;;
  if mem a0 bond_names then
    match tl action with
    | [label1; info; label2] =>
        match getLabeledAtom struct label1, getLabeledAtom struct label2 with
        | Some atom1, Some atom2 =>
            if (atom1 =? atom2)%nat
            then raise (InvalidActionError "Invalid atom labels encountered.")
            else if (a0 =? "CHANGE_BOND")%string then
              info <- Py.int info ;;
              bond <- getBond struct atom1 atom2 ;;
              changeBond struct atom1 atom2 bond (if doForward then info else - info)
            else if ((a0 =? "FORM_BOND")%string && doForward)
                    || ((a0 =? "BREAK_BOND")%string && negb doForward) then
              ret (addBond struct atom1 atom2 order_S)
            else if ((a0 =? "BREAK_BOND")%string && doForward)
                    || ((a0 =? "FORM_BOND")%string && negb doForward) then
              if negb (hasBond struct atom1 atom2)
              then raise (InvalidActionError "Attempted to remove a nonexistent bond.")
              else ret (removeBond struct atom1 atom2)
            else ret struct
        | _, _ => raise (InvalidActionError "Invalid atom labels encountered.")
        end
    | _ => raise ValueError
    end
  else if mem a0 radical_names then
    match tl action with
    | [lbl; change] =>
        change <- Py.int change ;;
        match getLabeledAtom struct lbl with
        | None =>
            raise (InvalidActionError
                     ("Unable to find atom with label " ++ dquote ++ lbl ++ dquote
                      ++ " while applying reaction recipe."))
        | Some atom =>
            if ((a0 =? "GAIN_RADICAL")%string && doForward)
               || ((a0 =? "LOSE_RADICAL")%string && negb doForward) then
              radical_loop true (Z.to_nat change) struct atom
            else if ((a0 =? "LOSE_RADICAL")%string && doForward)
                    || ((a0 =? "GAIN_RADICAL")%string && negb doForward) then
              radical_loop false (Z.to_nat change) struct atom
            else ret struct
        end
    | _ => raise ValueError
    end
  else
    raise (InvalidActionError
             ("Unknown action " ++ dquote ++ a0 ++ dquote ++ " encountered.")).

Fixpoint apply_loop (doForward : bool) (acts : list Action) (struct : Graph)
  : result Graph :=
  match acts with
  | [] => ret struct
  | action :: rest =>
      s <- applyAction doForward action struct ;;
      apply_loop doForward rest s
  end.

(** [__apply]; the connectivity values it resets and recomputes are a cache
    of the collaborator, a function of the atoms and bonds kept here. *)
Definition apply (self : ReactionRecipe) (struct : Graph) (doForward : bool)
  : result Graph :=
  apply_loop doForward (actions self) struct.

Definition applyForward (self : ReactionRecipe) (struct : Graph) : result Graph :=
  apply self struct true.

Definition applyReverse (self : ReactionRecipe) (struct : Graph) : result Graph :=
  apply self struct false.

End Apply.

(** *** Vocabulary of the statements about [__apply] *)


(** Two actions conflict when they address the same bond (the same
    unordered pair of labels) or the free electrons of the same label. *)
Definition conflict (a b : Action) : bool :=
  match tl a, tl b with
  | [l1; _; l2], [m1; _; m2] =>
      ((l1 =? m1)%string && (l2 =? m2)%string)
      || ((l1 =? m2)%string && (l2 =? m1)%string)
  | [l; _], [m; _] => (l =? m)%string
  | _, _ => false
  end.

Fixpoint independent (acts : list Action) : bool :=
  match acts with
  | [] => true
  | a :: rest => forallb (fun b => negb (conflict a b)) rest && independent rest
  end.

(** A FORM_BOND joins atoms that are not bonded in [struct]; a BREAK_BOND
    breaks a bond that is single in [struct]. *)
Definition bond_fits (struct : Graph) (a : Action) : bool :=
  match a with
  | [name; l1; _; l2] =>
      match getLabeledAtom struct l1, getLabeledAtom struct l2 with
      | Some i, Some j =>
          if (name =? "FORM_BOND")%string
          then bool_decide (bonds struct !! key i j = None)
          else if (name =? "BREAK_BOND")%string
          then bool_decide (bonds struct !! key i j = Some order_S)
          else true
      | _, _ => true
      end
  | _ => true
  end.

(** Every bond order and every free-electron count of the graph is one the
    collaborator accepts. *)
Definition well_formed {chem : Chemistry} (struct : Graph) : Prop :=
  map_Forall (fun _ o => order_ok o = true) (bonds struct)
  /\ Forall (fun a => radical_ok (radicalElectrons a) = true) (atoms struct).

(** The usual chemistry: single, double and triple bonds, no negative
    count of free electrons. *)
Definition molecule_chemistry : Chemistry :=
  {| order_ok := fun o => (1 <=? o) && (o <=? 3);
     radical_ok := fun n => 0 <=? n |}.

(** *** Actions as updates of one cell of the graph

    A bond action rewrites the entry of one bond, a radical action the
    counter of one atom; [compile] gives the update an action stands for.
    This view of [applyAction] serves the proofs. *)

Definition same_labels (s1 s2 : Graph) : Prop :=
  label <$> atoms s1 = label <$> atoms s2.

Section Cells.
Context {chem : Chemistry}.

(** The counter of one atom stepped [n] times by [d]. *)
Fixpoint radIter (d : Z) (n : nat) (r : Z) : result Z :=
  match n with
  | O => ret r
  | S n' => if radical_ok (r + d) then radIter d n' (r + d) else raise ActionError
  end.

Inductive op : Type :=
| OBond (k : nat * nat) (f : option Z -> result (option Z))
| ORad (i : nat) (f : Z -> result Z)
| OFail (e : exn)
| OSkip.

Definition exec (o : op) (struct : Graph) : result Graph :=
  match o with
  | OBond k f =>
      v <- f (bonds struct !! k) ;;
      ret (mkGraph (atoms struct) (partial_alter (fun _ => v) k (bonds struct)))
  | ORad i f =>
      match atoms struct !! i with
      | Some a =>
          r <- f (radicalElectrons a) ;;
          ret (mkGraph (<[i := mkAtom (label a) r]> (atoms struct)) (bonds struct))
      | None => raise GraphError
      end
  | OFail e => raise e
  | OSkip => ret struct
  end.

Definition f_change (d : Z) (v : option Z) : result (option Z) :=
  match v with
  | Some o => if order_ok (o + d) then ret (Some (o + d)) else raise ActionError
  | None => raise GraphError
  end.

Definition f_add (v : option Z) : result (option Z) := ret (Some order_S).

Definition f_remove (v : option Z) : result (option Z) :=
  match v with
  | Some _ => ret None
  | None => raise (InvalidActionError "Attempted to remove a nonexistent bond.")
  end.

(** The update an action stands for; it reads the graph for its labels
    only. *)
Definition compile (doForward : bool) (action : Action) (struct : Graph) : op :=
  match action with
  | [] => OFail IndexError
  | a0 :: params =>
      if mem a0 bond_names then
        match params with
        | [l1; info; l2] =>
            match getLabeledAtom struct l1, getLabeledAtom struct l2 with
            | Some i, Some j =>
                if (i =? j)%nat
                then OFail (InvalidActionError "Invalid atom labels encountered.")
                else if (a0 =? "CHANGE_BOND")%string then
                  match Py.int_opt info with
                  | Some z => OBond (key i j) (f_change (if doForward then z else - z))
                  | None => OFail ValueError
                  end
                else if ((a0 =? "FORM_BOND")%string && doForward)
                        || ((a0 =? "BREAK_BOND")%string && negb doForward)
                then OBond (key i j) f_add
                else if ((a0 =? "BREAK_BOND")%string && doForward)
                        || ((a0 =? "FORM_BOND")%string && negb doForward)
                then OBond (key i j) f_remove
                else OSkip
            | _, _ => OFail (InvalidActionError "Invalid atom labels encountered.")
            end
        | _ => OFail ValueError
        end
      else if mem a0 radical_names then
        match params with
        | [lbl; change] =>
            match Py.int_opt change with
            | None => OFail ValueError
            | Some z =>
                match getLabeledAtom struct lbl with
                | None =>
                    OFail (InvalidActionError
                             ("Unable to find atom with label " ++ dquote ++ lbl
                              ++ dquote ++ " while applying reaction recipe."))
                | Some i =>
                    if ((a0 =? "GAIN_RADICAL")%string && doForward)
                       || ((a0 =? "LOSE_RADICAL")%string && negb doForward)
                    then ORad i (radIter 1 (Z.to_nat z))
                    else if ((a0 =? "LOSE_RADICAL")%string && doForward)
                            || ((a0 =? "GAIN_RADICAL")%string && negb doForward)
                    then ORad i (radIter (-1) (Z.to_nat z))
                    else OSkip
                end
            end
        | _ => OFail ValueError
        end
      else OFail (InvalidActionError
                    ("Unknown action " ++ dquote ++ a0 ++ dquote ++ " encountered."))
  end.

Definition separate (o1 o2 : op) : Prop :=
  match o1, o2 with
  | OBond k1 _, OBond k2 _ => k1 <> k2
  | ORad i _, ORad j _ => i <> j
  | _, _ => True
  end.

End Cells.

(** *** Sample graphs and recipes *)

Definition two_atoms : Graph :=
  mkGraph [mkAtom "*1" 0; mkAtom "*2" 1] ∅.

Definition double_bonded : Graph :=
  mkGraph [mkAtom "*1" 0; mkAtom "*2" 0] {[ (0%nat, 1%nat) := 2 ]}.

Definition single_bonded : Graph :=
  mkGraph [mkAtom "*1" 0; mkAtom "*2" 0] {[ (0%nat, 1%nat) := 1 ]}.

Definition break_only : ReactionRecipe :=
  mkRecipe [["BREAK_BOND"; "*1"; "S"; "*2"]].

Definition form_break : ReactionRecipe :=
  mkRecipe [["FORM_BOND"; "*1"; "S"; "*2"]; ["BREAK_BOND"; "*1"; "S"; "*2"]].

(** Hydrogen abstraction: [*1]-[*2] breaks, [*2]-[*3] forms, the radical
    moves from [*3] to [*1]. *)
Definition h_abstraction : ReactionRecipe :=
  mkRecipe [["BREAK_BOND"; "*1"; "S"; "*2"];
            ["FORM_BOND"; "*2"; "S"; "*3"];
            ["GAIN_RADICAL"; "*1"; "1"];
            ["LOSE_RADICAL"; "*3"; "1"]].

Definition abstraction_reactants : Graph :=
  mkGraph [mkAtom "*1" 0; mkAtom "*2" 0; mkAtom "*3" 1; mkAtom "" 0]
          {[ (0%nat, 1%nat) := 1; (0%nat, 3%nat) := 2 ]}.

Definition abstraction_products : Graph :=
  mkGraph [mkAtom "*1" 1; mkAtom "*2" 0; mkAtom "*3" 0; mkAtom "" 0]
          {[ (1%nat, 2%nat) := 1; (0%nat, 3%nat) := 2 ]}.

End Recipe.

(** ** Rate rules and kinetics estimation *)

Module Rules.

(** Modelled from the spec: the floating-point arithmetic of Python and the
    unit conversion of the quantity layer are collaborators; rate-law
    parameters are values of [F] with the operations the code uses.
    [flog10] is [math.log10] and [fpow10 x] is [10**x], which may raise. *)
Class Floats : Type := {
  F : Type;
  fzero : F;
  fmilli : F;
  fadd : F -> F -> F;
  fmul : F -> F -> F;
  fdiv : F -> F -> F;
  of_int : Z -> F;
  flog10 : F -> result F;
  fpow10 : F -> result F;
  to_si : F -> string -> F
}.

Section Kinetics.
Context {fl : Floats}.

Record Quantity : Type := mkQuantity { value_si : F; units : string }.

(** [Quantity((value, units))]. *)
Definition quantity (value : F) (u : string) : Quantity :=
  mkQuantity (to_si value u) u.

(** The rate law [ArrheniusEP]; [n] and [alpha] hold their [value_si]. *)
Record ArrheniusEP : Type := mkArrheniusEP {
  A : Quantity;
  n : F;
  alpha : F;
  E0 : Quantity;
  comment : string
}.

Definition add_comment (k : ArrheniusEP) (s : string) : ArrheniusEP :=
  mkArrheniusEP (A k) (n k) (alpha k) (E0 k) (comment k ++ s).

(** [kinetics.A.value_si *= degeneracy]. *)
Definition scale_A (k : ArrheniusEP) (degeneracy : Z) : ArrheniusEP :=
  mkArrheniusEP
    (mkQuantity (fmul (value_si (A k)) (of_int degeneracy)) (units (A k)))
    (n k) (alpha k) (E0 k) (comment k).

(** An entry of a database: a node of the template tree (with its [parent])
    or a stored rate rule (with its [index], [rank] and [data]).  References
    to entries are compared by identity in Python; labels are unique in the
    tree, and [entry_eqb] compares the label and the chain of parents. *)
Inductive Entry : Type :=
  mkEntry (index : Z) (label : string) (parent : option Entry)
          (data : option ArrheniusEP) (rank : Z).

Definition index (e : Entry) : Z := let 'mkEntry i _ _ _ _ := e in i.
Definition label (e : Entry) : string := let 'mkEntry _ l _ _ _ := e in l.
Definition parent (e : Entry) : option Entry := let 'mkEntry _ _ p _ _ := e in p.
Definition data (e : Entry) : option ArrheniusEP := let 'mkEntry _ _ _ d _ := e in d.
Definition rank (e : Entry) : Z := let 'mkEntry _ _ _ _ r := e in r.

Fixpoint entry_eqb (a b : Entry) : bool :=
  match a, b with
  | mkEntry _ la pa _ _, mkEntry _ lb pb _ _ =>
      (la =? lb)%string
      && match pa, pb with
         | Some x, Some y => entry_eqb x y
         | None, None => true
         | _, _ => false
         end
  end.

Fixpoint depth (e : Entry) : nat :=
  match e with
  | mkEntry _ _ (Some p) _ _ => S (depth p)
  | mkEntry _ _ None _ _ => O
  end.

Definition Template : Type := list Entry.

Fixpoint template_eqb (s t : Template) : bool :=
  match s, t with
  | [], [] => true
  | a :: s', b :: t' => entry_eqb a b && template_eqb s' t'
  | _, _ => false
  end.

(** [sep.join(items)]. *)
Fixpoint join (sep : string) (items : list string) : string :=
  match items with
  | [] => ""
  | [x] => x
  | x :: rest => x ++ sep ++ join sep rest
  end.

(** [list.sort(key=...)]: a stable sort; [le] compares the keys. *)
Fixpoint insert_sorted {X} (le : X -> X -> bool) (x : X) (l : list X) : list X :=
  match l with
  | [] => [x]
  | y :: l' => if le x y then x :: l else y :: insert_sorted le x l'
  end.

Fixpoint sort {X} (le : X -> X -> bool) (l : list X) : list X :=
  match l with
  | [] => []
  | x :: l' => insert_sorted le x (sort le l')
  end.

(** Order of the tuples [(rank, index)]. *)
Definition pair_le (a b : Z * Z) : bool :=
  (a.1 <? b.1) || ((a.1 =? b.1) && (a.2 <=? b.2)).

Definition by_rank_index (x y : Entry) : bool :=
  pair_le (rank x, index x) (rank y, index y).

Definition by_index (x y : Entry) : bool := index x <=? index y.

(** A depository or the rule set: its [label] and [entries.values()], in
    the order the dictionary yields them. *)
Record Depository : Type := mkDepository {
  dep_label : string;
  entries : list Entry
}.

(** The part of a [KineticsFamily] the kinetics side reads. *)
Record Family : Type := mkFamily {
  family_label : string;
  rules : Depository;
  depositories : list Depository;
  forwardTemplate_reactants : list Entry
}.

Definition templateLabels (template : Template) : string :=
  join ";" (map label template).

Definition matching (self : Family) (template : Template) : list Entry :=
  filter (fun entry => bool_decide (templateLabels template = label entry))
    (entries (rules self)).

(** The list [entries] of [getRateRule] before the choice is made. *)
Definition candidates (self : Family) (template : Template) : result (list Entry) :=
  let found := matching self template in
  if (Py.lower (family_label self) =? "r_recombination")%string then
    t0 <- Py.index template 0 ;;
    t1 <- Py.index template 1 ;;
    if negb (entry_eqb t0 t1)
    then ret (found ++ matching self (rev template))%list
    else ret found
  else ret found.

Definition getRateRule (self : Family) (template : Template) : result Entry :=
  found <- candidates self template ;;
  if (length found =? 1)%nat then Py.index found 0
  else if (1 <? length found)%nat then
    if existsb (fun entry => 0 <? rank entry) found then
      Py.index (sort by_rank_index
                  (filter (fun entry => bool_decide (0 < rank entry)) found)) 0
    else
      Py.index (sort by_index found) 0
  else raise ValueError.

Definition hasRateRule (self : Family) (template : Template) : result bool :=
  match getRateRule self template with
  | inr _ => ret true
  | inl ValueError => ret false
  | inl e => raise e
  end.

(** *** [__getAverageKinetics] *)

(** The loop summing [log10(A)], [n], [alpha] and [E0]; a [None] among the
    rate laws has no attribute [A]. *)
Fixpoint sum_loop (kineticsList : list (option ArrheniusEP)) (acc : F * F * F * F)
  : result (F * F * F * F) :=
  match kineticsList with
  | [] => ret acc
  | None :: _ => raise AttributeError
  | Some kinetics :: rest =>
      let '(logA, n0, alpha0, E00) := acc in
      l <- flog10 (value_si (A kinetics)) ;;
      sum_loop rest (fadd logA l, fadd n0 (n kinetics),
                     fadd alpha0 (alpha kinetics),
                     fadd E00 (value_si (E0 kinetics)))
  end.

(** The chain of tests on [Aunits], with the operands as they are written:
    [Aunits == 'cm^3/(mol*s)' or 'cm^3/(molecule*s)' or 'm^3/(molecule*s)']
    is the comparison [or]-ed with two string literals. *)
Definition averagedUnits (Aunits : string) : result string :=
  if Py.truthy (Py.or (Py.or (Py.VBool (Aunits =? "cm^3/(mol*s)")%string)
                             (Py.VStr "cm^3/(molecule*s)"))
                      (Py.VStr "m^3/(molecule*s)"))
  then ret "m^3/(mol*s)"
  else if Py.truthy (Py.or (Py.or (Py.VBool (Aunits =? "cm^6/(mol^2*s)")%string)
                                  (Py.VStr "cm^6/(molecule^2*s)"))
                           (Py.VStr "m^6/(molecule^2*s)"))
  then ret "m^6/(mol^2*s)"
  else if (Aunits =? "s^-1")%string || (Aunits =? "m^3/(mol*s)")%string
          || (Aunits =? "m^6/(mol^2*s)")%string
  then ret Aunits
  else raise (Exception ("Invalid units " ++ Aunits ++ " for averaging kinetics.")).

Definition getAverageKinetics (kineticsList : list (option ArrheniusEP))
  : result ArrheniusEP :=
  let count := length kineticsList in
  sums <- sum_loop kineticsList (fzero, fzero, fzero, fzero) ;;
  let '(logA, n0, alpha0, E00) := sums in
  if (count =? 0)%nat then raise ZeroDivisionError
  else
    let c := of_int (Z.of_nat count) in
    let logA := fdiv logA c in
    let n0 := fdiv n0 c in
    let alpha0 := fdiv alpha0 c in
    let E00 := fdiv E00 c in
    first <- Py.index kineticsList 0 ;;
    match first with
    | None => raise AttributeError
    | Some k0 =>
        Aunits <- averagedUnits (units (A k0)) ;;
        a <- fpow10 logA ;;
        ret (mkArrheniusEP (quantity a Aunits) n0 alpha0
               (quantity (fmul E00 fmilli) "kJ/mol") "")
    end.

(** The units the averaging is meant to accept, one group per reaction
    order. *)
Definition recognized_units : list string :=
  ["s^-1";
   "cm^3/(mol*s)"; "cm^3/(molecule*s)"; "m^3/(molecule*s)"; "m^3/(mol*s)";
   "cm^6/(mol^2*s)"; "cm^6/(molecule^2*s)"; "m^6/(molecule^2*s)"; "m^6/(mol^2*s)"].

(** *** [estimateKineticsUsingRateRules] *)

Definition getTemplateLabel (template : Template) : string :=
  "(" ++ join "," (map label template) ++ ")".

(** The [for t in templateList] loop filling [kineticsList]. *)
Fixpoint collect (self : Family) (templateList : list Template)
  : result (list (option ArrheniusEP * Template)) :=
  match templateList with
  | [] => ret []
  | t :: rest =>
      has <- hasRateRule self t ;;
      if has : bool then
        entry <- getRateRule self t ;;
        found <- collect self rest ;;
        ret ((data entry, t) :: found)
      else collect self rest
  end.

(** The branch taken when [kineticsList] is not empty. *)
Definition estimate_found (template : Template) (degeneracy : Z)
    (kineticsList : list (option ArrheniusEP * Template)) : result ArrheniusEP :=
  let originalLeaves := getTemplateLabel template in
  kinetics <-
    (if (length kineticsList =? 1)%nat then
       kt <- Py.index kineticsList 0 ;;
       match kt.1 with
       | None => raise AttributeError
       | Some kinetics =>
           let matchedLeaves := getTemplateLabel kt.2 in
           if (matchedLeaves =? originalLeaves)%string
           then ret (add_comment kinetics "Exact match found")
           else ret (add_comment kinetics ("Estimated using template " ++ matchedLeaves))
       end
     else
       kinetics <- getAverageKinetics (map fst kineticsList) ;;
       ret (add_comment kinetics
              ("Estimated using average of templates "
               ++ join " + " (map (fun kt => getTemplateLabel kt.2) kineticsList)))) ;;
  ret (scale_A (add_comment kinetics (" for rate rule " ++ originalLeaves)) degeneracy).

(** One pass of [for index in range(len(template0))]: a slot with a parent
    gives the copy of [template0] with that slot replaced by the parent,
    appended unless already in the list. *)
Definition widen_slot (template0 : Template) (templateList : list Template)
    (idx : nat) : list Template :=
  match template0 !! idx with
  | Some e =>
      match parent e with
      | None => templateList
      | Some p =>
          let t := <[idx := p]> template0 in
          if existsb (template_eqb t) templateList then templateList
          else (templateList ++ [t])%list
      end
  | None => templateList
  end.

Definition widen_template (templateList : list Template) (template0 : Template)
  : list Template :=
  fold_left (widen_slot template0) (seq 0 (length template0)) templateList.

(** The next [templateList], built when no rule was found. *)
Definition widen (templateList0 : list Template) : list Template :=
  fold_left widen_template templateList0 [].

(** Modelled from the spec: the collaborators of the estimators and of the
    combined lookup that are not in the sources.  [Reaction] with its
    isomorphism test against the reaction of a depository entry (either
    direction, and forward only); the group-additivity estimate of the
    [KineticsGroups] tree; the truth value Python gives a rate-law object
    in [if kinetics:]; and [repr(entry)] of the class [Entry], which Python
    uses to print a list of entries. *)
Class Collaborators : Type := {
  Reaction : Type;
  isIsomorphic : Reaction -> Entry -> bool;
  isIsomorphic_forward : Reaction -> Entry -> bool;
  groups_estimate : Template -> ArrheniusEP -> Z -> result (option ArrheniusEP);
  kinetics_truthy : ArrheniusEP -> bool;
  entry_repr : Entry -> string
}.

Context {co : Collaborators}.

(** [str(template)] as [format] prints the list: the [repr] of each entry,
    separated by a comma and a space, between brackets. *)
Definition str_template (template : Template) : string :=
  "[" ++ join ", " (map entry_repr template) ++ "]".

(** The [while] loop, [None] when the fuel runs out. *)
Fixpoint estimate_loop (fuel : nat) (self : Family) (template : Template)
    (degeneracy : Z) (templateList : list Template)
  : option (result ArrheniusEP) :=
  match fuel with
  | O => None
  | S fuel' =>
      if (0 <? length templateList)%nat then
        match collect self templateList with
        | inl e => Some (raise e)
        | inr kineticsList =>
            if (0 <? length kineticsList)%nat
            then Some (estimate_found template degeneracy kineticsList)
            else estimate_loop fuel' self template degeneracy (widen templateList)
        end
      else
        Some (raise (Exception
                       ("Unable to determine kinetics for reaction with template "
                        ++ str_template template ++ ".")))
  end.

Definition total_depth (template : Template) : nat :=
  list_sum (map depth template).

(** The loop is entered at most once per level of the tree above the
    template, and once more to find the list empty. *)
Definition estimateKineticsUsingRateRules (self : Family) (template : Template)
    (degeneracy : Z) : result ArrheniusEP :=
  match estimate_loop (total_depth template + 2) self template degeneracy [template] with
  | Some r => r
  | None => raise (Exception "out of fuel")
  end.

(** *** The widening as the specification words it *)

(** A slot expands to its direct children if it has any, else stays a
    singleton of itself. *)
Definition spec_expand (children : Entry -> list Entry) (e : Entry) : list Entry :=
  match children e with
  | [] => [e]
  | cs => cs
  end.

Fixpoint product (slots : list (list Entry)) : list Template :=
  match slots with
  | [] => [[]]
  | s :: rest => flat_map (fun e => map (cons e) (product rest)) s
  end.

(** The cartesian product of the slot expansions minus the tuples tried. *)
Definition spec_widen (children : Entry -> list Entry) (tried : list Template)
    (t : Template) : list Template :=
  filter (fun c => negb (existsb (template_eqb c) tried))
         (product (map (spec_expand children) t)).

(** [(rank, index)] of [x] is lexicographically at most that of [y]. *)
Definition lex_le (x y : Entry) : Prop :=
  rank x < rank y \/ (rank x = rank y /\ index x <= index y).

(** A tuple equal to [t] is in the list. *)
Definition covered (t : Template) (l : list Template) : Prop :=
  existsb (template_eqb t) l = true.

(** *** [getKinetics] *)

(** Truth value of a variable holding a rate law or [None]. *)
Definition truthy (kinetics : option ArrheniusEP) : bool :=
  match kinetics with
  | Some k => kinetics_truthy k
  | None => false
  end.

(** Where a result comes from: a depository, an estimator named by a
    string, or [None]. *)
Inductive Source : Type :=
| FromDepository (d : Depository)
| FromEstimator (name : string)
| NoSource.

Definition Hit : Type := (option ArrheniusEP * Source * option Entry * bool)%type.

(** What [getKinetics] returns: one tuple, or the list of all results. *)
Inductive Found : Type :=
| One (h : Hit)
| All (l : list Hit).

Definition getKineticsFromDepository (depository : Depository) (reaction : Reaction)
    (template : Template) (degeneracy : Z)
  : list (option ArrheniusEP * Entry * bool) :=
  if Py.endswith (dep_label depository) "rules" then
    let kineticsList :=
      flat_map
        (fun entry =>
           let entryLabels := Py.split ";" (label entry) in
           let templateLabels := map label template in
           if forallb (fun group => Py.elem group entryLabels) templateLabels
              && forallb (fun group => Py.elem group templateLabels) entryLabels
           then [(data entry, entry, true)] else [])
        (entries depository) in
    map (fun x : option ArrheniusEP * Entry * bool =>
           let '(kinetics, entry, isForward) := x in
           (option_map
              (fun k =>
                 add_comment
                   (add_comment (scale_A k degeneracy)
                      ("Matched rule " ++ Py.str (index entry) ++ " " ++ label entry
                       ++ " in " ++ dep_label depository ++ Py.newline))
                   ("Multiplied by reaction path degeneracy " ++ Py.str degeneracy))
              kinetics,
            entry, isForward))
        kineticsList
  else
    let kineticsList :=
      flat_map
        (fun entry =>
           if isIsomorphic reaction entry
           then [(data entry, entry, isIsomorphic_forward reaction entry)]
           else [])
        (entries depository) in
    map (fun x : option ArrheniusEP * Entry * bool =>
           let '(kinetics, entry, isForward) := x in
           (option_map
              (fun k =>
                 add_comment k
                   ("Matched reaction " ++ Py.str (index entry) ++ " " ++ label entry
                    ++ " in " ++ dep_label depository))
              kinetics,
            entry, isForward))
        kineticsList.

Definition estimateKineticsUsingGroupAdditivity (self : Family)
    (template : Template) (degeneracy : Z) : result (option ArrheniusEP) :=
  let kinetics :=
    fold_left
      (fun (kinetics : option ArrheniusEP) entry =>
         match kinetics, data entry with
         | None, Some d => Some d
         | _, _ => kinetics
         end)
      (forwardTemplate_reactants self) None in
  match kinetics with
  | None => ret None
  | Some k => groups_estimate template k degeneracy
  end.

Definition getKineticsForTemplate (self : Family) (template : Template)
    (degeneracy : Z) (method : string) : result (option ArrheniusEP) :=
  if (Py.lower method =? "group additivity")%string then
    estimateKineticsUsingGroupAdditivity self template degeneracy
  else if (Py.lower method =? "rate rules")%string then
    k <- estimateKineticsUsingRateRules self template degeneracy ;;
    ret (Some k)
  else raise ValueError.

Definition by_hit_rank_index (x y : option ArrheniusEP * Entry * bool) : bool :=
  pair_le (rank x.1.2, index x.1.2) (rank y.1.2, index y.1.2).

(** The loop over the depositories: a tuple returned at once, or the list
    accumulated. *)
Fixpoint search (deps : list Depository) (reaction : Reaction)
    (template : Template) (degeneracy : Z) (returnAllKinetics : bool)
    (kineticsList : list Hit) : result (Hit + list Hit) :=
  match deps with
  | [] => ret (inr kineticsList)
  | depository :: rest =>
      let kineticsList0 :=
        getKineticsFromDepository depository reaction template degeneracy in
      if (0 <? length kineticsList0)%nat && negb returnAllKinetics then
        let kineticsList0 :=
          if existsb (fun x => rank x.1.2 =? 0) kineticsList0
             && negb (forallb (fun x => rank x.1.2 =? 0) kineticsList0)
          then filter (fun x => bool_decide (rank x.1.2 <> 0)) kineticsList0
          else kineticsList0 in
        first <- Py.index (sort by_hit_rank_index kineticsList0) 0 ;;
        let '(kinetics, entry, isForward) := first in
        ret (inl (kinetics, FromDepository depository, Some entry, isForward))
      else
        search rest reaction template degeneracy returnAllKinetics
          (kineticsList
           ++ map (fun x : option ArrheniusEP * Entry * bool =>
                     let '(kinetics, entry, isForward) := x in
                     (kinetics, FromDepository depository, Some entry, isForward))
                  kineticsList0)%list
  end.

Definition getKinetics (self : Family) (reaction : Reaction) (template : Template)
    (degeneracy : Z) (estimator : string) (returnAllKinetics : bool)
  : result Found :=
  let deps := (depositories self ++ [rules self])%list in
  found <- search deps reaction template degeneracy returnAllKinetics [] ;;
  match found with
  | inl hit => ret (One hit)
  | inr kineticsList =>
      if Py.str_truthy estimator then
        kinetics <- getKineticsForTemplate self template degeneracy estimator ;;
        if truthy kinetics && negb returnAllKinetics
        then ret (One (kinetics, NoSource, None, true))
        else
          let kineticsList :=
            if truthy kinetics
            then (kineticsList ++ [(kinetics, NoSource, None, true)])%list
            else kineticsList in
          if negb returnAllKinetics then raise UndeterminableKineticsError
          else ret (All kineticsList)
      else
        kinetics <- getKineticsForTemplate self template degeneracy "rate rules" ;;
        if truthy kinetics && negb returnAllKinetics
        then ret (One (kinetics, NoSource, None, true))
        else
          let kineticsList :=
            if truthy kinetics
            then (kineticsList
                  ++ [(kinetics, FromEstimator "rate rules", None, true)])%list
            else kineticsList in
          kinetics2 <-
            getKineticsForTemplate self template degeneracy "group additivity" ;;
          if truthy kinetics2 && negb returnAllKinetics
          then ret (One (kinetics, NoSource, None, true))
          else
            let kineticsList :=
              if truthy kinetics2
              then (kineticsList
                    ++ [(kinetics2, FromEstimator "group additivity", None, true)])%list
              else kineticsList in
            if negb returnAllKinetics then raise UndeterminableKineticsError
            else ret (All kineticsList)
  end.

End Kinetics.

(** A small exact instance to run the definitions on: rationals, with the
    logarithm and the power taken on whole decades only (anything else is
    refused with [ValueError]).  It is a test bench, not Python's floats:
    the statements below hold for every instance. *)
Definition decades : Floats :=
  {| F := Q;
     fzero := 0%Q;
     fmilli := (1 # 1000)%Q;
     fadd := Qplus;
     fmul := Qmult;
     fdiv := Qdiv;
     of_int := inject_Z;
     flog10 := fun q =>
       if Qeq_bool q 1 then ret 0%Q
       else if Qeq_bool q 10 then ret 1%Q
       else if Qeq_bool q 100 then ret 2%Q
       else raise ValueError;
     fpow10 := fun q =>
       if Qeq_bool q 0 then ret 1%Q
       else if Qeq_bool q 1 then ret 10%Q
       else if Qeq_bool q 2 then ret 100%Q
       else raise ValueError;
     to_si := fun v _ => v |}.

(** A template tree [Root <- Mid <- Leaf] and rule sets over it. *)
Definition node {fl : Floats} (l : string) (p : option Entry) : Entry :=
  mkEntry (-1) l p None 0.

Definition rule {fl : Floats} (i : Z) (l : string) (r : Z) : Entry :=
  mkEntry i l None None r.


Section Samples.
#[local] Existing Instance decades.

Definition Root : Entry := node "Root" None.
Definition Mid : Entry := node "Mid" (Some Root).
Definition Leaf : Entry := node "Leaf" (Some Mid).

(** The children of the nodes of the sample tree. *)
Definition sample_children (e : Entry) : list Entry :=
  if (label e =? "Root")%string then [Mid]
  else if (label e =? "Mid")%string then [Leaf]
  else [].

Definition unit_rate (u : string) : ArrheniusEP :=
  mkArrheniusEP (mkQuantity 10%Q u) 0%Q 0%Q (mkQuantity 0%Q "J/mol") "".

(** A family whose only rule is stored at the root of the tree. *)
Definition root_only : Family :=
  mkFamily "Sample"
    (mkDepository "Sample/rules"
       [mkEntry 1 "Root" None (Some (unit_rate "m^3/(mol*s)")) 1])
    [] [].

(** Collaborators for the samples: no reaction is isomorphic to a stored
    one, the group-additivity tree returns the generic rate law unchanged,
    a rate law is true as every object is whose class defines no truth
    value of its own, and an entry prints with its index and its label. *)
Definition sample_collaborators : Collaborators :=
  {| Reaction := unit;
     isIsomorphic := fun _ _ => false;
     isIsomorphic_forward := fun _ _ => false;
     groups_estimate := fun _ k _ => ret (Some k);
     kinetics_truthy := fun _ => true;
     entry_repr := fun e =>
       "<Entry index=" ++ Py.str (index e) ++ " label=" ++ Recipe.dquote
       ++ label e ++ Recipe.dquote ++ ">" |}.

Definition zero_rate : ArrheniusEP :=
  mkArrheniusEP (mkQuantity 0%Q "m^3/(mol*s)") 0%Q 0%Q (mkQuantity 0%Q "J/mol") "".

(** A family with a rule of zero rate at the root and generic group
    kinetics on its template reactant. *)
Definition zero_at_root : Family :=
  mkFamily "Sample"
    (mkDepository "Sample/rules" [mkEntry 1 "Root" None (Some zero_rate) 1])
    []
    [mkEntry (-1) "Root" None (Some (unit_rate "m^3/(mol*s)")) 0].

End Samples.

(** The two cases of lookup the specification singles out. *)
Definition family_of (name : string) (stored : list (@Entry decades)) : Family :=
  mkFamily name (mkDepository (name ++ "/rules") stored) [] [].

Definition ranked_and_placeholder : Family :=
  family_of "H_Abstraction"
    [@rule decades 1 "X_H;Y_rad" 0; @rule decades 2 "X_H;Y_rad" 3].

Definition two_ranked : Family :=
  family_of "H_Abstraction"
    [@rule decades 5 "X_H;Y_rad" 3; @rule decades 2 "X_H;Y_rad" 3].

Definition X_H_Y_rad : Template :=
  [@node decades "X_H" None; @node decades "Y_rad" None].

End Rules.


(** ** Reaction generation *)

Module Generation.

(** Modelled from the spec: the molecular graphs and their matching are
    collaborators ([isIsomorphic], resonance isomers, subgraph isomorphism
    against a group).  A [Molecule] is an object: equality on it is Python's
    identity.  The atom labels the generator writes into the molecules are
    read by the collaborators only, and are not part of the state kept
    here. *)
Class Molecules : Type := {
  Molecule : Type;
  Molecule_eq_dec :: EqDecision Molecule;
  isIsomorphic : Molecule -> Molecule -> bool;
  generateResonanceIsomers : Molecule -> list Molecule;
  Group : Type;
  Mapping : Type;
  findSubgraphIsomorphisms : Molecule -> Group -> list Mapping
}.

Section Generator.
Context {mo : Molecules}.

(** The item of a template reactant: a group, or a logic node with the
    structures [getPossibleStructures] expands it to. *)
Inductive TemplateItem : Type :=
| ItemGroup (g : Group)
| ItemLogic (possibleStructures : list Group).

Record Template : Type := mkTemplate {
  t_reactants : list TemplateItem;
  t_products : list TemplateItem
}.

Record Family : Type := mkFamily {
  label : string;
  forwardTemplate : Template;
  reverseTemplate : option Template;
  ownReverse : bool
}.

Inductive TemplateReaction : Type :=
  mkReaction (reactants products : list Molecule) (degeneracy : Z)
             (pairs : list (Molecule * Molecule)) (template : list Group)
             (reverse : option TemplateReaction).

Definition reactants (r : TemplateReaction) : list Molecule :=
  let 'mkReaction x _ _ _ _ _ := r in x.
Definition products (r : TemplateReaction) : list Molecule :=
  let 'mkReaction _ x _ _ _ _ := r in x.
Definition degeneracy (r : TemplateReaction) : Z :=
  let 'mkReaction _ _ x _ _ _ := r in x.
Definition pairs (r : TemplateReaction) : list (Molecule * Molecule) :=
  let 'mkReaction _ _ _ x _ _ := r in x.
Definition template (r : TemplateReaction) : list Group :=
  let 'mkReaction _ _ _ _ x _ := r in x.
Definition reverse (r : TemplateReaction) : option TemplateReaction :=
  let 'mkReaction _ _ _ _ _ x := r in x.

Definition set_degeneracy (r : TemplateReaction) (d : Z) : TemplateReaction :=
  mkReaction (reactants r) (products r) d (pairs r) (template r) (reverse r).

Definition set_reverse (r : TemplateReaction) (rev : TemplateReaction)
  : TemplateReaction :=
  mkReaction (reactants r) (products r) (degeneracy r) (pairs r) (template r)
             (Some rev).

(** The steps of the generator that are nothing but calls into the
    molecule collaborator are taken whole, as parameters.
    [generateProductStructures] labels the reactants by the mappings, checks
    the forbidden structures, merges the reactants, applies the recipe and
    splits the result ([None]: not the number of products the template
    expects); [containsLabeledAtom] tells whether a molecule of a reaction
    has an atom of a given label once the labeled atoms of the reaction are
    restored; [getReactionTemplate] is the lookup in the tree of groups;
    [reaction_str] is [str(reaction)], of the class [Reaction]. *)
Class Engine : Type := {
  generateProductStructures :
    Family -> list Molecule -> list Mapping -> bool -> result (option (list Molecule));
  containsLabeledAtom : TemplateReaction -> Molecule -> string -> bool;
  getReactionTemplate : Family -> TemplateReaction -> result (list Group);
  reaction_str : TemplateReaction -> string
}.

Context {en : Engine}.

(** The pairing of two reactants with two products used by the hardcoded
    families: the reactant holding [lr] goes with the product holding
    [lp]. *)
Definition pair_by_labels (reaction : TemplateReaction) (lr lp : string)
  : result (list (Molecule * Molecule) * bool) :=
  match reactants reaction, products reaction with
  | [r0; r1], [p0; p1] =>
      let has := containsLabeledAtom reaction in
      if has r0 lr then
        if has p0 lp then ret ([(r0, p0); (r1, p1)], false)
        else if has p1 lp then ret ([(r0, p1); (r1, p0)], false)
        else ret ([], true)
      else if has r1 lr then
        if has p1 lp then ret ([(r0, p0); (r1, p1)], false)
        else if has p0 lp then ret ([(r0, p1); (r1, p0)], false)
        else ret ([], true)
      else ret ([], false)
  | _, _ => raise AssertionError
  end.

Definition getReactionPairs (self : Family) (reaction : TemplateReaction)
  : result (list (Molecule * Molecule)) :=
  let name := Py.lower (label self) in
  found <-
    (if (length (reactants reaction) =? 1)%nat
        || (length (products reaction) =? 1)%nat
     then ret (flat_map (fun reactant =>
                           map (fun product => (reactant, product))
                               (products reaction))
                        (reactants reaction), false)
     else if (name =? "h_abstraction")%string
     then pair_by_labels reaction "*1" "*3"
     else if (name =? "disproportionation")%string
     then pair_by_labels reaction "*1" "*1"
     else if Py.elem name ["substitution_o"; "substitutions"]
     then pair_by_labels reaction "*2" "*3"
     else ret ([], true)) ;;
  if found.2 : bool
  then raise (ReactionPairsError
                ("Unable to determine reaction pairs for " ++ label self
                 ++ " reaction " ++ reaction_str reaction ++ "."))
  else ret found.1.

(** The test at the head of [__createReaction]: the products are the
    reactants again. *)
Definition same_species (reactants products : list Molecule) : bool :=
  match reactants, products with
  | [r0], [p0] => isIsomorphic r0 p0
  | [r0; r1], [p0; p1] =>
      (isIsomorphic r0 p0 && isIsomorphic r1 p1)
      || (isIsomorphic r0 p1 && isIsomorphic r1 p0)
  | _, _ => false
  end.

Definition createReaction (reactants products : list Molecule) (isForward : bool)
  : option TemplateReaction :=
  if same_species reactants products then None
  else Some (mkReaction (if isForward then reactants else products)
                        (if isForward then products else reactants)
                        1 [] [] None).

Definition matchReactantToTemplate (reactant : Molecule)
    (templateReactant : TemplateItem) : list Mapping :=
  match templateReactant with
  | ItemLogic possibleStructures =>
      flat_map (findSubgraphIsomorphisms reactant) possibleStructures
  | ItemGroup struct => findSubgraphIsomorphisms reactant struct
  end.

(** A reactant as the caller passes it: one molecule, or a list of
    resonance isomers, a list object with an identity. *)
Inductive Reactant : Type :=
| OneMolecule (m : Molecule)
| IsomerList (id : nat) (ms : list Molecule).

(** [reactant if isinstance(reactant, list) else [reactant]]: a list that
    was passed keeps its identity, a fresh list has none to share. *)
Definition wrap (r : Reactant) : option nat * list Molecule :=
  match r with
  | OneMolecule m => (None, [m])
  | IsomerList id ms => (Some id, ms)
  end.

(** [a is b] on the wrapped lists. *)
Definition same_list (a b : option nat * list Molecule) : bool :=
  match a.1, b.1 with
  | Some i, Some j => (i =? j)%nat
  | _, _ => false
  end.

(** [a == b] on the wrapped lists. *)
Definition equal_lists (a b : option nat * list Molecule) : bool :=
  same_list a b || bool_decide (a.2 = b.2).

Definition sameReactants (reactants : list (option nat * list Molecule)) : bool :=
  match reactants with
  | [a; b] => equal_lists a b
  | _ => false
  end.

(** Sequencing of a loop body that appends to a list and may raise. *)
Fixpoint for_each {X Y} (f : X -> result (list Y)) (l : list X) : result (list Y) :=
  match l with
  | [] => ret []
  | x :: rest =>
      ys <- f x ;;
      zs <- for_each f rest ;;
      ret (ys ++ zs)%list
  end.

(** The [try ... except ForbiddenStructureException ... else] around one
    combination of mappings: the reactions it appends to [rxnList]. *)
Definition attempt (self : Family) (reactantStructures : list Molecule)
    (maps : list Mapping) (forward : bool) : result (list TemplateReaction) :=
  match generateProductStructures self reactantStructures maps forward with
  | inl ForbiddenStructureException => ret []
  | inl e => raise e
  | inr None => ret []
  | inr (Some productStructures) =>
      match createReaction reactantStructures productStructures forward with
      | Some rxn => ret [rxn]
      | None => ret []
      end
  end.

(** The reactions made from the mappings, before duplicates are merged. *)
Definition mapped (self : Family) (reactants : list (option nat * list Molecule))
    (templ : Template) (forward : bool) : result (list TemplateReaction) :=
  match reactants, t_reactants templ with
  | [r0], [slot0] =>
      for_each
        (fun molecule =>
           for_each (fun map => attempt self [molecule] [map] forward)
                    (matchReactantToTemplate molecule slot0))
        r0.2
  | [r0; r1], [slot0; slot1] =>
      for_each
        (fun moleculeA =>
           for_each
             (fun moleculeB =>
                direct <-
                  for_each
                    (fun mapA =>
                       for_each
                         (fun mapB =>
                            attempt self [moleculeA; moleculeB] [mapA; mapB] forward)
                         (matchReactantToTemplate moleculeB slot1))
                    (matchReactantToTemplate moleculeA slot0) ;;
                swapped <-
                  (if negb (same_list r0 r1) then
                     for_each
                       (fun mapA =>
                          for_each
                            (fun mapB =>
                               attempt self [moleculeA; moleculeB] [mapA; mapB] forward)
                            (matchReactantToTemplate moleculeB slot0))
                       (matchReactantToTemplate moleculeA slot1)
                   else ret []) ;;
                ret (direct ++ swapped)%list)
             r1.2)
        r0.2
  | _, _ => ret []
  end.

(** The comparison of one or two molecules with lists of resonance
    isomers, in either pairing. *)
Definition matches (targets : list Molecule) (isomers : list (list Molecule)) : bool :=
  match targets, isomers with
  | [t0], [i0] => existsb (fun product => isIsomorphic t0 product) i0
  | [t0; t1], [i0; i1] =>
      existsb
        (fun productA =>
           existsb
             (fun productB =>
                (isIsomorphic t0 productA && isIsomorphic t1 productB)
                || (isIsomorphic t0 productB && isIsomorphic t1 productA))
             i1)
        i0
  | _, _ => false
  end.

(** The same comparison as the reverse branch writes it for the products
    given by the caller: its second operand is [reactants[1]], an item of
    the wrapped list of reactants, and evaluating [reactants[1].isIsomorphic]
    fails as soon as the first operand holds ([n_reactants] is the length of
    that list). *)
Definition matches_given_reverse (n_reactants : nat) (given : list Molecule)
    (isomers : list (list Molecule)) : result bool :=
  match given, isomers with
  | [t0], [i0] => ret (existsb (fun reactant => isIsomorphic t0 reactant) i0)
  | [t0; _], [i0; i1] =>
      if existsb
           (fun reactantA =>
              existsb (fun reactantB =>
                         isIsomorphic t0 reactantA || isIsomorphic t0 reactantB) i1)
           i0
      then raise (if (2 <=? n_reactants)%nat then AttributeError else IndexError)
      else ret false
  | _, _ => ret false
  end.

(** The side of a reaction that varies within the list: the products going
    forward, the reactants going in reverse. *)
Definition varying (forward : bool) (r : TemplateReaction) : list Molecule :=
  if forward then products r else reactants r.

(** The inner [while] loop: the reactions after [reaction0] that are kept,
    and the number of those removed as duplicates of it. *)
Fixpoint remove_duplicates (forward : bool) (isomers0 : list (list Molecule))
    (rest : list TemplateReaction) : list TemplateReaction * Z :=
  match rest with
  | [] => ([], 0)
  | reaction :: rest' =>
      let '(kept, removed) := remove_duplicates forward isomers0 rest' in
      if matches (varying forward reaction) isomers0
      then (kept, removed + 1)
      else (reaction :: kept, removed)
  end.

(** The outer [while] loop over [rxnList0]. *)
Fixpoint merge_duplicates (fuel : nat) (forward : bool) (n_reactants : nat)
    (given : option (list Molecule)) (rxnList0 : list TemplateReaction)
  : result (list TemplateReaction) :=
  match fuel, rxnList0 with
  | _, [] => ret []
  | O, _ => ret []
  | S fuel', reaction0 :: rest =>
      let isomers0 := map generateResonanceIsomers (varying forward reaction0) in
      match_ <-
        match given with
        | None => ret true
        | Some ps =>
            if forward then ret (matches ps isomers0)
            else matches_given_reverse n_reactants ps isomers0
        end ;;
      if negb match_ then merge_duplicates fuel' forward n_reactants given rest
      else
        let '(kept, removed) := remove_duplicates forward isomers0 rest in
        rxnList <- merge_duplicates fuel' forward n_reactants given kept ;;
        ret (set_degeneracy reaction0 (degeneracy reaction0 + removed) :: rxnList)
  end.

(** The loop [assert(rxn.degeneracy % 2 == 0); rxn.degeneracy /= 2]. *)
Fixpoint halve (rxnList : list TemplateReaction) : result (list TemplateReaction) :=
  match rxnList with
  | [] => ret []
  | rxn :: rest =>
      if (degeneracy rxn mod 2 =? 0) then
        rest' <- halve rest ;;
        ret (set_degeneracy rxn (degeneracy rxn / 2) :: rest')
      else raise AssertionError
  end.

(** The last loop: pairs, template and, in reverse, the degeneracy
    computed again by [calculate]. *)
Fixpoint annotate (self : Family) (forward : bool)
    (calculate : TemplateReaction -> result Z) (rxnList : list TemplateReaction)
  : result (list TemplateReaction) :=
  match rxnList with
  | [] => ret []
  | reaction :: rest =>
      ps <- getReactionPairs self reaction ;;
      let reaction := mkReaction (reactants reaction) (products reaction)
                        (degeneracy reaction) ps (template reaction)
                        (reverse reaction) in
      t <- getReactionTemplate self reaction ;;
      let reaction := mkReaction (reactants reaction) (products reaction)
                        (degeneracy reaction) ps t (reverse reaction) in
      reaction <-
        (if negb forward then
           d <- calculate reaction ;;
           ret (set_degeneracy reaction d)
         else ret reaction) ;;
      rest' <- annotate self forward calculate rest ;;
      ret (reaction :: rest')
  end.

(** The reaction list after duplicates are merged, before the halving. *)
Definition merged (self : Family) (reactants : list Reactant)
    (given : option (list Molecule)) (forward : bool) (templ : Template)
  : result (list TemplateReaction) :=
  rxnList <- mapped self (map wrap reactants) templ forward ;;
  merge_duplicates (length rxnList) forward (length reactants) given rxnList.

Definition halving_applies (self : Family) (reactants : list Reactant) : bool :=
  sameReactants (map wrap reactants)
  || Py.startswith (Py.lower (label self)) "r_recombination".

(** The body of [__generateReactions], with the call to
    [calculateDegeneracy] of its last loop as [calculate]. *)
Definition generateReactions_body (calculate : Family -> TemplateReaction -> result Z)
    (self : Family) (reactants : list Reactant) (given : option (list Molecule))
    (forward : bool) : result (list TemplateReaction) :=
  match (if forward then Some (forwardTemplate self) else reverseTemplate self) with
  | None => ret []
  | Some templ =>
      rxnList <- merged self reactants given forward templ ;;
      rxnList <- (if halving_applies self reactants then halve rxnList
                  else ret rxnList) ;;
      annotate self forward (calculate self) rxnList
  end.

(** [calculateDegeneracy]: the forward generation it runs never reaches the
    call to [calculateDegeneracy] of the last loop. *)
Definition calculateDegeneracy (self : Family) (reaction : TemplateReaction)
  : result Z :=
  reactions <-
    generateReactions_body (fun _ _ => raise AssertionError) self
      (map OneMolecule (reactants reaction)) (Some (products reaction)) true ;;
  if negb (length reactions =? 1)%nat then
    raise (Exception ("Unable to calculate degeneracy for reaction "
                      ++ reaction_str reaction ++ " in reaction family "
                      ++ label self ++ "."))
  else
    r <- Py.index reactions 0 ;;
    ret (degeneracy r).

(** [__generateReactions]. *)
Definition generateReactions_inner (self : Family) (reactants : list Reactant)
    (given : option (list Molecule)) (forward : bool)
  : result (list TemplateReaction) :=
  generateReactions_body calculateDegeneracy self reactants given forward.

(** The loop of [generateReactions] for a family that is its own reverse. *)
Fixpoint attach_reverse (self : Family) (reactionList : list TemplateReaction)
  : result (list TemplateReaction) :=
  match reactionList with
  | [] => ret []
  | rxn :: rest =>
      reactions <-
        generateReactions_inner self (map OneMolecule (products rxn))
          (Some (reactants rxn)) true ;;
      if negb (length reactions =? 1)%nat then raise AssertionError
      else
        r <- Py.index reactions 0 ;;
        rest' <- attach_reverse self rest ;;
        ret (set_reverse rxn r :: rest')
  end.

(** [generateReactions]; the [Species] it wraps each molecule in at the end
    holds that one molecule, and is left out. *)
Definition generateReactions (self : Family) (reactants : list Reactant)
  : result (list TemplateReaction) :=
  reactionList <- generateReactions_inner self reactants None true ;;
  if ownReverse self then attach_reverse self reactionList
  else
    reverseList <- generateReactions_inner self reactants None false ;;
    ret (reactionList ++ reverseList)%list.

End Generator.

(** *** A toy chemistry to run the generator on

    Molecules are numbers, isomorphic when equal, each its own only
    resonance isomer.  A molecule [m] matches the group [0] in [m mod 4]
    ways and any other group in one way.  Going forward a reaction adds ten
    to each reactant; in reverse it takes ten away, and gives the wrong
    number of products when a reactant is below ten.  Every molecule
    holds every label, and every reaction prints as [toy]. *)
Definition toy_molecules : Molecules :=
  {| Molecule := nat;
     Molecule_eq_dec := Nat.eq_dec;
     isIsomorphic := Nat.eqb;
     generateResonanceIsomers := fun m => [m];
     Group := nat;
     Mapping := nat;
     findSubgraphIsomorphisms := fun m g =>
       if (g =? 0)%nat then seq 0 (m mod 4) else [0%nat] |}.

Definition toy_engine : @Engine toy_molecules :=
  @Build_Engine toy_molecules
    (fun _ (rs : list nat) _ forward =>
       if forward then ret (Some (map (fun m => m + 10)%nat rs))
       else if forallb (fun m => 10 <=? m)%nat rs
            then ret (Some (map (fun m => m - 10)%nat rs))
            else ret None)
    (fun _ _ _ => true)
    (fun _ _ => ret [])
    (fun _ => "toy").

Definition toy_group (g : nat) : @TemplateItem toy_molecules :=
  @ItemGroup toy_molecules g.

Definition toy_isomerization : @Family toy_molecules :=
  mkFamily "Isomerization"
    (mkTemplate [toy_group 0] [toy_group 1])
    (Some (mkTemplate [toy_group 1] [toy_group 0]))
    false.

Definition toy_abstraction : @Family toy_molecules :=
  mkFamily "H_Abstraction"
    (mkTemplate [toy_group 0; toy_group 0] [toy_group 1; toy_group 1])
    None
    false.

(** A toy molecule as the caller passes it. *)
Definition toy (m : nat) : @Reactant toy_molecules := @OneMolecule toy_molecules m.

(** *** Vocabulary of the statements about the generator *)

Section Vocabulary.
Context {mo : Molecules}.

(** The products of a reaction are not its reactants again: one product is
    not isomorphic to the one reactant; two products match the two
    reactants in neither pairing. *)
Definition not_identity (r : TemplateReaction) : Prop :=
  (forall r0 p0, reactants r = [r0] -> products r = [p0] ->
     isIsomorphic p0 r0 = false)
  /\ (forall r0 r1 p0 p1, reactants r = [r0; r1] -> products r = [p0; p1] ->
        isIsomorphic p0 r0 && isIsomorphic p1 r1 = false
        /\ isIsomorphic p0 r1 && isIsomorphic p1 r0 = false).

(** A reaction whose two sides, taken in the direction it was made in, are
    not the same species. *)
Definition distinct (forward : bool) (r : TemplateReaction) : Prop :=
  same_species (if forward then reactants r else products r)
               (if forward then products r else reactants r) = false.

(** A reaction as [__generateReactions] makes it: distinct sides, and no
    reverse reaction attached. *)
Definition fresh (forward : bool) (r : TemplateReaction) : Prop :=
  distinct forward r /\ reverse r = None.


End Vocabulary.


Definition toy_reaction (rs ps : list nat) (d : Z) : @TemplateReaction toy_molecules :=
  @mkReaction toy_molecules rs ps d [] [] None.

(** Two reactants passed as the same list object. *)
Definition toy_shared (id : nat) (ms : list nat) : @Reactant toy_molecules :=
  @IsomerList toy_molecules id ms.


(** A second toy engine, whose reaction is its own reverse: it flips the
    parity of each reactant. *)
Definition flip (m : nat) : nat := if Nat.even m then S m else pred m.

Definition toy_flip_engine : @Engine toy_molecules :=
  @Build_Engine toy_molecules
    (fun _ (rs : list nat) _ _ => ret (Some (map flip rs)))
    (fun _ _ _ => true)
    (fun _ _ => ret [])
    (fun _ => "toy").

Definition toy_flip : @Family toy_molecules :=
  mkFamily "Flip" (mkTemplate [toy_group 1] [toy_group 1]) None true.


End Generation.


(** ** Loading the recipe, saving and loading the old-style template *)

Module Loading.
Import Recipe.

(** [s.upper()] on ASCII letters. *)
Definition upper_ascii (c : ascii) : ascii :=
  let n := nat_of_ascii c in
  if ((97 <=? n)%nat && (n <=? 122)%nat)%bool then ascii_of_nat (n - 32) else c.

Fixpoint upper (s : string) : string :=
  match s with
  | String c s' => String (upper_ascii c) (upper s')
  | EmptyString => EmptyString
  end.

Definition action_names : list string :=
  ["CHANGE_BOND"; "FORM_BOND"; "BREAK_BOND"; "GAIN_RADICAL"; "LOSE_RADICAL"].

(** The loop of [loadRecipe]: the name of the action is put in upper case
    in place, checked, and the action appended. *)
Fixpoint loadRecipe_loop (actions : list Action) (forwardRecipe : ReactionRecipe)
  : result ReactionRecipe :=
  match actions with
  | [] => ret forwardRecipe
  | action :: rest =>
      a0 <- Py.index action 0 ;;
      let action := <[0%nat := upper a0]> action in
      a0 <- Py.index action 0 ;;
      if Py.elem a0 action_names
      then loadRecipe_loop rest (addAction forwardRecipe action)
      else raise AssertionError
  end.

Definition loadRecipe (actions : list Action) : result ReactionRecipe :=
  loadRecipe_loop actions (mkRecipe []).

(** *** The old-style template file *)

(** What the template file stores of a [KineticsFamily]; the reactants and
    products of the forward template by their labels. *)
Record KineticsFamily : Type := mkKineticsFamily {
  reverse : string;
  forwardTemplate_reactants : list string;
  forwardTemplate_products : list string;
  forwardRecipe : ReactionRecipe;
  ownReverse : bool
}.

Definition newline_char : ascii := ascii_of_nat 10.

(** [sep.join(items)]. *)
Fixpoint join (sep : string) (items : list string) : string :=
  match items with
  | [] => ""
  | [x] => x
  | x :: rest => x ++ sep ++ join sep rest
  end.

Fixpoint spaces (n : nat) : string :=
  match n with
  | O => ""
  | S n' => String " " (spaces n')
  end.

(** [format(s, '<15')]: padded with blanks on the right, never cut. *)
Definition ljust (s : string) (width : nat) : string :=
  s ++ spaces (width - String.length s).

(** The line written for the action at position [index]. *)
Definition action_line (index : nat) (action : Action) : result string :=
  a0 <- Py.index action 0 ;;
  ret ("(" ++ Py.str (Z.of_nat index + 1) ++ ") " ++ ljust a0 15 ++ " {"
       ++ join "," (tl action) ++ "}" ++ Py.newline).

Fixpoint action_lines (index : nat) (actions : list Action)
  : result (list string) :=
  match actions with
  | [] => ret []
  | action :: rest =>
      line <- action_line index action ;;
      lines <- action_lines (S index) rest ;;
      ret (line :: lines)
  end.

Definition template_line (self : KineticsFamily) : string :=
  join " + " (forwardTemplate_reactants self) ++ " -> "
  ++ join " + " (forwardTemplate_products self) ++ Py.newline.

(** The strings [saveOldTemplate] writes, one per call of [write]. *)
Definition writes (self : KineticsFamily) : result (list string) :=
  recipe <- action_lines 0 (actions (forwardRecipe self)) ;;
  ret ([template_line self; Py.newline]
       ++ (if ownReverse self then [("thermo_consistence" ++ Py.newline)%string]
           else [("forward" ++ Py.newline)%string;
                 ("reverse: " ++ reverse self ++ Py.newline)%string])
       ++ [Py.newline; ("Actions 1" ++ Py.newline)%string]
       ++ recipe
       ++ [Py.newline])%list.

(** [saveOldTemplate]: the text of the file. *)
Definition saveOldTemplate (self : KineticsFamily) : result string :=
  w <- writes self ;;
  ret (String.concat "" w).

(** [for line in ftemp]: the lines of the text, each with its line
    break. *)
Fixpoint readlines (text : string) : list string :=
  match text with
  | EmptyString => []
  | String c rest =>
      if Ascii.eqb c newline_char then String c "" :: readlines rest
      else match readlines rest with
           | line :: lines => String c line :: lines
           | [] => [String c ""]
           end
  end.

(** The next character starts or continues a word. *)
Definition starts_word (s : string) : bool :=
  match s with
  | String c _ => negb (Py.is_space c)
  | EmptyString => false
  end.

(** [s.split()]: the runs of characters that are not white space. *)
Fixpoint split_ws (s : string) : list string :=
  match s with
  | EmptyString => []
  | String c s' =>
      if Py.is_space c then split_ws s'
      else if starts_word s' then
        match split_ws s' with
        | w :: ws => String c w :: ws
        | [] => [String c ""]
        end
      else String c "" :: split_ws s'
  end.

(** [needle in s]. *)
Fixpoint contains (needle s : string) : bool :=
  String.prefix needle s
  || match s with
     | String _ s' => contains needle s'
     | EmptyString => false
     end.

(** [s[1:-1]]. *)
Definition inner (s : string) : string :=
  String.substring 1 (String.length s - 2) s.

(** The loop over the tokens of the template line. *)
Fixpoint template_tokens (tokens : list string) (atArrow : bool)
    (reactants products : list string) : list string * list string :=
  match tokens with
  | [] => (reactants, products)
  | token :: rest =>
      if (token =? "->")%string then template_tokens rest true reactants products
      else if negb (token =? "+")%string && negb atArrow then
        template_tokens rest atArrow (reactants ++ [token])%list products
      else if negb (token =? "+")%string && atArrow then
        template_tokens rest atArrow reactants (products ++ [token])%list
      else template_tokens rest atArrow reactants products
  end.

(** The body of the loop of [loadOldTemplate] for one line. *)
Definition loadOldTemplate_line (self : KineticsFamily) (line : string)
  : result KineticsFamily :=
  let line := Py.strip line in
  if (0 <? String.length line)%nat
     && match String.get 0 line with
        | Some c => Ascii.eqb c "("
        | None => false
        end
  then
    let tokens := split_ws line in
    t1 <- Py.index tokens 1 ;;
    t2 <- Py.index tokens 2 ;;
    let action := t1 :: Py.split "," (inner t2) in
    ret (mkKineticsFamily (reverse self) (forwardTemplate_reactants self)
           (forwardTemplate_products self)
           (addAction (forwardRecipe self) action) (ownReverse self))
  else if contains "thermo_consistence" line then
    ret (mkKineticsFamily (reverse self) (forwardTemplate_reactants self)
           (forwardTemplate_products self) (forwardRecipe self) true)
  else if contains "reverse" line then
    name <- Py.index (Py.split ":" line) 1 ;;
    ret (mkKineticsFamily (Py.strip name) (forwardTemplate_reactants self)
           (forwardTemplate_products self) (forwardRecipe self) (ownReverse self))
  else if contains "->" line then
    let '(reactants, products) :=
      template_tokens (split_ws line) false (forwardTemplate_reactants self)
        (forwardTemplate_products self) in
    ret (mkKineticsFamily (reverse self) reactants products (forwardRecipe self)
           (ownReverse self))
  else ret self.

Fixpoint loadOldTemplate_loop (self : KineticsFamily) (lines : list string)
  : result KineticsFamily :=
  match lines with
  | [] => ret self
  | line :: rest =>
      self <- loadOldTemplate_line self line ;;
      loadOldTemplate_loop self rest
  end.

(** [loadOldTemplate] on the text of the file: the template and the recipe
    start empty, [ownReverse] false, and [reverse] is kept until a line
    gives it. *)
Definition loadOldTemplate (self : KineticsFamily) (text : string)
  : result KineticsFamily :=
  loadOldTemplate_loop
    (mkKineticsFamily (reverse self) [] [] (mkRecipe []) false)
    (readlines text).

(** *** Vocabulary of the statements about the template file *)

(** An action [loadRecipe] accepts, and the action it stores for it. *)
Definition accepted (a : Action) : bool :=
  match a with
  | name :: _ => Py.elem (upper name) action_names
  | [] => false
  end.

Definition upper_name (a : Action) : Action :=
  match a with
  | name :: params => upper name :: params
  | [] => []
  end.


Fixpoint all_chars (P : ascii -> bool) (s : string) : bool :=
  match s with
  | String c s' => P c && all_chars P s'
  | EmptyString => true
  end.

Definition no_space (s : string) : bool :=
  all_chars (fun c => negb (Py.is_space c)) s.

Definition no_char (c : ascii) (s : string) : bool :=
  all_chars (fun d => negb (Ascii.eqb d c)) s.

(** A label that comes back as one token of the template line. *)
Definition token (s : string) : bool :=
  negb (s =? "")%string && no_space s
  && negb (s =? "+")%string && negb (s =? "->")%string.

(** An action that comes back from its line: a name and at least one
    parameter, none with white space, the parameters without commas. *)
Definition storable (a : Action) : bool :=
  match a with
  | name :: param :: params =>
      negb (name =? "")%string && no_space name
      && forallb (fun p => no_space p && no_char "," p) (param :: params)
  | _ => false
  end.

(** A family the template file stores without loss. *)
Definition storable_family (self : KineticsFamily) : bool :=
  forallb token (forwardTemplate_reactants self)
  && forallb token (forwardTemplate_products self)
  && forallb (fun l => negb (String.prefix "(" l)) (forwardTemplate_reactants self)
  && negb (contains "thermo_consistence" (template_line self))
  && negb (contains "reverse" (template_line self))
  && (ownReverse self
      || (no_space (reverse self) && no_char ":" (reverse self)
          && negb (contains "thermo_consistence" (reverse self))))
  && forallb storable (actions (forwardRecipe self)).

(** A family to run the functions on. *)
Definition sample_family : KineticsFamily :=
  mkKineticsFamily "Y_rad_addition" ["X_H"; "Y_rad"] ["X_rad"; "Y_H"]
    h_abstraction false.

End Loading.


(** ** The label fix-ups of [applyRecipe] *)

Module Labels.
Import Recipe.

Definition set_label (atom : Atom) (l : string) : Atom :=
  mkAtom l (radicalElectrons atom).

(** The loop over the atoms of the merged reactants of a radical
    recombination: each atom labeled [*] gets the label [*] followed by
    the count so far. *)
Fixpoint number_identical (ats : list Atom) (identicalCenterCounter : Z)
  : list Atom * Z :=
  match ats with
  | [] => ([], identicalCenterCounter)
  | atom :: rest =>
      if (label atom =? "*")%string then
        let identicalCenterCounter := identicalCenterCounter + 1 in
        let '(rest', n) := number_identical rest identicalCenterCounter in
        (set_label atom ("*" ++ Py.str identicalCenterCounter) :: rest', n)
      else
        let '(rest', n) := number_identical rest identicalCenterCounter in
        (atom :: rest', n)
  end.

(** The hardcoded step of the forward direction of [r_recombination]. *)
Definition label_identical_centers (family : string) (reactantStructure : Graph)
  : result Graph :=
  let '(ats, identicalCenterCounter) :=
    number_identical (atoms reactantStructure) 0 in
  if negb (identicalCenterCounter =? 2) then
    raise (Exception ("Unable to change labels from " ++ dquote ++ "*" ++ dquote
                      ++ " to " ++ dquote ++ "*1" ++ dquote ++ " and " ++ dquote
                      ++ "*2" ++ dquote ++ " for reaction family " ++ family
                      ++ "."))
  else ret (mkGraph ats (bonds reactantStructure)).

(** The hardcoded step of the reverse direction of [r_recombination]. *)
Definition unlabel_identical_centers (productStructure : Graph) : Graph :=
  mkGraph
    (map (fun atom =>
            if (label atom =? "*1")%string || (label atom =? "*2")%string
            then set_label atom "*" else atom)
         (atoms productStructure))
    (bonds productStructure).

(** The dictionary [atomLabels]: for each label that is not empty, the
    last atom that carries it. *)
Fixpoint atomLabels_from (i : nat) (ats : list Atom) (atomLabels : gmap string nat)
  : gmap string nat :=
  match ats with
  | [] => atomLabels
  | atom :: rest =>
      atomLabels_from (S i) rest
        (if (label atom =? "")%string then atomLabels
         else <[label atom := i]> atomLabels)
  end.

Definition atomLabels (struct : Graph) : gmap string nat :=
  atomLabels_from 0 (atoms struct) ∅.

(** [atomLabels[key].label = l]; a key that is absent is a [KeyError],
    given as the [inl] of the key. *)
Definition relabel (atomLabels : gmap string nat) (key l : string) (struct : Graph)
  : string + Graph :=
  match atomLabels !! key with
  | None => inl key
  | Some i =>
      inr (mkGraph (alter (fun atom => set_label atom l) i (atoms struct))
             (bonds struct))
  end.

(** The loop [for i in range(4, highest+1)] of the intramolecular hydrogen
    migration, [n] steps from [i]. *)
Fixpoint reverse_chain (atomLabels : gmap string nat) (highest : Z) (n : nat)
    (i : Z) (struct : Graph) : string + Graph :=
  match n with
  | O => inr struct
  | S n' =>
      match relabel atomLabels ("*" ++ Py.str i) ("*" ++ Py.str (4 + highest - i))
              struct with
      | inl key => inl key
      | inr struct' => reverse_chain atomLabels highest n' (i + 1) struct'
      end
  end.

(** The relabeling of the products of a family that is its own reverse. *)
Definition relabel_own_reverse (family : string) (productStructure : Graph)
  : string + Graph :=
  let atomLabels := atomLabels productStructure in
  let label := Py.lower family in
  if (label =? "h_abstraction")%string then
    match relabel atomLabels "*1" "*3" productStructure with
    | inl key => inl key
    | inr struct => relabel atomLabels "*3" "*1" struct
    end
  else if (label =? "intra_h_migration")%string then
    match relabel atomLabels "*1" "*2" productStructure with
    | inl key => inl key
    | inr struct =>
        match relabel atomLabels "*2" "*1" struct with
        | inl key => inl key
        | inr struct =>
            let highest := Z.of_nat (size atomLabels) in
            if 4 <? highest
            then reverse_chain atomLabels highest (Z.to_nat (highest + 1 - 4)) 4
                   struct
            else inr struct
        end
    end
  else inr productStructure.

(** The two products ordered: the one holding [*1] first. *)
Definition place_labeled_first {X} (containsLabeledAtom : X -> string -> bool)
    (productStructures : list X) : list X :=
  match productStructures with
  | [p0; p1] =>
      if negb (containsLabeledAtom p0 "*1") && containsLabeledAtom p1 "*1"
      then rev productStructures
      else productStructures
  | _ => productStructures
  end.

(** *** Vocabulary *)

(** The number of atoms with a given label. *)
Definition count_label (l : string) (ats : list Atom) : nat :=
  length (filter (fun atom => bool_decide (label atom = l)) ats).

(** A sample: two radicals to recombine. *)
Definition two_radicals : Graph :=
  mkGraph [mkAtom "*" 1; mkAtom "" 0; mkAtom "*" 1] ∅.

(** The relabelings of a list of pairs (key, new label), one after the
    other, all from one dictionary. *)
Fixpoint relabel_all (atomLabels : gmap string nat) (ops : list (string * string))
    (struct : Graph) : string + Graph :=
  match ops with
  | [] => inr struct
  | op :: rest =>
      match relabel atomLabels op.1 op.2 struct with
      | inl key => inl key
      | inr struct' => relabel_all atomLabels rest struct'
      end
  end.

(** The label [*i], the number the hydrogen migration gives in exchange
    for [i], and the numbers it goes through. *)
Definition star (i : Z) : string := "*" ++ Py.str i.

Definition mirror (highest i : Z) : Z :=
  if i =? 1 then 2 else if i =? 2 then 1 else 4 + highest - i.

Definition migration_indices (highest : Z) : list Z :=
  1 :: 2 :: (if 4 <? highest
             then map (fun k => 4 + Z.of_nat k) (seq 0 (Z.to_nat (highest + 1 - 4)))
             else []).

Definition migration_ops (highest : Z) : list (string * string) :=
  map (fun i => (star i, star (mirror highest i))) (migration_indices highest).

(** An atom after the relabelings of [ops], when its label is the key of
    one of them. *)
Definition renamed (ops : list (string * string)) (a : Atom) : Atom :=
  match List.find (fun op => (op.1 =? label a)%string) ops with
  | Some op => set_label a op.2
  | None => a
  end.

(** No label is on two atoms. *)
Definition unique_labels (ats : list Atom) : Prop :=
  forall (i j : nat) a b,
    ats !! i = Some a -> ats !! j = Some b ->
    label a = label b -> label a <> "" -> i = j.

(** A chain [*1 - *4 - *5 - *2] with the migrating hydrogen [*3] on
    [*1]. *)
Definition migration_chain : Graph :=
  mkGraph [mkAtom "*1" 0; mkAtom "*4" 0; mkAtom "*5" 0; mkAtom "*2" 1;
           mkAtom "*3" 0; mkAtom "" 0]
          {[ (0%nat, 1%nat) := 1; (1%nat, 2%nat) := 1; (2%nat, 3%nat) := 1;
             (0%nat, 4%nat) := 1; (2%nat, 5%nat) := 1 ]}.

End Labels.


(** ** The product template *)

Module ProductTemplate.
Import Generation.

Section Unique.
Context {mo : Molecules}.

(** The [for ... else] over one list of [productStructureList]: the
    structure is appended unless one of the list is isomorphic to it. *)
Definition append_unless_isomorphic (slot : list Molecule) (struct : Molecule)
  : list Molecule :=
  if existsb (fun s => isIsomorphic s struct) slot then slot
  else (slot ++ [struct])%list.

(** [for i, struct in enumerate(productStructure)], from position [i]. *)
Fixpoint sort_into_slots (i : nat) (productStructure : list Molecule)
    (productStructureList : list (list Molecule))
  : result (list (list Molecule)) :=
  match productStructure with
  | [] => ret productStructureList
  | struct :: rest =>
      slot <- Py.index productStructureList i ;;
      sort_into_slots (S i) rest
        (<[i := append_unless_isomorphic slot struct]> productStructureList)
  end.

Fixpoint unique_loop (productStructures : list (list Molecule))
    (productStructureList : list (list Molecule))
  : result (list (list Molecule)) :=
  match productStructures with
  | [] => ret productStructureList
  | productStructure :: rest =>
      l <- sort_into_slots 0 productStructure productStructureList ;;
      unique_loop rest l
  end.

(** The fourth step of [generateProductTemplate]: the product structures
    of all combinations, sorted by position with duplicates left out.  The
    combinations are those for which [applyRecipe] gave products. *)
Definition unique_product_structures (productStructures : list (list Molecule))
  : result (list (list Molecule)) :=
  first <- Py.index productStructures 0 ;;
  unique_loop productStructures (replicate (length first) []).

End Unique.

End ProductTemplate.


(** * Properties *)

(** ** Python built-ins *)

Module PyFacts.
Import Py.

Lemma lstrip_plain s : all_plain s = true -> lstrip s = s.
Proof.
  destruct s as [|c s]; simpl; [done|].
  unfold plain. intros H. destruct (is_space c); [done|reflexivity].
Qed.

Lemma rstrip_plain s : all_plain s = true -> rstrip s = s.
Proof.
  induction s as [|c s IH]; simpl; [done|].
  unfold plain. intros H.
  apply andb_prop in H as [Hc Hs]. apply andb_prop in Hc as [Hc _].
  rewrite (IH Hs). destruct s; [|reflexivity].
  destruct (is_space c); [discriminate|reflexivity].
Qed.

Lemma strip_plain s : all_plain s = true -> strip s = s.
Proof.
  intros H. unfold strip. rewrite (lstrip_plain _ H). by apply rstrip_plain.
Qed.

Lemma string_of_uint_plain d : all_plain (NilEmpty.string_of_uint d) = true.
Proof. induction d; simpl; auto. Qed.

Lemma nz_string_of_uint_plain d : all_plain (NilZero.string_of_uint d) = true.
Proof.
  destruct d; try reflexivity;
    apply (string_of_uint_plain (_ _)).
Qed.

Lemma str_plain z : all_plain (str z) = true.
Proof.
  unfold str. destruct (Z.to_int z) as [d|d]; simpl.
  - apply nz_string_of_uint_plain.
  - apply nz_string_of_uint_plain.
Qed.

(** [int(str(z)) == z]. *)
Lemma int_opt_str z : int_opt (str z) = Some z.
Proof.
  unfold int_opt. rewrite (strip_plain _ (str_plain z)).
  pose proof (str_plain z) as Hp.
  assert (Hi : NilZero.int_of_string (str z) = Some (Z.to_int z)).
  { unfold str. apply NilZero.isi.
    - destruct z; simpl; try discriminate.
      intros [= E]. by apply Unsigned.to_uint_nonnil in E.
    - destruct z; simpl; try discriminate.
      intros [= E]. by apply Unsigned.to_uint_nonnil in E. }
  destruct (str z) as [|c r] eqn:E.
  - simpl in Hi. discriminate.
  - assert (c <> "+"%char) as Hc.
    { simpl in Hp. unfold plain in Hp. intros ->.
      rewrite andb_false_r in Hp. discriminate. }
    assert (match String c r with
            | String "+" r0 => option_map Z.of_uint (NilZero.uint_of_string r0)
            | t => option_map Z.of_int (NilZero.int_of_string t)
            end = option_map Z.of_int (NilZero.int_of_string (String c r))) as ->.
    { destruct c as [[] [] [] [] [] [] [] []]; try reflexivity. congruence. }
    rewrite Hi. simpl. by rewrite DecimalZ.of_to.
Qed.

Lemma int_str z : int (str z) = ret z.
Proof. unfold int. by rewrite int_opt_str. Qed.

End PyFacts.

(** ** Reverse recipes *)

Module RecipeFacts.
Import Recipe.

Lemma canonical_inv s :
  canonical s = true -> exists z, Py.int_opt s = Some z /\ Py.str z = s.
Proof.
  unfold canonical. destruct (Py.int_opt s) as [z|]; [|discriminate].
  intros H. exists z. split; [reflexivity|]. by apply String.eqb_eq.
Qed.

Lemma canonical_str z : canonical (Py.str z) = true.
Proof. unfold canonical. rewrite PyFacts.int_opt_str. apply String.eqb_refl. Qed.

Ltac name_cases H :=
  repeat match type of H with
         | context [(?n =? ?c)%string] =>
             destruct (String.eqb_spec n c); subst; simpl in H
         end.

Lemma reverseAction_documented a :
  documented a = true ->
  exists a', reverseAction a = ret (Some a') /\ reversed a a'
             /\ documented a' = true /\ reverseAction a' = ret (Some a).
Proof.
  destruct a as [|name [|x [|y [|w [|? ?]]]]]; simpl; try discriminate.
  - intros H. name_cases H; try discriminate.
    + exists ["LOSE_RADICAL"; x; y]. repeat split; constructor.
    + exists ["GAIN_RADICAL"; x; y]. repeat split; constructor.
  - intros H. name_cases H; try discriminate.
    + rewrite andb_true_r in H || idtac.
      assert (canonical y = true) as Hc by (destruct (canonical y); done).
      apply canonical_inv in Hc as (z & Hz & Hs).
      exists ["CHANGE_BOND"; x; Py.str (- z); w].
      split; [|split; [|split]].
      * unfold reverseAction; simpl. unfold Py.int. by rewrite Hz.
      * by constructor.
      * simpl. by rewrite canonical_str.
      * unfold reverseAction; simpl. rewrite PyFacts.int_str. simpl.
        by rewrite Z.opp_involutive, Hs.
    + exists ["BREAK_BOND"; x; y; w]. repeat split; constructor.
    + exists ["FORM_BOND"; x; y; w]. repeat split; constructor.
Qed.

Lemma getReverse_loop_documented acts :
  forallb documented acts = true ->
  exists acts',
    Forall2 reversed acts acts' /\ forallb documented acts' = true
    /\ (forall other, getReverse_loop acts other
                      = ret (mkRecipe (actions other ++ acts')))
    /\ (forall other, getReverse_loop acts' other
                      = ret (mkRecipe (actions other ++ acts))).
Proof.
  induction acts as [|a acts IH]; simpl.
  - intros _. exists []. repeat split; try constructor;
      intros [o]; simpl; by rewrite app_nil_r.
  - intros H. apply andb_prop in H as [Ha Hs].
    destruct (reverseAction_documented a Ha) as (a' & R1 & Rv & D' & R2).
    destruct (IH Hs) as (acts' & F & Ds & L1 & L2).
    exists (a' :: acts'). split; [by constructor|]. split.
    { simpl. by rewrite D', Ds. }
    split; intros other; simpl.
    + rewrite R1. simpl. rewrite L1. simpl. by rewrite <- app_assoc.
    + rewrite R2. simpl. rewrite L2. simpl. by rewrite <- app_assoc.
Qed.

(** C8, as amended.  For a recipe whose actions all have a documented shape
    (one of the five names with exactly its parameters, the order of a
    CHANGE_BOND written as [str] prints an integer), [getReverse] returns a
    recipe that negates the order of each CHANGE_BOND, swaps FORM_BOND with
    BREAK_BOND and GAIN_RADICAL with LOSE_RADICAL, and reversing that recipe
    again gives back the original, action for action. *)
Theorem getReverse_involutive (r : ReactionRecipe) :
  forallb documented (actions r) = true ->
  exists r',
    getReverse r = ret r'
    /\ Forall2 reversed (actions r) (actions r')
    /\ getReverse r' = ret r.
Proof.
  intros H. destruct (getReverse_loop_documented _ H) as (acts' & F & _ & L1 & L2).
  exists (mkRecipe acts'). unfold getReverse. rewrite L1, L2. simpl.
  repeat split; [done|]. by destruct r.
Qed.

Lemma getReverse_involutive_witness :
  let r := mkRecipe [["BREAK_BOND"; "*1"; "S"; "*2"];
                     ["CHANGE_BOND"; "*2"; "-1"; "*3"];
                     ["GAIN_RADICAL"; "*1"; "1"]] in
  forallb documented (actions r) = true
  /\ exists r', getReverse r = ret r'
       /\ Forall2 reversed (actions r) (actions r')
       /\ getReverse r' = ret r.
Proof.
  split; [reflexivity|]. apply getReverse_involutive. reflexivity.
Defined.

(** C8 as stated fails: an order written ["+1"] is accepted by [int], and
    comes back from two reversals as ["1"]. *)
Lemma getReverse_not_involutive :
  ~ (forall r r' r'' : ReactionRecipe,
        getReverse r = ret r' -> getReverse r' = ret r'' -> r'' = r).
Proof.
  intros H.
  specialize (H (mkRecipe [["CHANGE_BOND"; "*1"; "+1"; "*2"]])
                (mkRecipe [["CHANGE_BOND"; "*1"; "-1"; "*2"]])
                (mkRecipe [["CHANGE_BOND"; "*1"; "1"; "*2"]])
                eq_refl eq_refl).
  discriminate H.
Qed.

(** An action with an unknown name is dropped, so the double reverse is
    shorter than the recipe. *)
Example getReverse_drops_unknown :
  getReverse (mkRecipe [["MOVE_BOND"; "*1"; "S"; "*2"]]) = ret (mkRecipe []).
Proof. reflexivity. Qed.

(** A parameter beyond the documented ones is dropped too, and an action
    that is too short makes [getReverse] raise. *)
Example getReverse_drops_extra :
  getReverse (mkRecipe [["FORM_BOND"; "*1"; "S"; "*2"; "extra"]])
  = ret (mkRecipe [["BREAK_BOND"; "*1"; "S"; "*2"]]).
Proof. reflexivity. Qed.

Example getReverse_short_action :
  getReverse (mkRecipe [["GAIN_RADICAL"; "*1"]]) = raise IndexError.
Proof. reflexivity. Qed.


(** *** Which actions raise [InvalidActionError] *)

Section ApplyErrors.
Context {chem : Chemistry}.

Local Arguments mem : simpl never.




Lemma radical_loop_not_invalid gain n struct i msg :
  radical_loop gain n struct i <> raise (InvalidActionError msg).
Proof.
  revert struct. induction n as [|n IH]; intros struct; simpl; [discriminate|].
  unfold stepRadical. destruct (atoms struct !! i); [|discriminate].
  destruct (radical_ok _); [apply IH|discriminate].
Qed.






End ApplyErrors.

(** *** Labels *)

Lemma find_label_Some l ats n i :
  find_label l ats n = Some i ->
  (n <= i)%nat /\ exists a, ats !! (i - n)%nat = Some a /\ label a = l.
Proof.
  revert n. induction ats as [|a ats IH]; intros n; simpl; [discriminate|].
  destruct (String.eqb_spec (label a) l) as [E|_].
  - intros [= <-]. split; [lia|]. exists a. by rewrite Nat.sub_diag.
  - intros H. apply IH in H as (Hle & b & Hb & El). split; [lia|].
    exists b. split; [|done].
    replace (i - n)%nat with (S (i - S n)) by lia. done.
Qed.

Lemma getLabeledAtom_lookup struct l i :
  getLabeledAtom struct l = Some i ->
  exists a, atoms struct !! i = Some a /\ label a = l.
Proof.
  intros H. apply find_label_Some in H as (_ & a & Ha & El).
  rewrite Nat.sub_0_r in Ha. eauto.
Qed.

Lemma getLabeledAtom_inj struct l m i :
  getLabeledAtom struct l = Some i -> getLabeledAtom struct m = Some i -> l = m.
Proof.
  intros H1 H2.
  apply getLabeledAtom_lookup in H1 as (a & Ha & <-).
  apply getLabeledAtom_lookup in H2 as (b & Hb & <-). congruence.
Qed.

Lemma find_label_ext l ats ats' n :
  label <$> ats = label <$> ats' -> find_label l ats n = find_label l ats' n.
Proof.
  revert ats' n. induction ats as [|a ats IH]; intros [|b ats'] n; simpl;
    try done.
  intros [= E1 E2]. rewrite E1. destruct (label b =? l)%string; [done|].
  by apply IH.
Qed.

Lemma getLabeledAtom_ext s1 s2 l :
  same_labels s1 s2 -> getLabeledAtom s1 l = getLabeledAtom s2 l.
Proof. intros H. by apply find_label_ext. Qed.

Lemma key_inv i j i' j' :
  key i j = key i' j' -> (i = i' /\ j = j') \/ (i = j' /\ j = i').
Proof. unfold key. intros [= H1 H2]. lia. Qed.

(** *** Actions as updates of one cell of the graph *)

Section Cells.
Context {chem : Chemistry}.

Local Arguments mem : simpl never.

Lemma radical_loop_exec gain n struct i a :
  atoms struct !! i = Some a ->
  radical_loop gain n struct i
  = exec (ORad i (radIter (if gain then 1 else -1) n)) struct.
Proof.
  revert struct a. induction n as [|n IH]; intros struct a Ha; simpl; rewrite Ha.
  - simpl. destruct struct as [ats bs], a as [l r]; simpl in *.
    by rewrite list_insert_id.
  - unfold stepRadical. rewrite Ha.
    destruct (radical_ok _); [|done]. simpl.
    erewrite IH; last first.
    { simpl. apply list_lookup_insert_eq. by apply lookup_lt_Some in Ha. }
    simpl. rewrite list_lookup_insert_eq by (by apply lookup_lt_Some in Ha).
    simpl. destruct (radIter _ n _); simpl; [done|].
    by rewrite list_insert_insert_eq.
Qed.

Lemma applyAction_exec doForward action struct :
  applyAction doForward action struct = exec (compile doForward action struct) struct.
Proof.
  unfold applyAction, compile. destruct action as [|a0 params]; [done|].
  cbn [Py.index nth_error bind ret tl].
  destruct (mem a0 bond_names).
  { destruct params as [|l1 [|info [|l2 [|? ?]]]]; try done.
    destruct (getLabeledAtom struct l1) as [i|]; [|done].
    destruct (getLabeledAtom struct l2) as [j|]; [|done].
    destruct (i =? j)%nat; [done|].
    destruct (a0 =? "CHANGE_BOND")%string.
    { unfold Py.int. destruct (Py.int_opt info); [|done]. simpl.
      unfold getBond, changeBond, f_change.
      destruct (bonds struct !! key i j); [|done]. simpl.
      by destruct (order_ok _). }
    destruct (_ || _); [done|].
    destruct (_ || _); [|by destruct struct].
    simpl. unfold hasBond, f_remove.
    destruct (bonds struct !! key i j) eqn:E; simpl.
    - done.
    - done. }
  destruct (mem a0 radical_names); [|done].
  destruct params as [|lbl [|change [|? ?]]]; try done.
  unfold Py.int. destruct (Py.int_opt change) as [z|]; [|done]. simpl.
  destruct (getLabeledAtom struct lbl) as [i|] eqn:E; [|done].
  apply getLabeledAtom_lookup in E as (a & Ha & _).
  destruct (_ || _); [by apply radical_loop_exec with a|].
  destruct (_ || _); [by apply radical_loop_exec with a|].
  by destruct struct.
Qed.

Lemma compile_ext doForward action s1 s2 :
  same_labels s1 s2 -> compile doForward action s1 = compile doForward action s2.
Proof.
  intros H. unfold compile. destruct action as [|a0 params]; [done|].
  destruct (mem a0 bond_names).
  - destruct params as [|l1 [|info [|l2 [|? ?]]]]; try done.
    by rewrite !(getLabeledAtom_ext _ _ _ H).
  - destruct (mem a0 radical_names); [|done].
    destruct params as [|lbl [|change [|? ?]]]; try done.
    by rewrite !(getLabeledAtom_ext _ _ _ H).
Qed.

Lemma exec_same_labels o s s' : exec o s = ret s' -> same_labels s' s.
Proof.
  unfold same_labels. destruct o as [k f|i f|e|]; simpl.
  - destruct (f _); simpl; [done|]. by intros [= <-].
  - destruct (atoms s !! i) as [a|] eqn:Ha; [|done].
    destruct (f _); simpl; [done|]. intros [= <-]. simpl.
    rewrite list_fmap_insert. simpl. apply list_insert_id.
    by rewrite list_lookup_fmap, Ha.
  - done.
  - by intros [= <-].
Qed.

(** Updates of different cells commute, failures included. *)
Lemma exec_diamond o1 o2 s s1 s2 :
  separate o1 o2 -> exec o1 s = ret s1 -> exec o2 s = ret s2 ->
  exists s3, exec o2 s1 = ret s3 /\ exec o1 s2 = ret s3.
Proof.
  destruct s as [ats bs].
  destruct o1 as [k1 f1|i1 f1|e1|], o2 as [k2 f2|i2 f2|e2|]; simpl;
    intros Hsep H1 H2; try discriminate.
  - destruct (f1 (bs !! k1)) as [|v1] eqn:E1; [done|].
    destruct (f2 (bs !! k2)) as [|v2] eqn:E2; [done|].
    simpl in *. injection H1 as <-. injection H2 as <-. simpl.
    rewrite lookup_partial_alter_ne by done.
    rewrite lookup_partial_alter_ne by done. rewrite E1, E2. simpl.
    eexists. split; [reflexivity|].
    by rewrite partial_alter_partial_alter_ne.
  - destruct (f1 (bs !! k1)) as [|v1] eqn:E1; [done|].
    destruct (ats !! i2) as [a2|] eqn:A2; [|done].
    destruct (f2 _) as [|r2] eqn:E2; [done|].
    simpl in *. injection H1 as <-. injection H2 as <-. simpl.
    rewrite A2, E1, E2. simpl. eauto.
  - destruct (f1 (bs !! k1)) as [|v1] eqn:E1; [done|].
    simpl in *. injection H1 as <-. injection H2 as <-. simpl.
    rewrite E1. simpl. eauto.
  - destruct (ats !! i1) as [a1|] eqn:A1; [|done].
    destruct (f1 _) as [|r1] eqn:E1; [done|].
    destruct (f2 (bs !! k2)) as [|v2] eqn:E2; [done|].
    simpl in *. injection H1 as <-. injection H2 as <-. simpl.
    rewrite A1, E1, E2. simpl. eauto.
  - destruct (ats !! i1) as [a1|] eqn:A1; [|done].
    destruct (f1 _) as [|r1] eqn:E1; [done|].
    destruct (ats !! i2) as [a2|] eqn:A2; [|done].
    destruct (f2 _) as [|r2] eqn:E2; [done|].
    simpl in *. injection H1 as <-. injection H2 as <-. simpl.
    rewrite list_lookup_insert_ne by done.
    rewrite list_lookup_insert_ne by done.
    rewrite A1, A2, E1, E2. simpl.
    eexists. split; [reflexivity|].
    by rewrite list_insert_insert_ne.
  - destruct (ats !! i1) as [a1|] eqn:A1; [|done].
    destruct (f1 _) as [|r1] eqn:E1; [done|].
    simpl in *. injection H1 as <-. injection H2 as <-. simpl.
    rewrite A1, E1. simpl. eauto.
  - destruct (f2 (bs !! k2)) as [|v2] eqn:E2; [done|].
    simpl in *. injection H1 as <-. injection H2 as <-. simpl.
    rewrite E2. simpl. eauto.
  - destruct (ats !! i2) as [a2|] eqn:A2; [|done].
    destruct (f2 _) as [|r2] eqn:E2; [done|].
    simpl in *. injection H1 as <-. injection H2 as <-. simpl.
    rewrite A2, E2. simpl. eauto.
  - injection H1 as <-. injection H2 as <-. eauto.
Qed.

Lemma compile_OBond doForward action struct k f :
  compile doForward action struct = OBond k f ->
  exists a0 l1 info l2 i j,
    action = [a0; l1; info; l2]
    /\ getLabeledAtom struct l1 = Some i /\ getLabeledAtom struct l2 = Some j
    /\ k = key i j.
Proof.
  unfold compile. destruct action as [|a0 params]; [done|].
  destruct (mem a0 bond_names).
  - destruct params as [|l1 [|info [|l2 [|? ?]]]]; try done.
    destruct (getLabeledAtom struct l1) as [i|] eqn:Hi; [|done].
    destruct (getLabeledAtom struct l2) as [j|] eqn:Hj; [|done].
    intros H. exists a0, l1, info, l2, i, j. repeat split; try done.
    destruct (i =? j)%nat; [done|].
    destruct (a0 =? "CHANGE_BOND")%string.
    { destruct (Py.int_opt info); [|done]. congruence. }
    destruct (_ || _); [congruence|].
    destruct (_ || _); [congruence|done].
  - destruct (mem a0 radical_names); [|done].
    destruct params as [|lbl [|change [|? ?]]]; try done.
    destruct (Py.int_opt change); [|done].
    destruct (getLabeledAtom struct lbl); [|done].
    destruct (_ || _); [done|]. destruct (_ || _); done.
Qed.

Lemma compile_ORad doForward action struct i f :
  compile doForward action struct = ORad i f ->
  exists a0 l c, action = [a0; l; c] /\ getLabeledAtom struct l = Some i.
Proof.
  unfold compile. destruct action as [|a0 params]; [done|].
  destruct (mem a0 bond_names).
  - destruct params as [|l1 [|info [|l2 [|? ?]]]]; try done.
    destruct (getLabeledAtom struct l1) as [i'|]; [|done].
    destruct (getLabeledAtom struct l2) as [j|]; [|done].
    destruct (i' =? j)%nat; [done|].
    destruct (a0 =? "CHANGE_BOND")%string.
    { by destruct (Py.int_opt info). }
    destruct (_ || _); [done|]. destruct (_ || _); done.
  - destruct (mem a0 radical_names); [|done].
    destruct params as [|lbl [|change [|? ?]]]; try done.
    destruct (Py.int_opt change); [|done].
    destruct (getLabeledAtom struct lbl) as [i'|] eqn:E; [|done].
    intros H. exists a0, lbl, change. split; [done|].
    destruct (_ || _); [congruence|].
    destruct (_ || _); [congruence|done].
Qed.

Lemma conflict_separate d1 d2 a b struct :
  conflict a b = false ->
  separate (compile d1 a struct) (compile d2 b struct).
Proof.
  intros Hc.
  destruct (compile d1 a struct) as [k1 f1|i1 f1|e1|] eqn:E1;
    destruct (compile d2 b struct) as [k2 f2|i2 f2|e2|] eqn:E2; simpl; try done.
  - apply compile_OBond in E1 as (a0 & l1 & x & l2 & i & j & -> & Hi & Hj & ->).
    apply compile_OBond in E2 as (b0 & m1 & y & m2 & i' & j' & -> & Hi' & Hj' & ->).
    intros Hk. apply key_inv in Hk as [[-> ->] | [-> ->]].
    + rewrite (getLabeledAtom_inj _ _ _ _ Hi Hi'),
        (getLabeledAtom_inj _ _ _ _ Hj Hj') in Hc.
      unfold conflict in Hc. simpl in Hc. by rewrite !String.eqb_refl in Hc.
    + rewrite (getLabeledAtom_inj _ _ _ _ Hi Hj'),
        (getLabeledAtom_inj _ _ _ _ Hj Hi') in Hc.
      unfold conflict in Hc. simpl in Hc. rewrite !String.eqb_refl in Hc. simpl in Hc.
      by rewrite orb_true_r in Hc.
  - apply compile_ORad in E1 as (a0 & l & c & -> & Hl).
    apply compile_ORad in E2 as (b0 & m & c' & -> & Hm).
    intros ->. rewrite (getLabeledAtom_inj _ _ _ _ Hl Hm) in Hc.
    unfold conflict in Hc. simpl in Hc. by rewrite String.eqb_refl in Hc.
Qed.

(** Two actions that do not conflict commute. *)
Lemma applyAction_diamond d1 d2 a b s s1 s2 :
  conflict a b = false ->
  applyAction d1 a s = ret s1 -> applyAction d2 b s = ret s2 ->
  exists s3, applyAction d2 b s1 = ret s3 /\ applyAction d1 a s2 = ret s3.
Proof.
  intros Hc. rewrite !applyAction_exec. intros H1 H2.
  pose proof (exec_same_labels _ _ _ H1) as L1.
  pose proof (exec_same_labels _ _ _ H2) as L2.
  rewrite (compile_ext d2 b s1 s L1), (compile_ext d1 a s2 s L2).
  eapply exec_diamond; eauto. by apply conflict_separate.
Qed.

Lemma apply_loop_commute d a rest s1 s s' :
  forallb (fun b => negb (conflict a b)) rest = true ->
  applyAction d a s1 = ret s -> apply_loop true rest s1 = ret s' ->
  exists s'', apply_loop true rest s = ret s'' /\ applyAction d a s' = ret s''.
Proof.
  revert s1 s. induction rest as [|b rest IH]; intros s1 s; simpl.
  - intros _ Ha [= <-]. eauto.
  - intros Hc Ha. apply andb_prop in Hc as [Hb Hc].
    apply negb_true_iff in Hb.
    destruct (applyAction true b s1) as [|s2] eqn:Eb; [done|]. simpl.
    intros Hrest.
    destruct (applyAction_diamond _ _ _ _ _ _ _ Hb Ha Eb) as (s3 & Hb3 & Ha3).
    rewrite Hb3. simpl. by apply IH with s2.
Qed.

(** *** Undoing one action *)

Lemma radIter_snoc d n r :
  radIter d (S n) r
  = bind (radIter d n r)
      (fun x => if radical_ok (x + d) then ret (x + d) else raise ActionError).
Proof.
  revert r. induction n as [|n IH]; intros r.
  - simpl. by destruct (radical_ok _).
  - change (radIter d (S (S n)) r)
      with (if radical_ok (r + d) then radIter d (S n) (r + d)
            else raise ActionError).
    rewrite IH. simpl. by destruct (radical_ok _).
Qed.

Lemma radIter_inverse d n r r' :
  radical_ok r = true -> radIter d n r = ret r' -> radIter (- d) n r' = ret r.
Proof.
  revert r. induction n as [|n IH]; intros r Hok.
  - simpl. by intros [= <-].
  - intros H. rewrite radIter_snoc. simpl in H.
    destruct (radical_ok (r + d)) eqn:Hok'; [|done].
    rewrite (IH _ Hok' H). simpl.
    replace (r + d + - d) with r by lia. by rewrite Hok.
Qed.

Lemma partial_alter_back (m : gmap (nat * nat) Z) k f :
  (forall x, f x = m !! k) -> partial_alter f k m = m.
Proof.
  intros Hf. apply map_eq. intros j. destruct (decide (k = j)) as [<-|Hne].
  - by rewrite lookup_partial_alter_eq, Hf.
  - by rewrite lookup_partial_alter_ne.
Qed.

Lemma undo_change k d s s1 :
  well_formed s -> exec (OBond k (f_change d)) s = ret s1 ->
  exec (OBond k (f_change (- d))) s1 = ret s.
Proof.
  intros [Hwf _]. destruct s as [ats bs]. simpl in *.
  destruct (bs !! k) as [o|] eqn:E; [|done]. simpl.
  destruct (order_ok (o + d)); [|done]. simpl. intros [= <-]. simpl.
  rewrite lookup_partial_alter_eq. simpl.
  replace (o + d + - d) with o by lia.
  rewrite (Hwf k o E). simpl. f_equal. f_equal.
  rewrite partial_alter_partial_alter_eq.
  apply partial_alter_back. intros x. by rewrite E.
Qed.

Lemma undo_add k s s1 :
  bonds s !! k = None -> exec (OBond k f_add) s = ret s1 ->
  exec (OBond k f_remove) s1 = ret s.
Proof.
  destruct s as [ats bs]. simpl. intros E [= <-]. simpl.
  rewrite lookup_partial_alter_eq. simpl. f_equal. f_equal.
  rewrite partial_alter_partial_alter_eq.
  apply partial_alter_back. intros x. by rewrite E.
Qed.

Lemma undo_remove k s s1 :
  bonds s !! k = Some order_S -> exec (OBond k f_remove) s = ret s1 ->
  exec (OBond k f_add) s1 = ret s.
Proof.
  destruct s as [ats bs]. simpl. intros E. rewrite E. simpl. intros [= <-].
  simpl. f_equal. f_equal.
  rewrite partial_alter_partial_alter_eq.
  apply partial_alter_back. intros x. by rewrite E.
Qed.

Lemma undo_radical i d n s s1 :
  well_formed s -> exec (ORad i (radIter d n)) s = ret s1 ->
  exec (ORad i (radIter (- d) n)) s1 = ret s.
Proof.
  intros [_ Hwf]. destruct s as [ats bs]. simpl in *.
  destruct (ats !! i) as [a|] eqn:Ha; [|done].
  destruct (radIter d n (radicalElectrons a)) as [|r] eqn:Hr; [done|].
  simpl. intros [= <-]. simpl.
  rewrite list_lookup_insert_eq by (by apply lookup_lt_Some in Ha). simpl.
  assert (radical_ok (radicalElectrons a) = true) as Hok.
  { rewrite Forall_forall in Hwf. apply Hwf.
    apply list_elem_of_lookup. eauto. }
  rewrite (radIter_inverse _ _ _ _ Hok Hr). simpl.
  rewrite list_insert_insert_eq. f_equal. f_equal.
  apply list_insert_id. by destruct a.
Qed.

Lemma applyAction_inverse a s s1 :
  well_formed s -> bond_fits s a = true ->
  applyAction true a s = ret s1 -> applyAction false a s1 = ret s.
Proof.
  intros Hwf Hfit. rewrite !applyAction_exec. intros H.
  rewrite (compile_ext false a s1 s (exec_same_labels _ _ _ H)).
  revert Hfit H. unfold compile, bond_fits.
  destruct a as [|a0 params]; [done|].
  destruct (mem a0 bond_names).
  - destruct params as [|l1 [|info [|l2 [|? ?]]]]; try done.
    destruct (getLabeledAtom s l1) as [i|]; [|done].
    destruct (getLabeledAtom s l2) as [j|]; [|done].
    destruct (i =? j)%nat; [done|].
    destruct (String.eqb_spec a0 "CHANGE_BOND") as [->|Hc].
    { destruct (Py.int_opt info); [|done]. intros _. by apply undo_change. }
    destruct (String.eqb_spec a0 "FORM_BOND") as [->|Hf]; simpl.
    { intros Hn. apply bool_decide_eq_true in Hn. by apply undo_add. }
    destruct (String.eqb_spec a0 "BREAK_BOND") as [->|Hb]; simpl.
    { intros Hn. apply bool_decide_eq_true in Hn. by apply undo_remove. }
    by intros _ [= <-].
  - intros _. destruct (mem a0 radical_names); [|done].
    destruct params as [|lbl [|change [|? ?]]]; try done.
    destruct (Py.int_opt change) as [z|]; [|done].
    destruct (getLabeledAtom s lbl) as [i|]; [|done].
    destruct (String.eqb_spec a0 "GAIN_RADICAL") as [->|Hg]; simpl.
    { by apply (undo_radical i 1). }
    destruct (String.eqb_spec a0 "LOSE_RADICAL") as [->|Hl]; simpl.
    { by apply (undo_radical i (-1)). }
    by intros [= <-].
Qed.

End Cells.

(** C7, as amended.  Take a graph whose bond orders and free-electron
    counts the collaborator accepts, and a recipe in which no two actions
    address the same bond or the free electrons of the same label, every
    FORM_BOND joins atoms that are not bonded in the graph and every
    BREAK_BOND breaks a bond that is single in it.  If applying the recipe
    forward succeeds, applying it in reverse to the result succeeds and
    gives back the graph itself: the same atoms with their labels and
    free-electron counts, the same bonds with their orders. *)
Theorem apply_round_trip {chem : Chemistry} (self : ReactionRecipe)
    (struct struct' : Graph) :
  well_formed struct ->
  independent (actions self) = true ->
  forallb (bond_fits struct) (actions self) = true ->
  applyForward self struct = ret struct' ->
  applyReverse self struct' = ret struct.
Proof.
  unfold applyForward, applyReverse, apply. intros Hwf.
  generalize (actions self) as acts. clear self.
  intros acts. revert struct'.
  induction acts as [|a acts IH]; intros s'; simpl.
  - by intros _ _ [= <-].
  - intros Hind Hfit. apply andb_prop in Hind as [Ha Hind].
    apply andb_prop in Hfit as [Hfa Hfit].
    destruct (applyAction true a struct) as [|s1] eqn:E1; [done|]. simpl.
    intros Hrest.
    (* undo [a] right after it, then move the undoing past the rest *)
    pose proof (applyAction_inverse _ _ _ Hwf Hfa E1) as Hback.
    destruct (apply_loop_commute _ _ _ _ _ _ Ha Hback Hrest) as (s'' & Hf & Hb).
    rewrite Hb. simpl. by apply IH.
Qed.


Lemma abstraction_reactants_well_formed :
  @well_formed molecule_chemistry abstraction_reactants.
Proof.
  split.
  - unfold abstraction_reactants; simpl.
    apply map_Forall_insert_2; [reflexivity|].
    apply map_Forall_insert_2; [reflexivity|].
    apply map_Forall_empty.
  - repeat constructor.
Qed.

Lemma apply_round_trip_witness :
  @well_formed molecule_chemistry abstraction_reactants
  /\ independent (actions h_abstraction) = true
  /\ forallb (bond_fits abstraction_reactants) (actions h_abstraction) = true
  /\ @applyForward molecule_chemistry h_abstraction abstraction_reactants
     = ret abstraction_products
  /\ @applyReverse molecule_chemistry h_abstraction abstraction_products
     = ret abstraction_reactants.
Proof.
  assert (Hf : @applyForward molecule_chemistry h_abstraction
                 abstraction_reactants = ret abstraction_products)
    by (vm_compute; reflexivity).
  split; [apply abstraction_reactants_well_formed|].
  split; [reflexivity|]. split; [vm_compute; reflexivity|].
  split; [exact Hf|].
  apply (@apply_round_trip molecule_chemistry h_abstraction
           abstraction_reactants abstraction_products).
  - apply abstraction_reactants_well_formed.
  - reflexivity.
  - vm_compute; reflexivity.
  - exact Hf.
Defined.

(** C7 as stated fails.  A recipe that forms and then breaks the same bond
    applies forward to two unbonded atoms, and its reverse application to
    the result raises; a recipe that breaks a bond applies forward to a
    double bond, and its reverse application puts a single bond back. *)
Lemma apply_round_trip_fails :
  (@applyForward molecule_chemistry form_break two_atoms = ret two_atoms
   /\ @applyReverse molecule_chemistry form_break two_atoms
      = raise (InvalidActionError "Attempted to remove a nonexistent bond."))
  /\ (exists broken,
         @applyForward molecule_chemistry break_only double_bonded = ret broken
         /\ @applyReverse molecule_chemistry break_only broken = ret single_bonded
         /\ bonds double_bonded !! key 0 1 = Some 2
         /\ bonds single_bonded !! key 0 1 = Some 1).
Proof.
  split; [split; vm_compute; reflexivity|].
  exists (mkGraph [mkAtom "*1" 0; mkAtom "*2" 0] ∅).
  repeat split; vm_compute; reflexivity.
Qed.


(** A bond order the collaborator refuses cannot be put back: the quintuple
    bond below is lowered to a triple one, and raising it again fails. *)
Example ill_formed_not_restored :
  let quintuple := mkGraph [mkAtom "*1" 0; mkAtom "*2" 0] {[ (0%nat, 1%nat) := 5 ]} in
  let lower := mkRecipe [["CHANGE_BOND"; "*1"; "-2"; "*2"]] in
  exists lowered,
    @applyForward molecule_chemistry lower quintuple = ret lowered
    /\ @applyReverse molecule_chemistry lower lowered = raise ActionError.
Proof. eexists. split; vm_compute; reflexivity. Qed.

(** *** The generated reverse recipe

    A family applies its reverse recipe, made by [getReverse], forward.  For
    a recipe of documented shape this is the reverse application of the
    recipe itself. *)

Section GeneratedReverse.
Context {chem : Chemistry}.

Lemma reverseAction_applies a a' struct :
  documented a = true -> reverseAction a = ret (Some a') ->
  applyAction true a' struct = applyAction false a struct.
Proof.
  destruct a as [|name [|x [|y [|w [|? ?]]]]]; simpl; try discriminate.
  - intros H. name_cases H; try discriminate; intros [= <-]; reflexivity.
  - intros H. name_cases H; try discriminate.
    + assert (canonical y = true) as Hc by (destruct (canonical y); done).
      apply canonical_inv in Hc as (z & Hz & Hs).
      unfold reverseAction; simpl. unfold Py.int at 1. rewrite Hz. simpl.
      intros [= <-]. unfold applyAction; simpl.
      destruct (getLabeledAtom struct x) as [i|]; [|done].
      destruct (getLabeledAtom struct w) as [j|]; [|done].
      destruct (i =? j)%nat; [done|].
      rewrite PyFacts.int_str. unfold Py.int. by rewrite Hz.
    + intros [= <-]. reflexivity.
    + intros [= <-]. reflexivity.
Qed.

Lemma getReverse_loop_applies acts other r' :
  forallb documented acts = true ->
  getReverse_loop acts other = ret r' ->
  exists acts',
    actions r' = (actions other ++ acts')%list
    /\ forall struct, apply_loop true acts' struct = apply_loop false acts struct.
Proof.
  revert other. induction acts as [|a acts IH]; intros other; simpl.
  - intros _ [= <-]. exists []. by rewrite app_nil_r.
  - intros H. apply andb_prop in H as [Ha Hs].
    destruct (reverseAction_documented a Ha) as (a' & R1 & _).
    rewrite R1. simpl. intros Hr.
    destruct (IH _ Hs Hr) as (acts' & E & Happ).
    exists (a' :: acts'). split.
    + rewrite E. simpl. by rewrite <- app_assoc.
    + intros struct. simpl.
      rewrite (reverseAction_applies a a' struct Ha R1).
      destruct (applyAction false a struct); simpl; [done|apply Happ].
Qed.

(** X1.  A family applies the recipe [getReverse] made, forward, where the
    reverse of its own recipe is meant.  For a recipe of documented shape
    the two agree on every graph, failures included. *)
Theorem applyForward_getReverse self reverseRecipe struct :
  forallb documented (actions self) = true ->
  getReverse self = ret reverseRecipe ->
  applyForward reverseRecipe struct = applyReverse self struct.
Proof.
  intros Hd Hr. destruct (getReverse_loop_applies _ _ _ Hd Hr) as (acts' & E & H).
  unfold applyForward, applyReverse, apply. rewrite E. simpl. apply H.
Qed.

End GeneratedReverse.

Lemma applyForward_getReverse_witness :
  exists reverseRecipe,
    getReverse h_abstraction = ret reverseRecipe
    /\ @applyForward molecule_chemistry reverseRecipe abstraction_products
       = @applyReverse molecule_chemistry h_abstraction abstraction_products.
Proof.
  eexists. split; [vm_compute; reflexivity|].
  apply (@applyForward_getReverse molecule_chemistry h_abstraction);
    vm_compute; reflexivity.
Defined.


(** The boundary cases of the specification, run on a two-atom graph. *)

Example absent_label_raises :
  @applyForward molecule_chemistry
    (mkRecipe [["CHANGE_BOND"; "*1"; "1"; "*3"]]) two_atoms
  = raise (InvalidActionError "Invalid atom labels encountered.").
Proof. reflexivity. Qed.

Example break_nonexistent_raises :
  @applyForward molecule_chemistry
    (mkRecipe [["BREAK_BOND"; "*1"; "S"; "*2"]]) two_atoms
  = raise (InvalidActionError "Attempted to remove a nonexistent bond.").
Proof. reflexivity. Qed.

End RecipeFacts.

(** ** Rate-rule lookup *)

Module RulesFacts.
Import Rules.

Section Sorting.
Context {X : Type} (le : X -> X -> bool).
Hypothesis le_total : forall a b, le a b = true \/ le b a = true.
Hypothesis le_trans : forall a b c, le a b = true -> le b c = true -> le a c = true.

Lemma insert_sorted_elem x l y :
  y ∈ insert_sorted le x l <-> y = x \/ y ∈ l.
Proof.
  induction l as [|z l IH]; simpl.
  - rewrite list_elem_of_singleton, elem_of_nil. tauto.
  - destruct (le x z).
    + by rewrite (elem_of_cons (z :: l)).
    + rewrite !elem_of_cons, IH. tauto.
Qed.

Lemma sort_elem l y : y ∈ sort le l <-> y ∈ l.
Proof.
  induction l as [|x l IH]; simpl; [done|].
  rewrite insert_sorted_elem, elem_of_cons, IH. tauto.
Qed.

(** The first element of the sorted list is a least element of the list. *)
Lemma sort_head l x rest :
  sort le l = x :: rest -> x ∈ l /\ forall y, y ∈ l -> le x y = true.
Proof.
  revert x rest. induction l as [|a l IH]; intros x rest; simpl; [done|].
  destruct (sort le l) as [|y r] eqn:E; simpl.
  - intros [= <- <-].
    assert (l = []) as ->.
    { destruct l as [|b l]; [done|].
      assert (b ∈ sort le (b :: l)) as Hb by (apply sort_elem; left).
      rewrite E in Hb. by apply elem_of_nil in Hb. }
    split; [left|]. intros y Hy. apply list_elem_of_singleton in Hy as ->.
    by destruct (le_total a a).
  - destruct (IH y r eq_refl) as [Hy Hmin].
    destruct (le a y) eqn:Hay.
    + intros [= <- <-]. split; [left|]. intros z Hz.
      apply elem_of_cons in Hz as [->|Hz].
      * by destruct (le_total a a).
      * apply le_trans with y; auto.
    + intros [= <- <-]. split; [by right|]. intros z Hz.
      apply elem_of_cons in Hz as [->|Hz]; [|auto].
      destruct (le_total a y); congruence.
Qed.

Lemma sort_nonempty l : l <> [] -> exists x rest, sort le l = x :: rest.
Proof.
  destruct l as [|a l]; [done|]. intros _. simpl.
  destruct (sort le l) as [|y r]; simpl; [eauto|].
  destruct (le a y); eauto.
Qed.

End Sorting.

Section Lookup.
Context {fl : Floats}.

Lemma by_rank_index_spec x y : by_rank_index x y = true <-> lex_le x y.
Proof.
  unfold by_rank_index, pair_le, lex_le. simpl.
  rewrite orb_true_iff, andb_true_iff, Z.ltb_lt, Z.eqb_eq, Z.leb_le. tauto.
Qed.

Lemma by_rank_index_total x y :
  by_rank_index x y = true \/ by_rank_index y x = true.
Proof. rewrite !by_rank_index_spec. unfold lex_le. lia. Qed.

Lemma by_rank_index_trans x y z :
  by_rank_index x y = true -> by_rank_index y z = true ->
  by_rank_index x z = true.
Proof. rewrite !by_rank_index_spec. unfold lex_le. lia. Qed.

Lemma by_index_total x y : by_index x y = true \/ by_index y x = true.
Proof. unfold by_index. rewrite !Z.leb_le. lia. Qed.

Lemma by_index_trans x y z :
  by_index x y = true -> by_index y z = true -> by_index x z = true.
Proof. unfold by_index. rewrite !Z.leb_le. lia. Qed.

(** Outside the recombination family the candidates are the stored entries
    whose label is the joined labels of the template. *)
Lemma candidates_plain self template :
  Py.lower (family_label self) <> "r_recombination" ->
  candidates self template = ret (matching self template).
Proof.
  intros H. unfold candidates.
  by destruct (String.eqb_spec (Py.lower (family_label self)) "r_recombination").
Qed.

Lemma matching_elem self template e :
  e ∈ matching self template <->
  e ∈ entries (rules self) /\ label e = templateLabels template.
Proof.
  unfold matching. rewrite list_elem_of_filter, bool_decide_spec. intuition.
Qed.

(** The entries [getRateRule] collects: the stored entries whose label is
    the joined labels of the template and, in the recombination family
    when the two slots differ, those whose label is the joined labels of
    the template reversed. *)
Lemma candidates_elem self template found e :
  candidates self template = ret found ->
  e ∈ found <->
  e ∈ entries (rules self)
  /\ (label e = templateLabels template
      \/ (Py.lower (family_label self) = "r_recombination"
          /\ (exists t0 t1, Py.index template 0 = ret t0
                            /\ Py.index template 1 = ret t1
                            /\ entry_eqb t0 t1 = false)
          /\ label e = templateLabels (rev template))).
Proof.
  unfold candidates.
  destruct (String.eqb_spec (Py.lower (family_label self)) "r_recombination")
    as [Hf|Hf].
  - destruct (Py.index template 0) as [x|t0] eqn:E0; simpl; [done|].
    destruct (Py.index template 1) as [x|t1] eqn:E1; simpl; [done|].
    destruct (entry_eqb t0 t1) eqn:Eeq; simpl; intros [= <-].
    + rewrite matching_elem. split.
      * intros [H1 H2]. split; [done|by left].
      * intros [H1 [H2|(_ & (a & b & [= <-] & [= <-] & Hab) & _)]];
          [done|congruence].
    + rewrite elem_of_app, !matching_elem. split.
      * intros [[H1 H2]|[H1 H2]]; (split; [done|]); [by left|right].
        repeat split; try done. by exists t0, t1.
      * intros [H1 [H2|(_ & _ & H2)]]; [left|right]; done.
  - intros [= <-]. rewrite matching_elem. split.
    + intros [H1 H2]. split; [done|by left].
    + intros [H1 [H2|(Hr & _)]]; [done|contradiction].
Qed.

(** C4, as amended.  When the entries [getRateRule] collects for a template
    are not empty, it returns one of them: if some collected entry has a
    rank above 0, an entry of rank above 0 whose (rank, index) is
    lexicographically lowest among the collected entries of rank above 0;
    otherwise an entry of lowest index.  The collected entries are the
    stored entries whose label is the label tuple of the template and, in
    the recombination family when the two slots of the template differ,
    also those stored under the swapped tuple; outside that family they are
    the entries of the exact label tuple and no other. *)
Theorem getRateRule_choice (self : Family) (template : Template)
    (found : list Entry) :
  candidates self template = ret found ->
  found <> [] ->
  (forall e,
      e ∈ found <->
      e ∈ entries (rules self)
      /\ (label e = templateLabels template
          \/ (Py.lower (family_label self) = "r_recombination"
              /\ (exists t0 t1, Py.index template 0 = ret t0
                                /\ Py.index template 1 = ret t1
                                /\ entry_eqb t0 t1 = false)
              /\ label e = templateLabels (rev template))))
  /\ (Py.lower (family_label self) <> "r_recombination" ->
      forall e, e ∈ found <->
                e ∈ entries (rules self) /\ label e = templateLabels template)
  /\ exists e,
       getRateRule self template = ret e
       /\ e ∈ found
       /\ if existsb (fun entry => 0 <? rank entry) found
          then 0 < rank e
               /\ forall e', e' ∈ found -> 0 < rank e' -> lex_le e e'
          else forall e', e' ∈ found -> index e <= index e'.
Proof.
  intros Hc Hne. split; [|split].
  { intros e. by apply candidates_elem. }
  { intros Hfam e. rewrite (candidates_plain _ _ Hfam) in Hc.
    injection Hc as <-. apply matching_elem. }
  unfold getRateRule. rewrite Hc. simpl.
  destruct found as [|e1 [|e2 rest]]; [done| |].
  - (* a single entry *)
    simpl. exists e1. split; [done|]. split; [left|].
    destruct (0 <? rank e1) eqn:Hr; simpl.
    + apply Z.ltb_lt in Hr. split; [done|]. intros e' He' _.
      apply list_elem_of_singleton in He' as ->. unfold lex_le. lia.
    + intros e' He'. apply list_elem_of_singleton in He' as ->. lia.
  - (* several entries *)
    set (found := e1 :: e2 :: rest) in *.
    change (length found =? 1)%nat with false.
    change (1 <? length found)%nat with true. cbv iota.
    destruct (existsb (fun entry => 0 <? rank entry) found) eqn:Hex.
    + set (ranked := filter (fun entry => bool_decide (0 < rank entry)) found).
      assert (ranked <> []) as Hr.
      { apply existsb_exists in Hex as (x & Hx & Hpos).
        apply Z.ltb_lt in Hpos. intros E.
        assert (x ∈ ranked) as Hin.
        { apply list_elem_of_filter. split; [by apply bool_decide_pack|].
          by apply list_elem_of_In. }
        rewrite E in Hin. by apply elem_of_nil in Hin. }
      destruct (sort_nonempty by_rank_index ranked Hr) as (x & r & Hs).
      destruct (sort_head by_rank_index by_rank_index_total
                  by_rank_index_trans ranked x r Hs) as [Hin Hmin].
      apply list_elem_of_filter in Hin as [Hpos Hin].
      apply bool_decide_unpack in Hpos.
      exists x. rewrite Hs. repeat split; try done.
      intros e' He' Hpos'. apply by_rank_index_spec, Hmin.
      apply list_elem_of_filter. split; [by apply bool_decide_pack|done].
    + destruct (sort_nonempty by_index found Hne) as (x & r & Hs).
      destruct (sort_head by_index by_index_total by_index_trans
                  found x r Hs) as [Hin Hmin].
      exists x. rewrite Hs. repeat split; try done.
      intros e' He'. apply Z.leb_le. by apply Hmin.
Qed.

End Lookup.

(** The two cases the specification singles out, in a family other than
    the recombination. *)
Example lookup_prefers_ranked :
  getRateRule ranked_and_placeholder X_H_Y_rad = ret (@rule decades 2 "X_H;Y_rad" 3).
Proof. vm_compute. reflexivity. Qed.

Example lookup_lowest_index :
  getRateRule two_ranked X_H_Y_rad = ret (@rule decades 2 "X_H;Y_rad" 3).
Proof. vm_compute. reflexivity. Qed.

Lemma getRateRule_choice_witness :
  let stored := entries (rules two_ranked) in
  (forall e,
      e ∈ stored <->
      e ∈ stored
      /\ (label e = templateLabels X_H_Y_rad
          \/ (Py.lower (family_label two_ranked) = "r_recombination"
              /\ (exists t0 t1, Py.index X_H_Y_rad 0 = ret t0
                                /\ Py.index X_H_Y_rad 1 = ret t1
                                /\ entry_eqb t0 t1 = false)
              /\ label e = templateLabels (rev X_H_Y_rad))))
  /\ (Py.lower (family_label two_ranked) <> "r_recombination" ->
      forall e, e ∈ stored <->
                e ∈ stored /\ label e = templateLabels X_H_Y_rad)
  /\ exists e,
       getRateRule two_ranked X_H_Y_rad = ret e
       /\ e ∈ stored
       /\ (0 < rank e
           /\ forall e', e' ∈ stored -> 0 < rank e' -> lex_le e e').
Proof.
  intros stored.
  apply (getRateRule_choice two_ranked X_H_Y_rad stored).
  - vm_compute. reflexivity.
  - discriminate.
Defined.

(** C4 as stated fails in the recombination family.  Two stored entries
    share the exact label tuple of the template, both of rank 3, at the
    indices 5 and 2; the lookup returns neither, but the entry of index 9
    stored under the swapped tuple, whose rank 1 is lower. *)
Lemma getRateRule_recombination_swapped :
  let self :=
    family_of "R_Recombination"
      [@rule decades 5 "X_H;Y_rad" 3; @rule decades 2 "X_H;Y_rad" 3;
       @rule decades 9 "Y_rad;X_H" 1] in
  matching self X_H_Y_rad
  = [@rule decades 5 "X_H;Y_rad" 3; @rule decades 2 "X_H;Y_rad" 3]
  /\ getRateRule self X_H_Y_rad = ret (@rule decades 9 "Y_rad;X_H" 1)
  /\ label (@rule decades 9 "Y_rad;X_H" 1) <> templateLabels X_H_Y_rad.
Proof.
  intros self. split; [vm_compute; reflexivity|].
  split; [vm_compute; reflexivity|]. vm_compute. discriminate.
Qed.

(** ** Widening of the template list *)

Section Widening.
Context {fl : Floats} {co : Collaborators}.

Lemma depth_parent e p : parent e = Some p -> depth e = S (depth p).
Proof. destruct e as [i l [q|] d r]; simpl; [by intros [= ->]|done]. Qed.

Lemma parent_not_child e p : parent e = Some p -> parent p <> Some e.
Proof.
  intros H1 H2. apply depth_parent in H1, H2. lia.
Qed.

Lemma entry_eqb_refl e : entry_eqb e e = true.
Proof.
  assert (forall m e, (depth e <= m)%nat -> entry_eqb e e = true) as H.
  { clear e. intros m. induction m as [|m IH]; intros [i l [p|] d r]; simpl;
      intros Hd; rewrite String.eqb_refl; simpl; try done; [lia|apply IH; lia]. }
  by apply (H (depth e)).
Qed.

Lemma template_eqb_refl t : template_eqb t t = true.
Proof. induction t as [|e t IH]; simpl; [done|]. by rewrite entry_eqb_refl. Qed.

Lemma covered_app_l t l1 l2 : covered t l1 -> covered t (l1 ++ l2).
Proof. unfold covered. rewrite existsb_app. by intros ->. Qed.

(** One slot. *)
Lemma widen_slot_elem t0 acc idx t' :
  t' ∈ widen_slot t0 acc idx ->
  t' ∈ acc \/ exists e p, t0 !! idx = Some e /\ parent e = Some p
                          /\ t' = <[idx := p]> t0.
Proof.
  unfold widen_slot. destruct (t0 !! idx) as [e|] eqn:He; [|by left].
  destruct (parent e) as [p|] eqn:Hp; [|by left].
  destruct (existsb _ acc); [by left|].
  rewrite elem_of_app, list_elem_of_singleton. intros [H| ->]; [by left|].
  right. by exists e, p.
Qed.

Lemma widen_slot_keeps t0 acc idx t : covered t acc -> covered t (widen_slot t0 acc idx).
Proof.
  unfold widen_slot. destruct (t0 !! idx) as [e|]; [|done].
  destruct (parent e) as [p|]; [|done].
  destruct (existsb _ acc); [done|]. apply covered_app_l.
Qed.

Lemma widen_slot_covers t0 acc idx e p :
  t0 !! idx = Some e -> parent e = Some p ->
  covered (<[idx := p]> t0) (widen_slot t0 acc idx).
Proof.
  unfold widen_slot. intros -> ->.
  destruct (existsb _ acc) eqn:E; [done|].
  unfold covered. rewrite existsb_app. simpl.
  by rewrite template_eqb_refl, orb_true_r.
Qed.

(** All slots of one template. *)
Lemma widen_slots_elem t0 idxs acc t' :
  t' ∈ fold_left (widen_slot t0) idxs acc ->
  t' ∈ acc \/ exists idx e p, t0 !! idx = Some e /\ parent e = Some p
                              /\ t' = <[idx := p]> t0.
Proof.
  revert acc. induction idxs as [|i idxs IH]; intros acc; simpl; [by left|].
  intros H. apply IH in H as [H|H]; [|by right].
  apply widen_slot_elem in H as [H|(e & p & H)]; [by left|].
  right. by exists i, e, p.
Qed.

Lemma widen_slots_keeps t0 idxs acc t :
  covered t acc -> covered t (fold_left (widen_slot t0) idxs acc).
Proof.
  revert acc. induction idxs as [|i idxs IH]; intros acc; simpl; [done|].
  intros H. by apply IH, widen_slot_keeps.
Qed.

Lemma widen_slots_covers t0 idxs acc idx e p :
  idx ∈ idxs -> t0 !! idx = Some e -> parent e = Some p ->
  covered (<[idx := p]> t0) (fold_left (widen_slot t0) idxs acc).
Proof.
  revert acc. induction idxs as [|i idxs IH]; intros acc Hin He Hp; simpl.
  - by apply elem_of_nil in Hin.
  - apply elem_of_cons in Hin as [<-|Hin].
    + by apply widen_slots_keeps, widen_slot_covers with e.
    + by apply IH.
Qed.

Lemma widen_template_covers t0 acc idx e p :
  t0 !! idx = Some e -> parent e = Some p ->
  covered (<[idx := p]> t0) (widen_template acc t0).
Proof.
  intros He Hp. apply widen_slots_covers with e; [|done..].
  apply elem_of_seq. apply lookup_lt_Some in He. lia.
Qed.

(** All templates of the list. *)
Lemma widen_elem_from l0 acc t' :
  t' ∈ fold_left widen_template l0 acc ->
  t' ∈ acc \/ exists t idx e p, t ∈ l0 /\ t !! idx = Some e /\ parent e = Some p
                                /\ t' = <[idx := p]> t.
Proof.
  revert acc. induction l0 as [|t0 l0 IH]; intros acc; simpl; [by left|].
  intros H. apply IH in H as [H|(t & idx & e & p & Ht & H)].
  - apply widen_slots_elem in H as [H|(idx & e & p & H)]; [by left|].
    right. exists t0, idx, e, p. split; [left|done].
  - right. exists t, idx, e, p. split; [by right|done].
Qed.

Lemma widen_keeps l0 acc t :
  covered t acc -> covered t (fold_left widen_template l0 acc).
Proof.
  revert acc. induction l0 as [|t0 l0 IH]; intros acc; simpl; [done|].
  intros H. by apply IH, widen_slots_keeps.
Qed.

Lemma widen_covers_from l0 acc t idx e p :
  t ∈ l0 -> t !! idx = Some e -> parent e = Some p ->
  covered (<[idx := p]> t) (fold_left widen_template l0 acc).
Proof.
  revert acc. induction l0 as [|t0 l0 IH]; intros acc Hin He Hp; simpl.
  - by apply elem_of_nil in Hin.
  - apply elem_of_cons in Hin as [<-|Hin].
    + by apply widen_keeps, widen_template_covers with e.
    + by apply IH.
Qed.

Lemma covered_nonempty t l : covered t l -> l <> [].
Proof. by destruct l. Qed.

Local Abbreviation no_repeat l :=
  (forall (i j : nat) ti tj, (i < j)%nat -> l !! i = Some ti ->
     l !! j = Some tj -> template_eqb tj ti = false).

Lemma widen_slot_no_repeat t0 acc idx :
  no_repeat acc -> no_repeat (widen_slot t0 acc idx).
Proof.
  intros Hacc. unfold widen_slot.
  destruct (t0 !! idx) as [e|]; [|done].
  destruct (parent e) as [p|]; [|done].
  destruct (existsb _ acc) eqn:E; [done|].
  intros i j ti tj Hij Hi Hj.
  destruct (decide (j < length acc)%nat) as [Hlt|Hge].
  - rewrite lookup_app_l in Hi, Hj by lia. by apply (Hacc i j).
  - pose proof (lookup_lt_Some _ _ _ Hj) as Hlen.
    rewrite length_app in Hlen. simpl in Hlen.
    assert (j = length acc) as -> by lia.
    rewrite lookup_app_r in Hj by lia. rewrite Nat.sub_diag in Hj.
    injection Hj as <-.
    rewrite lookup_app_l in Hi by lia.
    destruct (template_eqb _ ti) eqn:Et; [|done].
    assert (existsb (template_eqb (<[idx:=p]> t0)) acc = true) as Hex; [|congruence].
    apply existsb_exists. exists ti. split; [|done].
    apply list_elem_of_In. by apply list_elem_of_lookup_2 with i.
Qed.

Lemma widen_template_no_repeat acc t0 :
  no_repeat acc -> no_repeat (widen_template acc t0).
Proof.
  unfold widen_template. generalize (seq 0 (length t0)). intros idxs.
  revert acc. induction idxs as [|i idxs IH]; intros acc H; simpl; [done|].
  by apply IH, widen_slot_no_repeat.
Qed.

Lemma widen_templates_no_repeat l acc :
  no_repeat acc -> no_repeat (fold_left widen_template l acc).
Proof.
  revert acc. induction l as [|t0 l IH]; intros acc Hacc; simpl; [done|].
  by apply IH, widen_template_no_repeat.
Qed.

(** One turn of the loop when no rule is found, and its end on the empty
    list. *)
Lemma estimate_loop_step fuel self template degeneracy l :
  l <> [] -> collect self l = ret [] ->
  estimate_loop (S fuel) self template degeneracy l
  = estimate_loop fuel self template degeneracy (widen l).
Proof.
  intros Hne Hc. destruct l as [|t0 l]; [done|]. cbn [estimate_loop].
  change (0 <? length (t0 :: l))%nat with true. cbv iota. by rewrite Hc.
Qed.

Lemma estimate_loop_empty fuel self template degeneracy :
  estimate_loop (S fuel) self template degeneracy []
  = Some (raise (Exception
                   ("Unable to determine kinetics for reaction with template "
                    ++ str_template template ++ "."))).
Proof. reflexivity. Qed.

(** More fuel does not change a result. *)
Lemma estimate_loop_more fuel fuel' self template degeneracy l r :
  (fuel <= fuel')%nat ->
  estimate_loop fuel self template degeneracy l = Some r ->
  estimate_loop fuel' self template degeneracy l = Some r.
Proof.
  revert fuel' l. induction fuel as [|fuel IH]; intros fuel' l Hle; [done|].
  destruct fuel' as [|fuel']; [lia|]. cbn [estimate_loop].
  destruct (0 <? length l)%nat; [|done].
  destruct (collect self l) as [e|found]; [done|].
  destruct (0 <? length found)%nat; [done|]. apply IH. lia.
Qed.

(** The loop over the levels [l], [widen l], [widen (widen l)], ... *)
Lemma estimate_loop_levels (n : nat) fuel self template degeneracy l :
  (forall m, (m <= n)%nat -> collect self (Nat.iter m widen l) = ret []) ->
  Nat.iter (S n) widen l = [] ->
  estimate_loop (n + 2 + fuel) self template degeneracy l
  = Some (raise (Exception
                   ("Unable to determine kinetics for reaction with template "
                    ++ str_template template ++ "."))).
Proof.
  revert l. induction n as [|n IH]; intros l Hc Hend.
  - destruct l as [|t0 l']; [apply estimate_loop_empty|].
    change (0 + 2 + fuel)%nat with (S (S fuel)).
    rewrite estimate_loop_step; [|done|apply (Hc 0%nat); lia].
    simpl in Hend. rewrite Hend. apply estimate_loop_empty.
  - destruct l as [|t0 l']; [apply estimate_loop_empty|].
    change (S n + 2 + fuel)%nat with (S (n + 2 + fuel)).
    rewrite estimate_loop_step; [|done|apply (Hc 0%nat); lia].
    apply IH.
    + intros m Hm. rewrite <- Nat.iter_succ_r. apply Hc. lia.
    + by rewrite <- Nat.iter_succ_r.
Qed.

(** The loop ends within the fuel [estimateKineticsUsingRateRules] gives
    it. *)
Lemma total_depth_insert (t : Template) idx e p :
  t !! idx = Some e -> parent e = Some p ->
  (total_depth (<[idx := p]> t) + 1 = total_depth t)%nat.
Proof.
  unfold total_depth. intros He Hp. apply depth_parent in Hp.
  revert idx He. induction t as [|x t IH]; intros [|idx]; simpl; try done.
  - intros [= ->]. lia.
  - intros He. specialize (IH idx He). unfold Template in *. lia.
Qed.

Lemma estimate_loop_enough fuel self template degeneracy l :
  (1 <= fuel)%nat ->
  (forall t, t ∈ l -> (total_depth t + 2 <= fuel)%nat) ->
  is_Some (estimate_loop fuel self template degeneracy l).
Proof.
  revert l. induction fuel as [|fuel IH]; intros l Hf Hl; [lia|]. simpl.
  destruct l as [|t0 l]; [by eexists|].
  change (0 <? length (t0 :: l))%nat with true. cbv iota.
  destruct (collect self (t0 :: l)) as [e|found]; [by eexists|].
  destruct (0 <? length found)%nat; [by eexists|].
  assert (forall t, t ∈ widen (t0 :: l) -> (total_depth t + 2 <= fuel)%nat) as Hw.
  { intros t' H. apply widen_elem_from in H
      as [H|(t & idx & e & p & Ht & He & Hp & ->)].
    - by apply elem_of_nil in H.
    - pose proof (total_depth_insert t idx e p He Hp). specialize (Hl t Ht). lia. }
  apply IH; [|done].
  specialize (Hl t0 (list_elem_of_here _ _)). lia.
Qed.

Lemma estimateKineticsUsingRateRules_loop self template degeneracy :
  estimate_loop (total_depth template + 2) self template degeneracy [template]
  = Some (estimateKineticsUsingRateRules self template degeneracy).
Proof.
  unfold estimateKineticsUsingRateRules.
  destruct (estimate_loop_enough (total_depth template + 2) self template
              degeneracy [template]) as [r Hr].
  - lia.
  - intros t Ht. apply list_elem_of_singleton in Ht as ->. lia.
  - by rewrite Hr.
Qed.

(** C1, as amended.  When no rule is found for any tuple of the current
    list, the loop goes on with [widen] of the list, and: every tuple of the
    next list is a tuple of the current list with one slot replaced by the
    parent of that slot (which is not a child of it); every such replacement
    is in the next list; no tuple is in the next list twice; the next list
    is empty exactly when no slot of the current list has a parent, and
    then the loop ends with the exception [Unable to determine kinetics for
    reaction with template ...].  The estimation of a template raises that
    exception when the lists [[template]], [widen [template]], ... hold no
    tuple with a rule up to the first that is empty. *)
Theorem estimate_widens_to_parents (templateList0 : list Template) :
  (forall fuel self template degeneracy,
      templateList0 <> [] -> collect self templateList0 = ret [] ->
      estimate_loop (S fuel) self template degeneracy templateList0
      = estimate_loop fuel self template degeneracy (widen templateList0))
  /\ (forall t', t' ∈ widen templateList0 ->
        exists t idx e p,
          t ∈ templateList0 /\ t !! idx = Some e /\ parent e = Some p
          /\ t' = <[idx := p]> t /\ parent p <> Some e)
  /\ (forall t idx e p,
        t ∈ templateList0 -> t !! idx = Some e -> parent e = Some p ->
        existsb (template_eqb (<[idx := p]> t)) (widen templateList0) = true)
  /\ (forall (i j : nat) ti tj,
        (i < j)%nat -> widen templateList0 !! i = Some ti ->
        widen templateList0 !! j = Some tj -> template_eqb tj ti = false)
  /\ (widen templateList0 = [] <->
      forall t e, t ∈ templateList0 -> e ∈ t -> parent e = None)
  /\ (forall fuel self template degeneracy,
        templateList0 <> [] -> collect self templateList0 = ret [] ->
        (forall t e, t ∈ templateList0 -> e ∈ t -> parent e = None) ->
        estimate_loop (S (S fuel)) self template degeneracy templateList0
        = Some (raise (Exception
                         ("Unable to determine kinetics for reaction with template "
                          ++ str_template template ++ "."))))
  /\ (forall self template degeneracy (n : nat),
        templateList0 = [template] ->
        (forall m, (m <= n)%nat ->
           collect self (Nat.iter m widen templateList0) = ret []) ->
        Nat.iter (S n) widen templateList0 = [] ->
        estimateKineticsUsingRateRules self template degeneracy
        = raise (Exception
                   ("Unable to determine kinetics for reaction with template "
                    ++ str_template template ++ "."))).
Proof.
  assert (Hfrom : forall t', t' ∈ widen templateList0 ->
            exists t idx e p,
              t ∈ templateList0 /\ t !! idx = Some e /\ parent e = Some p
              /\ t' = <[idx := p]> t /\ parent p <> Some e).
  { intros t' H. apply widen_elem_from in H as [H|(t & idx & e & p & Ht & He & Hp & ->)].
    - by apply elem_of_nil in H.
    - exists t, idx, e, p. repeat split; try done. by apply parent_not_child. }
  assert (Hto : forall t idx e p,
            t ∈ templateList0 -> t !! idx = Some e -> parent e = Some p ->
            existsb (template_eqb (<[idx := p]> t)) (widen templateList0) = true).
  { intros t idx e p Ht He Hp. by apply (widen_covers_from _ [] t idx e p). }
  assert (Hempty : widen templateList0 = [] <->
            forall t e, t ∈ templateList0 -> e ∈ t -> parent e = None).
  { split.
    - intros Hnil t e Ht He. destruct (parent e) as [p|] eqn:Hp; [|done].
      apply list_elem_of_lookup in He as [idx He].
      pose proof (Hto t idx e p Ht He Hp) as Hcov.
      by rewrite Hnil in Hcov.
    - intros Hnone. destruct (widen templateList0) as [|t' l] eqn:E; [done|].
      destruct (Hfrom t') as (t & idx & e & p & Ht & He & Hp & _); [left|].
      rewrite (Hnone t e Ht) in Hp; [done|].
      apply list_elem_of_lookup. eauto. }
  split; [|split; [exact Hfrom|split; [exact Hto|split; [|split;
    [exact Hempty|split]]]]].
  - intros fuel self template degeneracy. apply estimate_loop_step.
  - intros i j ti tj. unfold widen. apply widen_templates_no_repeat.
    intros i' j' ti' tj' _ Hi. by rewrite lookup_nil in Hi.
  - intros fuel self template degeneracy Hne Hc Hnone.
    rewrite estimate_loop_step by done.
    rewrite (proj2 Hempty Hnone). apply estimate_loop_empty.
  - intros self template degeneracy n -> Hc Hend.
    pose proof (estimate_loop_levels n 0 self template degeneracy [template]
                  Hc Hend) as Hraise.
    pose proof (estimateKineticsUsingRateRules_loop self template degeneracy)
      as Hfun.
    apply (estimate_loop_more _ (n + 2 + 0 + (total_depth template + 2)))
      in Hraise; [|lia].
    apply (estimate_loop_more _ (n + 2 + 0 + (total_depth template + 2)))
      in Hfun; [|lia].
    rewrite Hfun in Hraise. by injection Hraise.
Qed.

End Widening.

Lemma estimate_widens_to_parents_witness :
  @widen decades [[Mid; Leaf]] = [[Root; Leaf]; [Mid; Mid]]
  /\ @widen decades [[Root; Leaf]; [Mid; Mid]] = [[Root; Mid]; [Mid; Root]]
  /\ @widen decades [[Root; Root]] = []
  /\ @estimateKineticsUsingRateRules decades sample_collaborators
       (family_of "Sample" []) [Mid; Leaf] 1
     = raise (Exception
                ("Unable to determine kinetics for reaction with template "
                 ++ @str_template decades sample_collaborators [Mid; Leaf]
                 ++ ".")).
Proof.
  split; [reflexivity|]. split; [reflexivity|]. split; [reflexivity|].
  destruct (@estimate_widens_to_parents decades sample_collaborators
              [[Mid; Leaf]]) as (_ & _ & _ & _ & _ & _ & H).
  apply (H (family_of "Sample" []) [Mid; Leaf] 1 3%nat);
    [reflexivity| |reflexivity].
  intros m Hm. destruct m as [|[|[|[|m]]]]; [reflexivity..|lia].
Defined.

(** C1 as stated fails.  With a rule stored at the root only, the template
    [[Mid]] is widened to its parent [[Root]], not to its child [[Leaf]],
    and the estimate comes from the rule of the root. *)
Lemma estimate_does_not_expand_to_children :
  @widen decades [[Mid]] = [[Root]]
  /\ @spec_widen decades sample_children [[Mid]] [Mid] = [[Leaf]]
  /\ exists k,
       @estimateKineticsUsingRateRules decades sample_collaborators root_only [Mid] 1 = ret k
       /\ comment k = "Estimated using template (Root) for rate rule (Mid)".
Proof.
  split; [reflexivity|]. split; [reflexivity|].
  eexists. split; [vm_compute; reflexivity|reflexivity].
Qed.


(** ** Averaging *)

Section Averaging.
Context {fl : Floats}.

(** The first test of the chain holds whatever the units are: its last
    operands are non-empty strings. *)
Lemma averagedUnits_always (Aunits : string) :
  averagedUnits Aunits = ret "m^3/(mol*s)".
Proof.
  unfold averagedUnits. by destruct (Aunits =? "cm^3/(mol*s)")%string.
Qed.

Lemma getAverageKinetics_units kineticsList k :
  getAverageKinetics kineticsList = ret k -> units (A k) = "m^3/(mol*s)".
Proof.
  unfold getAverageKinetics.
  destruct (sum_loop _ _) as [|[[[logA n0] a0] e0]]; simpl; [done|].
  destruct (_ =? _)%nat; [done|].
  destruct (Py.index kineticsList 0) as [|[k0|]]; simpl; try done.
  rewrite averagedUnits_always. simpl.
  destruct (fpow10 _); simpl; [done|]. by intros [= <-].
Qed.

End Averaging.

(** C2 fails on the code.  A single rate law whose pre-exponential factor
    carries the unrecognized units [kg] is averaged without complaint, and
    the result is labelled [m^3/(mol*s)]. *)
Theorem getAverageKinetics_accepts_unrecognized_units :
  ~ In "kg" recognized_units
  /\ exists k,
       @getAverageKinetics decades [Some (unit_rate "kg")] = ret k
       /\ units (A k) = "m^3/(mol*s)".
Proof.
  split.
  - unfold recognized_units. simpl. intros H.
    repeat (destruct H as [H|H]; [discriminate H|]). exact H.
  - eexists. split; [vm_compute; reflexivity|reflexivity].
Qed.

(** ** The combined lookup *)

Section Combined.
Context {fl : Floats} {co : Collaborators}.

Lemma search_no_hit deps reaction template degeneracy returnAllKinetics acc :
  (forall d, d ∈ deps ->
     getKineticsFromDepository d reaction template degeneracy = []) ->
  search deps reaction template degeneracy returnAllKinetics acc = ret (inr acc).
Proof.
  revert acc. induction deps as [|d deps IH]; intros acc Hd; simpl; [done|].
  rewrite (Hd d) by left. simpl. rewrite app_nil_r. apply IH.
  intros d' Hd'. apply Hd. by right.
Qed.

(** The rate-rules estimate is an object whenever it returns. *)
Lemma rate_rules_estimate_is_object self template degeneracy kinetics :
  getKineticsForTemplate self template degeneracy "rate rules" = ret kinetics ->
  exists k, estimateKineticsUsingRateRules self template degeneracy = ret k
            /\ kinetics = Some k.
Proof.
  unfold getKineticsForTemplate. cbn.
  destruct (estimateKineticsUsingRateRules _ _ _) as [|k]; simpl; [done|].
  intros [= <-]. eauto.
Qed.

(** C3, as amended.  Where a rate-law object is true, as every object is
    whose class defines no truth value of its own, the rate-rules estimate
    is never false: the estimator returns a rate law or raises.  So with
    [returnAllKinetics=False], no estimator given and no match in any
    depository, [getKinetics] passes on the exception of the rate-rules
    estimator or returns its rate law at the first return; the
    group-additivity estimate is not computed, and the return that would
    hand out [kinetics] in place of [kinetics2] is not reached. *)
Theorem getKinetics_stale_return_unreachable (self : Family)
    (reaction : Reaction) (template : Template) (degeneracy : Z) :
  (forall k, kinetics_truthy k = true) ->
  (forall d, d ∈ (depositories self ++ [rules self])%list ->
     getKineticsFromDepository d reaction template degeneracy = []) ->
  (forall kinetics,
      getKineticsForTemplate self template degeneracy "rate rules" = ret kinetics ->
      truthy kinetics = true)
  /\ getKinetics self reaction template degeneracy "" false
     = (k <- estimateKineticsUsingRateRules self template degeneracy ;;
        ret (One (Some k, NoSource, None, true))).
Proof.
  intros Htrue Hdeps. split.
  - intros kinetics Hk.
    apply rate_rules_estimate_is_object in Hk as (k & _ & ->). apply Htrue.
  - unfold getKinetics. rewrite (search_no_hit _ _ _ _ _ _ Hdeps).
    cbn [bind ret Py.str_truthy String.eqb negb].
    unfold getKineticsForTemplate at 1. cbn.
    destruct (estimateKineticsUsingRateRules self template degeneracy)
      as [e|k]; simpl; [done|].
    by rewrite Htrue.
Qed.

End Combined.

Lemma getKinetics_stale_return_unreachable_witness :
  exists k,
    @estimateKineticsUsingRateRules decades sample_collaborators zero_at_root
      [Mid] 1 = ret k
    /\ @comment decades k = "Estimated using template (Root) for rate rule (Mid)"
    /\ (forall kinetics,
           @getKineticsForTemplate decades sample_collaborators zero_at_root
             [Mid] 1 "rate rules" = ret kinetics ->
           @truthy decades sample_collaborators kinetics = true)
    /\ @getKinetics decades sample_collaborators zero_at_root tt [Mid] 1 "" false
       = ret (One (Some k, NoSource, None, true)).
Proof.
  eexists. split; [vm_compute; reflexivity|]. split; [reflexivity|].
  destruct (@getKinetics_stale_return_unreachable decades sample_collaborators
              zero_at_root tt [Mid] 1) as [Hobj Hret].
  - reflexivity.
  - intros d Hd. apply list_elem_of_singleton in Hd as ->.
    vm_compute. reflexivity.
  - split; [exact Hobj|]. rewrite Hret. vm_compute. reflexivity.
Defined.

(** C3 as stated fails: there is no such input.  On the sample, where no
    depository matches and the group-additivity estimate is a rate law and
    true, [getKinetics] returns the rate-rules estimate at its first
    return, a rate law that is true although its pre-exponential factor is
    zero; and no family, reaction and template make the rate-rules estimate
    false. *)
Lemma getKinetics_no_stale_input :
  (exists k kinetics2,
      @getKineticsForTemplate decades sample_collaborators zero_at_root [Mid] 1
        "rate rules" = ret (Some k)
      /\ @truthy decades sample_collaborators (Some k) = true
      /\ @getKineticsForTemplate decades sample_collaborators zero_at_root [Mid] 1
           "group additivity" = ret kinetics2
      /\ @truthy decades sample_collaborators kinetics2 = true
      /\ @getKinetics decades sample_collaborators zero_at_root tt [Mid] 1 ""
           false
         = ret (One (Some k, NoSource, None, true)))
  /\ ~ (exists self reaction template degeneracy kinetics kinetics2,
          (forall d, d ∈ (depositories self ++ [rules self])%list ->
             @getKineticsFromDepository decades sample_collaborators d reaction
               template degeneracy = [])
          /\ @getKineticsForTemplate decades sample_collaborators self template
               degeneracy "rate rules" = ret kinetics
          /\ @truthy decades sample_collaborators kinetics = false
          /\ @getKineticsForTemplate decades sample_collaborators self template
               degeneracy "group additivity" = ret kinetics2
          /\ @truthy decades sample_collaborators kinetics2 = true).
Proof.
  split.
  - eexists. eexists. split; [vm_compute; reflexivity|].
    split; [reflexivity|]. split; [vm_compute; reflexivity|].
    split; [reflexivity|]. vm_compute. reflexivity.
  - intros (self & reaction & template & degeneracy & kinetics & kinetics2
            & _ & Hrr & Hfalse & _).
    apply rate_rules_estimate_is_object in Hrr as (k & _ & ->).
    discriminate Hfalse.
Qed.

End RulesFacts.

(** ** Reaction generation *)

Module GenerationFacts.
Import Generation.

Section Facts.
Context {mo : Molecules} {en : Engine}.

Lemma for_each_Forall {X Y} (P : Y -> Prop) (f : X -> result (list Y)) l out :
  (forall x ys, x ∈ l -> f x = ret ys -> Forall P ys) ->
  for_each f l = ret out -> Forall P out.
Proof.
  revert out. induction l as [|x l IH]; intros out Hf; simpl.
  - by intros [= <-].
  - destruct (f x) as [|ys] eqn:Ex; simpl; [done|].
    destruct (for_each f l) as [|zs] eqn:El; simpl; [done|].
    intros [= <-]. apply Forall_app. split.
    + apply (Hf x); [left|done].
    + apply IH; [|done]. intros x' ys' Hx'. apply Hf. by right.
Qed.

Lemma createReaction_fresh rs ps forward r :
  createReaction rs ps forward = Some r -> fresh forward r.
Proof.
  unfold createReaction, fresh, distinct.
  destruct (same_species rs ps) eqn:E; [done|]. intros [= <-].
  by destruct forward.
Qed.

Lemma attempt_fresh self rs maps forward out :
  attempt self rs maps forward = ret out -> Forall (fresh forward) out.
Proof.
  unfold attempt.
  destruct (generateProductStructures self rs maps forward) as [e|[ps|]].
  - destruct e; try done; by intros [= <-].
  - destruct (createReaction rs ps forward) as [r|] eqn:E; intros [= <-];
      [|done]. constructor; [|done]. by apply createReaction_fresh in E.
  - by intros [= <-].
Qed.

Lemma mapped_fresh self reactants templ forward out :
  mapped self reactants templ forward = ret out -> Forall (fresh forward) out.
Proof.
  unfold mapped.
  destruct reactants as [|r0 [|r1 [|? ?]]];
    destruct (t_reactants templ) as [|slot0 [|slot1 [|? ?]]];
    try (by intros [= <-]).
  - apply for_each_Forall. intros molecule ys _.
    apply for_each_Forall. intros map zs _. apply attempt_fresh.
  - apply for_each_Forall. intros moleculeA ys _.
    apply for_each_Forall. intros moleculeB zs _.
    destruct (for_each _ (matchReactantToTemplate moleculeA slot0))
      as [|direct] eqn:Ed; simpl; [done|].
    assert (Forall (fresh forward) direct) as Hd.
    { revert Ed. apply for_each_Forall. intros mapA ? _.
      apply for_each_Forall. intros mapB ? _. apply attempt_fresh. }
    destruct (negb (same_list r0 r1)); simpl.
    + destruct (for_each _ (matchReactantToTemplate moleculeA slot1))
        as [|swapped] eqn:Es; simpl; [done|].
      intros [= <-]. apply Forall_app. split; [done|].
      revert Es. apply for_each_Forall. intros mapA ? _.
      apply for_each_Forall. intros mapB ? _. apply attempt_fresh.
    + intros [= <-]. by rewrite app_nil_r.
Qed.

(** The later stages keep the two sides of each reaction they keep. *)
Lemma fresh_sides forward r r' :
  reactants r' = reactants r -> products r' = products r ->
  reverse r' = reverse r ->
  fresh forward r -> fresh forward r'.
Proof. unfold fresh, distinct. by intros -> -> ->. Qed.

Lemma remove_duplicates_Forall (P : TemplateReaction -> Prop) forward isomers0 rest :
  Forall P rest -> Forall P (remove_duplicates forward isomers0 rest).1.
Proof.
  induction rest as [|r rest IH]; simpl; [done|].
  intros H. apply Forall_cons in H as [Hr Hrest].
  destruct (remove_duplicates forward isomers0 rest) as [kept removed].
  destruct (matches _ _); simpl; [by apply IH|].
  constructor; [done|by apply IH].
Qed.

Lemma remove_duplicates_length forward isomers0 rest :
  (length (remove_duplicates forward isomers0 rest).1 <= length rest)%nat.
Proof.
  induction rest as [|r rest IH]; simpl; [done|].
  destruct (remove_duplicates forward isomers0 rest) as [kept removed].
  destruct (matches _ _); simpl in *; lia.
Qed.

Lemma merge_duplicates_fresh fuel forward n given rxnList0 out :
  Forall (fresh forward) rxnList0 ->
  merge_duplicates fuel forward n given rxnList0 = ret out ->
  Forall (fresh forward) out.
Proof.
  revert rxnList0 out. induction fuel as [|fuel IH]; intros [|r0 rest] out H;
    simpl; try (by intros [= <-]).
  apply Forall_cons in H as [H0 Hrest].
  destruct (match given with
            | Some ps => _
            | None => _
            end) as [|m]; simpl; [done|].
  destruct m; simpl; [|by apply IH].
  pose proof (remove_duplicates_Forall _ forward
                (map generateResonanceIsomers (varying forward r0)) rest Hrest) as Hk.
  destruct (remove_duplicates forward _ rest) as [kept removed]. simpl in Hk.
  destruct (merge_duplicates fuel forward n given kept) as [|l] eqn:E; simpl;
    [done|].
  intros [= <-]. constructor.
  - by apply fresh_sides with r0; destruct r0.
  - by apply (IH kept).
Qed.

Lemma halve_fresh forward rxnList out :
  Forall (fresh forward) rxnList -> halve rxnList = ret out ->
  Forall (fresh forward) out.
Proof.
  revert out. induction rxnList as [|r rest IH]; intros out H; simpl.
  - by intros [= <-].
  - apply Forall_cons in H as [Hr Hrest].
    destruct (_ =? _); [|done].
    destruct (halve rest) as [|rest'] eqn:E; simpl; [done|].
    intros [= <-]. constructor; [|by apply IH].
    by apply fresh_sides with r; destruct r.
Qed.

Lemma annotate_fresh self forward calculate rxnList out :
  Forall (fresh forward) rxnList ->
  annotate self forward calculate rxnList = ret out ->
  Forall (fresh forward) out.
Proof.
  revert out. induction rxnList as [|r rest IH]; intros out H; simpl.
  - by intros [= <-].
  - apply Forall_cons in H as [Hr Hrest].
    destruct (getReactionPairs self r) as [|ps]; simpl; [done|].
    destruct (getReactionTemplate self _) as [|t]; simpl; [done|].
    destruct forward; simpl.
    + destruct (annotate self true calculate rest) as [|rest'] eqn:E; simpl;
        [done|].
      intros [= <-]. constructor; [|by apply IH].
      by apply fresh_sides with r; destruct r.
    + destruct (calculate _) as [|d]; simpl; [done|].
      destruct (annotate self false calculate rest) as [|rest'] eqn:E; simpl;
        [done|].
      intros [= <-]. constructor; [|by apply IH].
      by apply fresh_sides with r; destruct r.
Qed.

Lemma generateReactions_body_fresh calculate self reactants given forward out :
  generateReactions_body calculate self reactants given forward = ret out ->
  Forall (fresh forward) out.
Proof.
  unfold generateReactions_body, merged.
  destruct (if forward then _ else _) as [templ|]; [|by intros [= <-]].
  destruct (mapped self _ templ forward) as [|raw] eqn:Em; simpl; [done|].
  apply mapped_fresh in Em.
  destruct (merge_duplicates _ _ _ _ raw) as [|deduped] eqn:Ed; simpl; [done|].
  apply merge_duplicates_fresh in Ed; [|done].
  destruct (halving_applies self reactants).
  - destruct (halve deduped) as [|halved] eqn:Eh; simpl; [done|].
    apply (halve_fresh forward) in Eh; [|done]. by apply annotate_fresh.
  - simpl. by apply annotate_fresh.
Qed.

(** Going forward the last loop never calls [calculateDegeneracy]. *)
Lemma annotate_forward self c1 c2 rxnList :
  annotate self true c1 rxnList = annotate self true c2 rxnList.
Proof.
  induction rxnList as [|r rest IH]; simpl; [done|]. by rewrite IH.
Qed.

Lemma generateReactions_body_forward c1 c2 self reactants given :
  generateReactions_body c1 self reactants given true
  = generateReactions_body c2 self reactants given true.
Proof.
  unfold generateReactions_body.
  destruct (merged _ _ _ _ _); simpl; [done|].
  destruct (if halving_applies _ _ then _ else _); simpl; [done|].
  apply annotate_forward.
Qed.

End Facts.

Section Claims.
Context {mo : Molecules} {en : Engine}.

(** The fuel [merged] gives the outer loop is enough: more changes
    nothing. *)
Lemma merge_duplicates_fuel fuel1 fuel2 forward n given rxnList0 :
  (length rxnList0 <= fuel1)%nat -> (length rxnList0 <= fuel2)%nat ->
  merge_duplicates fuel1 forward n given rxnList0
  = merge_duplicates fuel2 forward n given rxnList0.
Proof.
  revert fuel2 rxnList0. induction fuel1 as [|fuel1 IH];
    intros fuel2 [|r0 rest] H1 H2; simpl in *; try lia.
  - by destruct fuel2.
  - by destruct fuel2.
  - destruct fuel2 as [|fuel2]; [lia|]. simpl.
    destruct (match given with
              | Some ps => _
              | None => _
              end) as [|m]; simpl; [done|].
    destruct m; simpl; [|apply IH; lia].
    pose proof (remove_duplicates_length forward
                  (map generateResonanceIsomers (varying forward r0)) rest) as Hl.
    destruct (remove_duplicates forward _ rest) as [kept removed]. simpl in Hl.
    by rewrite (IH fuel2 kept) by lia.
Qed.

Lemma calculateDegeneracy_unfold self reaction :
  calculateDegeneracy self reaction
  = bind (generateReactions_inner self (map OneMolecule (reactants reaction))
            (Some (products reaction)) true)
      (fun reactions =>
         if negb (length reactions =? 1)%nat then
           raise (Exception
                    ("Unable to calculate degeneracy for reaction "
                     ++ reaction_str reaction ++ " in reaction family "
                     ++ label self ++ "."))
         else bind (Py.index reactions 0) (fun r => ret (degeneracy r))).
Proof.
  unfold calculateDegeneracy, generateReactions_inner.
  by rewrite (generateReactions_body_forward _ calculateDegeneracy).
Qed.

(** C6.  [calculateDegeneracy] runs the forward generation on the
    reactants of the reaction with its products given.  When that returns
    exactly one reaction the result is its degeneracy; when it returns none
    or several, [calculateDegeneracy] raises [Exception]. *)
Theorem calculateDegeneracy_single (self : Family) (reaction : TemplateReaction)
    (reactions : list TemplateReaction) :
  generateReactions_inner self (map OneMolecule (reactants reaction))
    (Some (products reaction)) true = ret reactions ->
  match reactions with
  | [r] => calculateDegeneracy self reaction = ret (degeneracy r)
  | _ => exists msg, calculateDegeneracy self reaction = raise (Exception msg)
  end.
Proof.
  intros H. rewrite calculateDegeneracy_unfold, H. simpl.
  destruct reactions as [|r [|r' rest]]; simpl; eauto.
Qed.





(** With a symmetric isomorphism test, the test of [__createReaction] does
    not depend on which side is called the reactants. *)
Lemma same_species_sym (rs ps : list Molecule) :
  (forall a b, isIsomorphic a b = isIsomorphic b a) ->
  same_species rs ps = same_species ps rs.
Proof.
  intros Hsym. unfold same_species.
  destruct rs as [|r0 [|r1 [|? ?]]]; destruct ps as [|p0 [|p1 [|? ?]]];
    try reflexivity.
  - apply Hsym.
  - rewrite (Hsym r0 p0), (Hsym r1 p1), (Hsym r0 p1), (Hsym r1 p0).
    rewrite (andb_comm (isIsomorphic p1 r0)). reflexivity.
Qed.

Lemma distinct_not_identity forward r :
  (forall a b, isIsomorphic a b = isIsomorphic b a) ->
  distinct forward r -> not_identity r.
Proof.
  intros Hsym Hd.
  assert (same_species (products r) (reactants r) = false) as H.
  { unfold distinct in Hd. destruct forward; [|done].
    by rewrite same_species_sym. }
  unfold not_identity. split.
  - intros r0 p0 Er Ep. by rewrite Er, Ep in H.
  - intros r0 r1 p0 p1 Er Ep. rewrite Er, Ep in H. simpl in H.
    by apply orb_false_elim in H.
Qed.

Lemma generateReactions_inner_fresh self reactants given forward out :
  generateReactions_inner self reactants given forward = ret out ->
  Forall (fresh forward) out.
Proof. apply generateReactions_body_fresh. Qed.

Lemma attach_reverse_distinct self reactionList out :
  Forall (fresh true) reactionList ->
  attach_reverse self reactionList = ret out ->
  Forall (fun r => distinct true r
                   /\ forall rv, reverse r = Some rv -> distinct true rv) out.
Proof.
  revert out. induction reactionList as [|rxn rest IH]; intros out H; simpl.
  - by intros [= <-].
  - apply Forall_cons in H as [[Hr _] Hrest].
    destruct (generateReactions_inner self _ _ true) as [|reactions] eqn:E;
      simpl; [done|].
    apply generateReactions_inner_fresh in E.
    destruct reactions as [|r [|? ?]]; simpl; try done.
    destruct (attach_reverse self rest) as [|rest'] eqn:Er; simpl; [done|].
    intros [= <-]. constructor; [|by apply IH]. split.
    + unfold distinct in *. by destruct rxn.
    + destruct rxn; simpl. intros rv [= <-].
      apply Forall_cons in E as [[? _] _]. done.
Qed.

(** C10.  With a symmetric isomorphism test, no reaction returned by
    [generateReactions] has its reactants again as products, and neither has
    the reverse reaction attached to it in a family that is its own
    reverse. *)
Theorem generateReactions_never_identity (self : Family)
    (reactants : list Reactant) (out : list TemplateReaction) :
  (forall a b, isIsomorphic a b = isIsomorphic b a) ->
  generateReactions self reactants = ret out ->
  forall r, r ∈ out ->
    not_identity r /\ forall rv, reverse r = Some rv -> not_identity rv.
Proof.
  intros Hsym. unfold generateReactions.
  destruct (generateReactions_inner self reactants None true)
    as [|reactionList] eqn:Ef; simpl; [done|].
  apply generateReactions_inner_fresh in Ef.
  destruct (ownReverse self).
  - (* the forward reactions, each with its reverse attached *)
    intros Ha r Hr. apply attach_reverse_distinct in Ha; [|done].
    rewrite Forall_forall in Ha. destruct (Ha r Hr) as [Hd Hrev]. split.
    + by apply distinct_not_identity with true.
    + intros rv Hrv. apply distinct_not_identity with true; auto.
  - (* the forward reactions followed by the reverse ones *)
    destruct (generateReactions_inner self reactants None false)
      as [|reverseList] eqn:Eb; simpl; [done|].
    apply generateReactions_inner_fresh in Eb.
    intros [= <-] r Hr.
    assert (exists forward, fresh forward r) as (forward & Hd & Hnone).
    { rewrite Forall_forall in Ef, Eb.
      apply elem_of_app in Hr as [Hr|Hr]; [exists true|exists false]; auto. }
    split.
    + by apply distinct_not_identity with forward.
    + intros rv Hrv. congruence.
Qed.

End Claims.

(** *** The generator on the toy chemistry *)

Section Toy.
#[local] Existing Instance toy_molecules.
#[local] Existing Instance toy_engine.

(** One reactant with two mappings onto the template and isomorphic
    products: one reaction of degeneracy 2. *)
Example two_mappings_one_reaction :
  @generateReactions toy_molecules toy_engine toy_isomerization [toy 2]
  = ret [@mkReaction toy_molecules [2%nat] [12%nat] 2 [(2%nat, 12%nat)] [] None].
Proof. vm_compute. reflexivity. Qed.

(** A + A with one mapping per slot: the two assignments of the slots give
    the same products, merged with degeneracy 2 and halved to 1. *)
Example same_reactants_halved :
  @generateReactions_inner toy_molecules toy_engine toy_abstraction
    [toy 1; toy 1] None true
  = ret [@mkReaction toy_molecules [1%nat; 1%nat] [11%nat; 11%nat] 1
           [(1%nat, 11%nat); (1%nat, 11%nat)] [] None].
Proof. vm_compute. reflexivity. Qed.

(** The same pair passed as one list object twice: the swapped assignment
    is not tried, the degeneracy is 1, and the assertion fails. *)
Example odd_degeneracy_raises :
  @generateReactions_inner toy_molecules toy_engine toy_abstraction
    [toy_shared 7 [1%nat]; toy_shared 7 [1%nat]] None true
  = raise AssertionError.
Proof. vm_compute. reflexivity. Qed.


Lemma calculateDegeneracy_single_witness :
  @generateReactions_inner toy_molecules toy_engine toy_isomerization
    (map OneMolecule (reactants (toy_reaction [2%nat] [12%nat] 1)))
    (Some (products (toy_reaction [2%nat] [12%nat] 1))) true
  = ret [@mkReaction toy_molecules [2%nat] [12%nat] 2 [(2%nat, 12%nat)] [] None]
  /\ @calculateDegeneracy toy_molecules toy_engine toy_isomerization
       (toy_reaction [2%nat] [12%nat] 1) = ret 2.
Proof.
  assert (H : @generateReactions_inner toy_molecules toy_engine toy_isomerization
                (map OneMolecule (reactants (toy_reaction [2%nat] [12%nat] 1)))
                (Some (products (toy_reaction [2%nat] [12%nat] 1))) true
              = ret [@mkReaction toy_molecules [2%nat] [12%nat] 2
                       [(2%nat, 12%nat)] [] None])
    by (vm_compute; reflexivity).
  split; [exact H|].
  exact (@calculateDegeneracy_single toy_molecules toy_engine toy_isomerization
           (toy_reaction [2%nat] [12%nat] 1) _ H).
Defined.

(** No reaction gives the products asked for: the generation returns the
    empty list and [calculateDegeneracy] raises. *)
Example calculateDegeneracy_no_match :
  @calculateDegeneracy toy_molecules toy_engine toy_isomerization
    (toy_reaction [2%nat] [13%nat] 1)
  = raise (Exception
             "Unable to calculate degeneracy for reaction toy in reaction family Isomerization.").
Proof. vm_compute. reflexivity. Qed.

Lemma generateReactions_never_identity_witness :
  (forall a b : nat, Nat.eqb a b = Nat.eqb b a)
  /\ @generateReactions toy_molecules toy_engine toy_isomerization [toy 13]
     = ret [@mkReaction toy_molecules [13%nat] [23%nat] 1 [(13%nat, 23%nat)] [] None;
            @mkReaction toy_molecules [3%nat] [13%nat] 3 [(3%nat, 13%nat)] [] None]
  /\ forall r,
       r ∈ [@mkReaction toy_molecules [13%nat] [23%nat] 1 [(13%nat, 23%nat)] [] None;
            @mkReaction toy_molecules [3%nat] [13%nat] 3 [(3%nat, 13%nat)] [] None] ->
       not_identity r /\ forall rv, reverse r = Some rv -> not_identity rv.
Proof.
  assert (Hsym : forall a b : nat, Nat.eqb a b = Nat.eqb b a)
    by (intros a b; apply Nat.eqb_sym).
  assert (Hout : @generateReactions toy_molecules toy_engine toy_isomerization
                   [toy 13]
                 = ret [@mkReaction toy_molecules [13%nat] [23%nat] 1
                          [(13%nat, 23%nat)] [] None;
                        @mkReaction toy_molecules [3%nat] [13%nat] 3
                          [(3%nat, 13%nat)] [] None])
    by (vm_compute; reflexivity).
  split; [exact Hsym|]. split; [exact Hout|].
  exact (@generateReactions_never_identity toy_molecules toy_engine
           toy_isomerization [toy 13] _ Hsym Hout).
Defined.

End Toy.

End GenerationFacts.

(** * Further properties of the code *)

(** ** Recipes *)

Module RecipeExtras.
Import Recipe RecipeFacts.

Section Order.
Context {chem : Chemistry}.

Lemma apply_loop_same_labels doForward acts struct struct' :
  apply_loop doForward acts struct = ret struct' -> same_labels struct' struct.
Proof.
  revert struct. induction acts as [|a acts IH]; intros struct; simpl.
  - by intros [= <-].
  - destruct (applyAction doForward a struct) as [|s1] eqn:E; simpl; [done|].
    intros H. apply IH in H. rewrite applyAction_exec in E.
    apply exec_same_labels in E. unfold same_labels in *. congruence.
Qed.

(** X2.  A recipe that applies changes bonds and free-electron counts
    only: the atoms of the result carry the same labels in the same order
    (so there are as many atoms), and every label finds the same atom. *)
Theorem apply_keeps_labels (self : ReactionRecipe) (struct struct' : Graph)
    (doForward : bool) :
  apply self struct doForward = ret struct' ->
  label <$> atoms struct' = label <$> atoms struct
  /\ length (atoms struct') = length (atoms struct)
  /\ forall l, getLabeledAtom struct' l = getLabeledAtom struct l.
Proof.
  unfold apply. intros H. apply apply_loop_same_labels in H.
  split; [exact H|]. split.
  - unfold same_labels in H.
    rewrite <- (length_fmap label (atoms struct')), H. apply length_fmap.
  - intros l. by apply getLabeledAtom_ext.
Qed.

(** An update that succeeds after an update of another cell succeeds
    before it too, and the two can trade places. *)
Lemma exec_swap o1 o2 s s1 s2 :
  separate o1 o2 -> exec o1 s = ret s1 -> exec o2 s1 = ret s2 ->
  exists s', exec o2 s = ret s' /\ exec o1 s' = ret s2.
Proof.
  intros Hsep H1 H2.
  assert (exists s', exec o2 s = ret s') as [s' Hs'].
  { destruct s as [ats bs].
    destruct o1 as [k1 f1|i1 f1|e1|], o2 as [k2 f2|i2 f2|e2|]; simpl in *;
      try discriminate; eauto.
    - destruct (f1 (bs !! k1)) as [|v1]; [done|]. simpl in H1.
      injection H1 as <-. simpl in H2.
      rewrite lookup_partial_alter_ne in H2 by done.
      destruct (f2 (bs !! k2)); [done|]. simpl. eauto.
    - destruct (f1 (bs !! k1)) as [|v1]; [done|]. simpl in H1.
      injection H1 as <-. simpl in H2.
      destruct (ats !! i2); [|done]. destruct (f2 _); [done|]. simpl. eauto.
    - destruct (ats !! i1) as [a1|]; [|done].
      destruct (f1 _) as [|r1]; [done|]. simpl in H1. injection H1 as <-.
      simpl in H2. destruct (f2 (bs !! k2)); [done|]. simpl. eauto.
    - destruct (ats !! i1) as [a1|]; [|done].
      destruct (f1 _) as [|r1]; [done|]. simpl in H1. injection H1 as <-.
      simpl in H2. rewrite list_lookup_insert_ne in H2 by done.
      destruct (ats !! i2); [|done]. destruct (f2 _); [done|]. simpl. eauto.
    - injection H1 as <-. simpl in H2.
      destruct (f2 (bs !! k2)); [done|]. simpl. eauto.
    - injection H1 as <-. simpl in H2.
      destruct (ats !! i2); [|done]. destruct (f2 _); [done|]. simpl. eauto. }
  exists s'. split; [done|].
  destruct (exec_diamond o1 o2 s s1 s' Hsep H1 Hs') as (s3 & H3 & H4).
  congruence.
Qed.

Lemma applyAction_swap d a b s s1 s2 :
  conflict a b = false ->
  applyAction d a s = ret s1 -> applyAction d b s1 = ret s2 ->
  exists s', applyAction d b s = ret s' /\ applyAction d a s' = ret s2.
Proof.
  intros Hc. rewrite !applyAction_exec. intros H1 H2.
  pose proof (exec_same_labels _ _ _ H1) as L1.
  rewrite (compile_ext d b s1 s L1) in H2.
  destruct (exec_swap _ _ _ _ _ (conflict_separate d d a b s Hc) H1 H2)
    as (s' & Hb & Ha).
  exists s'. split; [done|].
  rewrite applyAction_exec.
  by rewrite (compile_ext d a s' s (exec_same_labels _ _ _ Hb)).
Qed.

End Order.

Lemma apply_keeps_labels_witness :
  @apply molecule_chemistry h_abstraction abstraction_reactants true
  = ret abstraction_products
  /\ label <$> atoms abstraction_products = label <$> atoms abstraction_reactants
  /\ length (atoms abstraction_products) = length (atoms abstraction_reactants)
  /\ forall l, getLabeledAtom abstraction_products l
               = getLabeledAtom abstraction_reactants l.
Proof.
  assert (H : @apply molecule_chemistry h_abstraction abstraction_reactants true
              = ret abstraction_products) by (vm_compute; reflexivity).
  split; [exact H|].
  exact (@apply_keeps_labels molecule_chemistry h_abstraction
           abstraction_reactants abstraction_products true H).
Defined.

Lemma conflict_sym a b : conflict a b = conflict b a.
Proof.
  unfold conflict.
  destruct (tl a) as [|l1 [|x [|l2 [|? ?]]]];
    destruct (tl b) as [|m1 [|y [|m2 [|? ?]]]]; try reflexivity.
  - apply String.eqb_sym.
  - rewrite (String.eqb_sym l1 m1), (String.eqb_sym l2 m2),
      (String.eqb_sym l1 m2), (String.eqb_sym l2 m1).
    by rewrite (andb_comm (m2 =? l1)%string).
Qed.

Lemma forallb_Permutation {X} (f : X -> bool) l l' :
  Permutation l l' -> forallb f l = forallb f l'.
Proof.
  induction 1 as [|x l l' _ IH|x y l|l l' l'' _ IH1 _ IH2]; simpl.
  - done.
  - by rewrite IH.
  - by rewrite !andb_assoc, (andb_comm (f y)).
  - congruence.
Qed.

Lemma independent_Permutation acts acts' :
  Permutation acts acts' -> independent acts = independent acts'.
Proof.
  induction 1 as [|x l l' Hp IH|x y l|l l' l'' _ IH1 _ IH2]; simpl.
  - done.
  - by rewrite IH, (forallb_Permutation _ l l' Hp).
  - rewrite (conflict_sym y x).
    destruct (conflict x y), (forallb _ l), (forallb _ l); simpl; try done.
  - congruence.
Qed.

(** X3.  The order of the actions of a recipe does not matter when no two
    of them address the same bond or the free electrons of the same label:
    if the recipe applies, every reordering of it applies and gives the
    same graph. *)
Theorem apply_order_irrelevant {chem : Chemistry} (self other : ReactionRecipe)
    (struct struct' : Graph) (doForward : bool) :
  independent (actions self) = true ->
  Permutation (actions self) (actions other) ->
  apply self struct doForward = ret struct' ->
  apply other struct doForward = ret struct'.
Proof.
  unfold apply. generalize (actions self) (actions other). clear self other.
  intros acts acts' Hind Hperm. revert struct struct' Hind.
  induction Hperm as [|x l l' Hp IH|x y l|l l' l'' Hp1 IH1 Hp2 IH2];
    intros s s' Hind; simpl in *.
  - done.
  - apply andb_prop in Hind as [_ Hind].
    destruct (applyAction doForward x s) as [|s1]; simpl; [done|]. by apply IH.
  - (* two neighbours trade places *)
    apply andb_prop in Hind as [Hy _]. apply andb_prop in Hy as [Hyx _].
    apply negb_true_iff in Hyx.
    destruct (applyAction doForward y s) as [|s1] eqn:Ey; simpl; [done|].
    destruct (applyAction doForward x s1) as [|s2] eqn:Ex; simpl; [done|].
    intros Hrest.
    destruct (applyAction_swap _ _ _ _ _ _ Hyx Ey Ex) as (s3 & Hx & Hy).
    rewrite Hx. simpl. rewrite Hy. simpl. done.
  - intros H. apply IH2; [|by apply IH1].
    by rewrite <- (independent_Permutation _ _ Hp1).
Qed.

Lemma apply_order_irrelevant_witness :
  let shuffled :=
    mkRecipe [["LOSE_RADICAL"; "*3"; "1"];
              ["FORM_BOND"; "*2"; "S"; "*3"];
              ["GAIN_RADICAL"; "*1"; "1"];
              ["BREAK_BOND"; "*1"; "S"; "*2"]] in
  independent (actions h_abstraction) = true
  /\ Permutation (actions h_abstraction) (actions shuffled)
  /\ @apply molecule_chemistry shuffled abstraction_reactants true
     = ret abstraction_products.
Proof.
  intros shuffled.
  assert (Hp : Permutation (actions h_abstraction) (actions shuffled)).
  { unfold h_abstraction, shuffled. simpl.
    apply Permutation_cons_app with (l1 := [_; _; _]) (l2 := []). simpl.
    symmetry. apply Permutation_cons_app with (l1 := [_; _]) (l2 := []).
    reflexivity. }
  split; [reflexivity|]. split; [exact Hp|].
  apply (@apply_order_irrelevant molecule_chemistry h_abstraction shuffled
           abstraction_reactants abstraction_products true).
  - reflexivity.
  - exact Hp.
  - vm_compute; reflexivity.
Defined.

End RecipeExtras.

(** ** Rate rules *)

Module RulesExtras.
Import Rules RulesFacts.

Section Lookup.
Context {fl : Floats} {co : Collaborators}.

(** What [getRateRule] does with the list of candidates. *)
Lemma getRateRule_of_candidates self template found :
  candidates self template = ret found ->
  (found = [] -> getRateRule self template = raise ValueError)
  /\ (found <> [] ->
      exists e,
        getRateRule self template = ret e
        /\ e ∈ found
        /\ if existsb (fun entry => 0 <? rank entry) found
           then 0 < rank e
                /\ forall e', e' ∈ found -> 0 < rank e' -> lex_le e e'
           else forall e', e' ∈ found -> index e <= index e').
Proof.
  intros Hc. unfold getRateRule. rewrite Hc. simpl. split; [by intros ->|].
  intros Hne. destruct found as [|e1 [|e2 rest]]; [done| |].
  - simpl. exists e1. split; [done|]. split; [left|].
    destruct (0 <? rank e1) eqn:Hr; simpl.
    + apply Z.ltb_lt in Hr. split; [done|]. intros e' He' _.
      apply list_elem_of_singleton in He' as ->. unfold lex_le. lia.
    + intros e' He'. apply list_elem_of_singleton in He' as ->. lia.
  - set (found := e1 :: e2 :: rest) in *.
    change (length found =? 1)%nat with false.
    change (1 <? length found)%nat with true. cbv iota.
    destruct (existsb (fun entry => 0 <? rank entry) found) eqn:Hex.
    + set (ranked := filter (fun entry => bool_decide (0 < rank entry)) found).
      assert (ranked <> []) as Hr.
      { apply existsb_exists in Hex as (x & Hx & Hpos).
        apply Z.ltb_lt in Hpos. intros E.
        assert (x ∈ ranked) as Hin.
        { apply list_elem_of_filter. split; [by apply bool_decide_pack|].
          by apply list_elem_of_In. }
        rewrite E in Hin. by apply elem_of_nil in Hin. }
      destruct (sort_nonempty by_rank_index ranked Hr) as (x & r & Hs).
      destruct (sort_head by_rank_index by_rank_index_total
                  by_rank_index_trans ranked x r Hs) as [Hin Hmin].
      apply list_elem_of_filter in Hin as [Hpos Hin].
      apply bool_decide_unpack in Hpos.
      exists x. rewrite Hs. repeat split; try done.
      intros e' He' Hpos'. apply by_rank_index_spec, Hmin.
      apply list_elem_of_filter. split; [by apply bool_decide_pack|done].
    + destruct (sort_nonempty by_index found Hne) as (x & r & Hs).
      destruct (sort_head by_index by_index_total by_index_trans
                  found x r Hs) as [Hin Hmin].
      exists x. rewrite Hs. repeat split; try done.
      intros e' He'. apply Z.leb_le. by apply Hmin.
Qed.

Lemma hasRateRule_of_candidates self template found :
  candidates self template = ret found ->
  hasRateRule self template = ret (negb (bool_decide (found = []))).
Proof.
  intros Hc. unfold hasRateRule.
  destruct (getRateRule_of_candidates self template found Hc) as [H0 H1].
  destruct found as [|x found].
  - by rewrite H0.
  - destruct H1 as (e & -> & _); done.
Qed.

(** X4.  Outside the recombination family [hasRateRule] never raises, and
    it answers [True] exactly when the rule set stores an entry whose label
    is the labels of the template joined by semicolons. *)
Theorem hasRateRule_iff_stored (self : Family) (template : Template) :
  Py.lower (family_label self) <> "r_recombination" ->
  exists b,
    hasRateRule self template = ret b
    /\ (b = true <->
        exists e, e ∈ entries (rules self)
                  /\ label e = templateLabels template).
Proof.
  intros Hfam. pose proof (candidates_plain self template Hfam) as Hc.
  rewrite (hasRateRule_of_candidates _ _ _ Hc). eexists. split; [done|].
  rewrite negb_true_iff, bool_decide_eq_false. split.
  - intros Hne. destruct (matching self template) as [|e l] eqn:E; [done|].
    exists e. apply matching_elem. rewrite E. left.
  - intros (e & He) E. apply matching_elem in He. rewrite E in He.
    by apply elem_of_nil in He.
Qed.

Lemma entry_eqb_label a b : entry_eqb a b = true -> label a = label b.
Proof.
  destruct a as [ia la pa da ra], b as [ib lb pb db rb]. simpl.
  intros H. apply andb_prop in H as [H _]. by apply String.eqb_eq.
Qed.

Lemma entry_eqb_sym a b : entry_eqb a b = entry_eqb b a.
Proof.
  assert (forall m a b, (depth a <= m)%nat -> entry_eqb a b = entry_eqb b a) as H.
  { clear a b. intros m. induction m as [|m IH];
      intros [ia la [pa|] da ra] [ib lb [pb|] db rb]; simpl; intros Hd;
      rewrite (String.eqb_sym la lb); try done; try lia.
    f_equal. apply IH. lia. }
  by apply (H (depth a)).
Qed.

(** The candidates of the recombination family for a pair of groups and
    for the swapped pair have the same members. *)
Lemma candidates_swapped self t0 t1 :
  Py.lower (family_label self) = "r_recombination" ->
  exists found found',
    candidates self [t0; t1] = ret found
    /\ candidates self [t1; t0] = ret found'
    /\ Permutation found found'.
Proof.
  intros Hfam. unfold candidates. rewrite Hfam. simpl.
  rewrite (entry_eqb_sym t1 t0).
  destruct (entry_eqb t0 t1) eqn:E; simpl; do 2 eexists.
  - split; [done|]. split; [done|].
    apply entry_eqb_label in E. unfold matching, templateLabels. simpl.
    by rewrite E.
  - split; [done|]. split; [done|]. apply Permutation_app_comm.
Qed.

(** X5.  In the recombination family the lookup does not depend on the
    order of the two groups: a rule exists for a pair exactly when one
    exists for the swapped pair, and the rules returned for the two have
    the same index. *)
Theorem recombination_lookup_symmetric (self : Family) (t0 t1 : Entry) :
  Py.lower (family_label self) = "r_recombination" ->
  hasRateRule self [t0; t1] = hasRateRule self [t1; t0]
  /\ forall e e',
       getRateRule self [t0; t1] = ret e ->
       getRateRule self [t1; t0] = ret e' ->
       index e = index e'.
Proof.
  intros Hfam.
  destruct (candidates_swapped self t0 t1 Hfam) as (l & l' & Hl & Hl' & Hp).
  assert (Hnil : l = [] <-> l' = []).
  { split; intros ->;
      [by apply Permutation_nil_l in Hp|by apply Permutation_nil_r in Hp]. }
  split.
  - rewrite (hasRateRule_of_candidates _ _ _ Hl),
      (hasRateRule_of_candidates _ _ _ Hl').
    do 2 f_equal. apply bool_decide_ext. exact Hnil.
  - intros e e' He He'.
    destruct (getRateRule_of_candidates _ _ _ Hl) as [H0 H1].
    destruct (getRateRule_of_candidates _ _ _ Hl') as [H0' H1'].
    assert (l <> []) as Hne.
    { intros E. rewrite (H0 E) in He. discriminate. }
    assert (l' <> []) as Hne' by (by rewrite <- Hnil).
    destruct (H1 Hne) as (x & Hx & Hin & Hmin).
    destruct (H1' Hne') as (x' & Hx' & Hin' & Hmin').
    rewrite He in Hx. injection Hx as <-.
    rewrite He' in Hx'. injection Hx' as <-.
    assert (Hex : existsb (fun entry => 0 <? rank entry) l
                  = existsb (fun entry => 0 <? rank entry) l').
    { apply eq_true_iff_eq. rewrite !existsb_exists.
      split; intros (y & Hy & Hr); exists y; split; try done.
      - by apply (Permutation_in _ Hp).
      - by apply (Permutation_in _ (Permutation_sym Hp)). }
    rewrite <- Hex in Hmin'.
    assert (e ∈ l') as Hel' by (by rewrite <- Hp).
    assert (e' ∈ l) as Hel by (by rewrite Hp).
    destruct (existsb _ l).
    + destruct Hmin as [Hr Hmin], Hmin' as [Hr' Hmin'].
      pose proof (Hmin e' Hel Hr') as L1. pose proof (Hmin' e Hel' Hr) as L2.
      unfold lex_le in *. lia.
    + pose proof (Hmin e' Hel). pose proof (Hmin' e Hel'). lia.
Qed.

(** X6.  When the template itself has a rate rule, the estimate is that
    rule: its rate law with the comment [Exact match found for rate rule
    (labels)] appended and the pre-exponential factor multiplied by the
    degeneracy, and no parent is consulted.  A rule stored without a rate
    law makes the estimate fail with [AttributeError]. *)
Theorem estimate_exact_match (self : Family) (template : Template)
    (degeneracy : Z) (entry : Entry) :
  getRateRule self template = ret entry ->
  estimateKineticsUsingRateRules self template degeneracy
  = match data entry with
    | Some k =>
        ret (scale_A
               (add_comment (add_comment k "Exact match found")
                  (" for rate rule " ++ getTemplateLabel template))
               degeneracy)
    | None => raise AttributeError
    end.
Proof.
  intros H. unfold estimateKineticsUsingRateRules.
  replace (total_depth template + 2)%nat with (S (total_depth template + 1))
    by lia.
  simpl. unfold hasRateRule. rewrite H. simpl.
  unfold estimate_found. simpl.
  destruct (data entry) as [k|]; simpl; [|done].
  by rewrite String.eqb_refl.
Qed.

Lemma collect_none self l :
  (forall t, t ∈ l -> hasRateRule self t = ret false) ->
  collect self l = ret [].
Proof.
  induction l as [|t l IH]; intros H; simpl; [done|].
  rewrite (H t) by left. simpl. apply IH. intros t' Ht'. apply H. by right.
Qed.

Lemma widen_length l t' :
  t' ∈ widen l -> exists t, t ∈ l /\ length t' = length t.
Proof.
  unfold widen. intros H.
  apply widen_elem_from in H as [H|(t & idx & e & p & Ht & _ & _ & ->)].
  - by apply elem_of_nil in H.
  - exists t. split; [done|]. apply length_insert.
Qed.

Lemma estimate_loop_none fuel self template degeneracy l :
  (forall t, length t = length template -> hasRateRule self t = ret false) ->
  (forall t, t ∈ l -> length t = length template) ->
  forall r, estimate_loop fuel self template degeneracy l = Some r ->
  r = raise (Exception
               ("Unable to determine kinetics for reaction with template "
                ++ str_template template ++ ".")).
Proof.
  intros Hno. revert l. induction fuel as [|fuel IH]; intros l Hl r; simpl;
    [done|].
  destruct (0 <? length l)%nat; [|by intros [= <-]].
  rewrite collect_none by (intros t Ht; apply Hno, Hl, Ht). simpl.
  apply IH. intros t' Ht'. apply widen_length in Ht' as (t & Ht & ->).
  by apply Hl.
Qed.

(** X7.  When no tuple of the length of the template has a rate rule, the
    widening runs out of parents and the estimate ends with the exception
    [Unable to determine kinetics for reaction with template ...], the
    template printed as Python prints the list of its entries. *)
Theorem estimate_fails_without_rules (self : Family) (template : Template)
    (degeneracy : Z) :
  (forall t, length t = length template -> hasRateRule self t = ret false) ->
  estimateKineticsUsingRateRules self template degeneracy
  = raise (Exception
             ("Unable to determine kinetics for reaction with template "
              ++ str_template template ++ ".")).
Proof.
  intros Hno.
  apply (estimate_loop_none (total_depth template + 2) self template
           degeneracy [template] Hno).
  - intros t Ht. by apply list_elem_of_singleton in Ht as ->.
  - apply estimateKineticsUsingRateRules_loop.
Qed.

End Lookup.

Lemma hasRateRule_iff_stored_witness :
  exists b,
    hasRateRule two_ranked X_H_Y_rad = ret b
    /\ (b = true <->
        exists e, e ∈ entries (rules two_ranked)
                  /\ label e = templateLabels X_H_Y_rad).
Proof.
  apply (@hasRateRule_iff_stored decades two_ranked X_H_Y_rad).
  vm_compute. discriminate.
Defined.

Lemma recombination_lookup_symmetric_witness :
  let self :=
    family_of "R_Recombination"
      [@rule decades 5 "X_H;Y_rad" 3; @rule decades 9 "Y_rad;X_H" 3] in
  let X_H := @node decades "X_H" None in
  let Y_rad := @node decades "Y_rad" None in
  hasRateRule self [X_H; Y_rad] = hasRateRule self [Y_rad; X_H]
  /\ forall e e',
       getRateRule self [X_H; Y_rad] = ret e ->
       getRateRule self [Y_rad; X_H] = ret e' ->
       index e = index e'.
Proof.
  intros self X_H Y_rad.
  apply (@recombination_lookup_symmetric decades self X_H Y_rad).
  vm_compute. reflexivity.
Defined.

Lemma estimate_exact_match_witness :
  exists k,
    @estimateKineticsUsingRateRules decades sample_collaborators root_only [Root] 2 = ret k
    /\ @comment decades k = "Exact match found for rate rule (Root)"
    /\ @value_si decades (@A decades k) = 20%Q.
Proof.
  eexists. split.
  - rewrite (@estimate_exact_match decades sample_collaborators root_only
               [Root] 2
               (mkEntry 1 "Root" None (Some (unit_rate "m^3/(mol*s)")) 1))
      by (vm_compute; reflexivity).
    simpl. reflexivity.
  - split; vm_compute; reflexivity.
Defined.

Lemma estimate_fails_without_rules_witness :
  @estimateKineticsUsingRateRules decades sample_collaborators
    (family_of "Sample" []) [Leaf] 1
  = raise (Exception
             ("Unable to determine kinetics for reaction with template "
              ++ "[<Entry index=-1 label=" ++ Recipe.dquote ++ "Leaf"
              ++ Recipe.dquote ++ ">]" ++ ".")).
Proof.
  apply (@estimate_fails_without_rules decades sample_collaborators
           (family_of "Sample" []) [Leaf] 1).
  intros t _. reflexivity.
Defined.

Section Depositories.
Context {fl : Floats} {co : Collaborators}.

(** X8.  The list of tuples the widening builds holds no tuple twice: a
    tuple equal to one already in the list is not appended. *)
Theorem widen_no_repeat (templateList0 : list Template) (i j : nat)
    (ti tj : Template) :
  (i < j)%nat ->
  widen templateList0 !! i = Some ti ->
  widen templateList0 !! j = Some tj ->
  template_eqb tj ti = false.
Proof.
  unfold widen. apply widen_templates_no_repeat.
  intros i' j' ti' tj' _ Hi. by rewrite lookup_nil in Hi.
Qed.

Lemma elem_In s l : Py.elem s l = true <-> In s l.
Proof.
  unfold Py.elem. rewrite existsb_exists. split.
  - intros (x & Hx & E). apply String.eqb_eq in E. by subst.
  - intros H. exists s. split; [done|apply String.eqb_refl].
Qed.

(** X9.  A depository of rules is searched by the set of labels: two
    templates with the same labels, in whatever order and number, get the
    same list of rules from it. *)
Theorem rules_depository_by_label_set (depository : Depository)
    (reaction : Reaction) (template template' : Template) (degeneracy : Z) :
  Py.endswith (dep_label depository) "rules" = true ->
  (forall g, In g (map label template) <-> In g (map label template')) ->
  getKineticsFromDepository depository reaction template degeneracy
  = getKineticsFromDepository depository reaction template' degeneracy.
Proof.
  intros Hr Hs. unfold getKineticsFromDepository. rewrite Hr. f_equal.
  apply flat_map_ext. intros entry. cbv zeta.
  assert (forallb (fun group => Py.elem group (Py.split ";" (label entry)))
            (map label template)
          = forallb (fun group => Py.elem group (Py.split ";" (label entry)))
              (map label template')) as ->.
  { apply eq_true_iff_eq. rewrite !forallb_forall.
    split; intros H g Hg; apply H, Hs, Hg. }
  assert (forallb (fun group => Py.elem group (map label template))
            (Py.split ";" (label entry))
          = forallb (fun group => Py.elem group (map label template'))
              (Py.split ";" (label entry))) as ->; [|done].
  apply eq_true_iff_eq. rewrite !forallb_forall.
  split; intros H g Hg; apply elem_In, Hs, elem_In, H, Hg.
Qed.

Lemma search_all deps reaction template degeneracy acc :
  search deps reaction template degeneracy true acc
  = ret (inr (acc
              ++ flat_map
                   (fun depository =>
                      map (fun x : option ArrheniusEP * Entry * bool =>
                             let '(kinetics, entry, isForward) := x in
                             (kinetics, FromDepository depository, Some entry,
                              isForward))
                        (getKineticsFromDepository depository reaction template
                           degeneracy))
                   deps)%list).
Proof.
  revert acc. induction deps as [|d deps IH]; intros acc; simpl.
  - by rewrite app_nil_r.
  - rewrite andb_false_r, IH. by rewrite app_assoc.
Qed.

(** X10.  Asked for all kinetics, [getKinetics] consults every depository
    and then the rule set, lists their matches in that order, and appends
    the estimates that count as true: that of the estimator named, or
    without a name the rate-rule estimate and then the group-additivity
    one.  An exception of an estimator is raised whatever the depositories
    gave, and [UndeterminableKineticsError] is not raised by the function
    itself. *)
Theorem getKinetics_all (self : Family) (reaction : Reaction)
    (template : Template) (degeneracy : Z) (estimator : string) :
  let hits :=
    flat_map
      (fun depository =>
         map (fun x : option ArrheniusEP * Entry * bool =>
                let '(kinetics, entry, isForward) := x in
                (kinetics, FromDepository depository, Some entry, isForward))
           (getKineticsFromDepository depository reaction template degeneracy))
      (depositories self ++ [rules self])%list in
  getKinetics self reaction template degeneracy estimator true
  = if Py.str_truthy estimator then
      kinetics <- getKineticsForTemplate self template degeneracy estimator ;;
      ret (All (hits ++ (if truthy kinetics
                         then [(kinetics, NoSource, None, true)] else []))%list)
    else
      kinetics <- getKineticsForTemplate self template degeneracy "rate rules" ;;
      kinetics2 <-
        getKineticsForTemplate self template degeneracy "group additivity" ;;
      ret (All (hits
                ++ (if truthy kinetics
                    then [(kinetics, FromEstimator "rate rules", None, true)]
                    else [])
                ++ (if truthy kinetics2
                    then [(kinetics2, FromEstimator "group additivity", None,
                           true)]
                    else []))%list).
Proof.
  intros hits. unfold getKinetics. rewrite search_all. simpl. fold hits.
  destruct (Py.str_truthy estimator).
  - destruct (getKineticsForTemplate self template degeneracy estimator)
      as [|kinetics]; simpl; [done|].
    rewrite andb_false_r. simpl.
    destruct (truthy kinetics); [done|]. by rewrite app_nil_r.
  - destruct (getKineticsForTemplate self template degeneracy "rate rules")
      as [|kinetics]; simpl; [done|].
    rewrite andb_false_r. simpl.
    destruct (getKineticsForTemplate self template degeneracy "group additivity")
      as [|kinetics2]; simpl; [done|].
    rewrite andb_false_r. simpl.
    destruct (truthy kinetics), (truthy kinetics2); simpl;
      rewrite ?app_nil_r, <- ?app_assoc; done.
Qed.

Lemma by_hit_rank_index_total x y :
  by_hit_rank_index x y = true \/ by_hit_rank_index y x = true.
Proof.
  unfold by_hit_rank_index, pair_le. simpl.
  rewrite !orb_true_iff, !andb_true_iff, !Z.ltb_lt, !Z.eqb_eq, !Z.leb_le. lia.
Qed.

Lemma by_hit_rank_index_trans x y z :
  by_hit_rank_index x y = true -> by_hit_rank_index y z = true ->
  by_hit_rank_index x z = true.
Proof.
  unfold by_hit_rank_index, pair_le. simpl.
  rewrite !orb_true_iff, !andb_true_iff, !Z.ltb_lt, !Z.eqb_eq, !Z.leb_le. lia.
Qed.

Lemma by_hit_rank_index_lex x y :
  by_hit_rank_index x y = true -> lex_le x.1.2 y.1.2.
Proof.
  unfold by_hit_rank_index, pair_le, lex_le. simpl.
  rewrite !orb_true_iff, !andb_true_iff, !Z.ltb_lt, !Z.eqb_eq, !Z.leb_le. lia.
Qed.

Lemma forallb_false_ex {X} (f : X -> bool) l :
  forallb f l = false -> exists x, x ∈ l /\ f x = false.
Proof.
  induction l as [|a l IH]; simpl; [done|].
  destruct (f a) eqn:E; simpl.
  - intros H. destruct (IH H) as (x & Hx & Hf). exists x. split; [by right|done].
  - intros _. exists a. split; [left|done].
Qed.

Lemma search_skip pre rest reaction template degeneracy returnAllKinetics acc :
  (forall d, d ∈ pre ->
     getKineticsFromDepository d reaction template degeneracy = []) ->
  search (pre ++ rest) reaction template degeneracy returnAllKinetics acc
  = search rest reaction template degeneracy returnAllKinetics acc.
Proof.
  revert acc. induction pre as [|d pre IH]; intros acc Hd; simpl; [done|].
  rewrite (Hd d) by left. simpl. rewrite app_nil_r. apply IH.
  intros d' Hd'. apply Hd. by right.
Qed.

Lemma search_hit d rest reaction template degeneracy acc :
  let hits := getKineticsFromDepository d reaction template degeneracy in
  hits <> [] ->
  exists kinetics entry isForward,
    search (d :: rest) reaction template degeneracy false acc
    = ret (inl (kinetics, FromDepository d, Some entry, isForward))
    /\ (kinetics, entry, isForward) ∈ hits
    /\ (rank entry = 0 -> forall x, x ∈ hits -> rank x.1.2 = 0)
    /\ (forall x, x ∈ hits -> rank x.1.2 <> 0 \/ rank entry = 0 ->
          lex_le entry x.1.2).
Proof.
  intros hits Hne. simpl. fold hits.
  destruct hits as [|h0 hs] eqn:Eh; [done|]. rewrite <- Eh in *. clear Hne.
  assert (hits <> []) as Hne by (by rewrite Eh).
  replace (0 <? length hits)%nat with true by (by rewrite Eh).
  simpl.
  destruct (existsb (fun x => rank x.1.2 =? 0) hits
            && negb (forallb (fun x => rank x.1.2 =? 0) hits)) eqn:E.
  - apply andb_prop in E as [_ E]. apply negb_true_iff in E.
    apply forallb_false_ex in E as (y & Hy & Hry). apply Z.eqb_neq in Hry.
    set (ranked := filter (fun x => bool_decide (rank x.1.2 <> 0)) hits).
    assert (ranked <> []) as Hr.
    { intros E. assert (y ∈ ranked) as Hin.
      { apply list_elem_of_filter. split; [by apply bool_decide_pack|done]. }
      rewrite E in Hin. by apply elem_of_nil in Hin. }
    destruct (sort_nonempty by_hit_rank_index ranked Hr) as (x & r & Hs).
    destruct (sort_head by_hit_rank_index by_hit_rank_index_total
                by_hit_rank_index_trans ranked x r Hs) as [Hin Hmin].
    apply list_elem_of_filter in Hin as [Hpos Hin].
    apply bool_decide_unpack in Hpos.
    rewrite Hs. destruct x as [[k e] f]. simpl in *.
    exists k, e, f. split; [done|]. split; [done|]. split; [done|].
    intros x Hx [Hnz|Hz]; [|done].
    apply (by_hit_rank_index_lex (k, e, f) x), Hmin.
    apply list_elem_of_filter. split; [by apply bool_decide_pack|done].
  - destruct (sort_nonempty by_hit_rank_index hits Hne) as (x & r & Hs).
    destruct (sort_head by_hit_rank_index by_hit_rank_index_total
                by_hit_rank_index_trans hits x r Hs) as [Hin Hmin].
    rewrite Hs. destruct x as [[k e] f]. simpl in *.
    exists k, e, f. split; [done|]. split; [done|]. split.
    + intros Hz x Hx.
      apply andb_false_iff in E as [E|E].
      * assert (existsb (fun x => rank x.1.2 =? 0) hits = true) as E';
          [|congruence].
        apply existsb_exists. exists (k, e, f).
        split; [by apply list_elem_of_In|]. simpl. by apply Z.eqb_eq.
      * apply negb_false_iff in E.
        apply Z.eqb_eq. apply (proj1 (forallb_forall _ _) E).
        by apply list_elem_of_In.
    + intros x Hx _. by apply (by_hit_rank_index_lex (k, e, f) x), Hmin.
Qed.

(** X11.  Asked for one result, [getKinetics] answers from the first
    depository (the rule set last) that has a match, and never reaches an
    estimator: of the matches of that depository it returns one with the
    lowest (rank, index), where rank 0 loses to every other rank as soon as
    one match has another rank. *)
Theorem getKinetics_first_depository (self : Family) (reaction : Reaction)
    (template : Template) (degeneracy : Z) (estimator : string)
    (pre post : list Depository) (d : Depository) :
  (depositories self ++ [rules self])%list = (pre ++ d :: post)%list ->
  (forall d', d' ∈ pre ->
     getKineticsFromDepository d' reaction template degeneracy = []) ->
  getKineticsFromDepository d reaction template degeneracy <> [] ->
  exists kinetics entry isForward,
    getKinetics self reaction template degeneracy estimator false
    = ret (One (kinetics, FromDepository d, Some entry, isForward))
    /\ (kinetics, entry, isForward)
         ∈ getKineticsFromDepository d reaction template degeneracy
    /\ (rank entry = 0 ->
        forall x, x ∈ getKineticsFromDepository d reaction template degeneracy ->
                  rank x.1.2 = 0)
    /\ (forall x, x ∈ getKineticsFromDepository d reaction template degeneracy ->
          rank x.1.2 <> 0 \/ rank entry = 0 -> lex_le entry x.1.2).
Proof.
  intros Hd Hpre Hhit. unfold getKinetics. rewrite Hd, search_skip by done.
  destruct (search_hit d post reaction template degeneracy [] Hhit)
    as (k & e & f & -> & H). simpl. by exists k, e, f.
Qed.

(** X12.  With no match in any depository and an estimator named whose
    estimate counts as false, [getKinetics] raises
    [UndeterminableKineticsError] when one result is asked for, and returns
    the empty list when all are. *)
Theorem getKinetics_undeterminable (self : Family) (reaction : Reaction)
    (template : Template) (degeneracy : Z) (estimator : string)
    (kinetics : option ArrheniusEP) :
  (forall d, d ∈ (depositories self ++ [rules self])%list ->
     getKineticsFromDepository d reaction template degeneracy = []) ->
  Py.str_truthy estimator = true ->
  getKineticsForTemplate self template degeneracy estimator = ret kinetics ->
  truthy kinetics = false ->
  getKinetics self reaction template degeneracy estimator false
  = raise UndeterminableKineticsError
  /\ getKinetics self reaction template degeneracy estimator true
     = ret (All []).
Proof.
  intros Hd He Hk Ht. unfold getKinetics.
  rewrite !search_no_hit by done. simpl. rewrite He, Hk. simpl.
  by rewrite Ht.
Qed.

(** X13.  The group-additivity estimate starts from the rate law of the
    first reactant of the forward template that has one, and is [None]
    when none has: later reactants are not looked at. *)
Theorem groupAdditivity_first_data (self : Family) (template : Template)
    (degeneracy : Z) :
  estimateKineticsUsingGroupAdditivity self template degeneracy
  = match head (omap data (forwardTemplate_reactants self)) with
    | Some k => groups_estimate template k degeneracy
    | None => ret None
    end.
Proof.
  unfold estimateKineticsUsingGroupAdditivity.
  generalize (forwardTemplate_reactants self). intros l.
  set (f := fun (kinetics : option ArrheniusEP) (entry : Entry) =>
              match kinetics, data entry with
              | None, Some d => Some d
              | _, _ => kinetics
              end).
  assert (forall l k, fold_left f l (Some k) = Some k) as Hsome.
  { clear l. induction l as [|e l IH]; intros k; simpl; [done|]. apply IH. }
  assert (fold_left f l None = head (omap data l)) as ->.
  { induction l as [|e l IH]; simpl; [done|].
    destruct (data e) as [k|]; simpl; [apply Hsome|apply IH]. }
  by destruct (head _).
Qed.

End Depositories.

Lemma widen_no_repeat_witness :
  let l := [[Leaf; Leaf]] in
  @widen decades l !! 0%nat = Some [Mid; Leaf]
  /\ @widen decades l !! 1%nat = Some [Leaf; Mid]
  /\ @template_eqb decades [Leaf; Mid] [Mid; Leaf] = false.
Proof.
  intros l.
  assert (H0 : @widen decades l !! 0%nat = Some [Mid; Leaf]) by reflexivity.
  assert (H1 : @widen decades l !! 1%nat = Some [Leaf; Mid]) by reflexivity.
  split; [exact H0|]. split; [exact H1|].
  apply (@widen_no_repeat decades l 0 1 [Mid; Leaf] [Leaf; Mid]); [lia|done..].
Defined.

Lemma rules_depository_by_label_set_witness :
  let self := rules two_ranked in
  let X_H := @node decades "X_H" None in
  let Y_rad := @node decades "Y_rad" None in
  length (@getKineticsFromDepository decades sample_collaborators self tt
            [X_H; Y_rad] 1) = 2%nat
  /\ @getKineticsFromDepository decades sample_collaborators self tt
       [X_H; Y_rad] 1
     = @getKineticsFromDepository decades sample_collaborators self tt
         [Y_rad; X_H; Y_rad] 1.
Proof.
  intros self X_H Y_rad. split; [reflexivity|].
  apply (@rules_depository_by_label_set decades sample_collaborators self tt
           [X_H; Y_rad] [Y_rad; X_H; Y_rad] 1).
  - reflexivity.
  - intros g. simpl. tauto.
Defined.

Lemma getKinetics_first_depository_witness :
  exists kinetics entry isForward,
    @getKinetics decades sample_collaborators ranked_and_placeholder tt
      X_H_Y_rad 1 "" false
    = ret (One (kinetics, FromDepository (rules ranked_and_placeholder),
                Some entry, isForward))
    /\ index entry = 2.
Proof.
  destruct (@getKinetics_first_depository decades sample_collaborators
              ranked_and_placeholder tt X_H_Y_rad 1 "" []
              [] (rules ranked_and_placeholder))
    as (k & e & f & H & Hin & Hz & Hmin).
  - reflexivity.
  - intros d' Hd'. by apply elem_of_nil in Hd'.
  - vm_compute. discriminate.
  - exists k, e, f. split; [exact H|].
    vm_compute in H. by injection H as <- <- <-.
Defined.

Lemma getKinetics_undeterminable_witness :
  @getKinetics decades sample_collaborators root_only tt [Mid] 1
    "group additivity" false
  = raise UndeterminableKineticsError
  /\ @getKinetics decades sample_collaborators root_only tt [Mid] 1
       "group additivity" true
     = ret (All []).
Proof.
  apply (@getKinetics_undeterminable decades sample_collaborators root_only
           tt [Mid] 1 "group additivity" None).
  - intros d Hd. simpl in Hd. apply list_elem_of_singleton in Hd as ->.
    reflexivity.
  - reflexivity.
  - vm_compute. reflexivity.
  - reflexivity.
Defined.


End RulesExtras.

(** ** Reaction generation *)

Module GenerationExtras.
Import Generation GenerationFacts.

Section Stages.
Context {mo : Molecules} {en : Engine}.

(** A reaction made from one combination of mappings has degeneracy 1 and,
    on the side the generation starts from, the molecules it was made
    from. *)
Lemma attempt_shape self rs maps forward out :
  attempt self rs maps forward = ret out ->
  Forall (fun r => degeneracy r = 1
                   /\ (if forward then reactants r else products r) = rs) out.
Proof.
  unfold attempt.
  destruct (generateProductStructures self rs maps forward) as [e|[ps|]].
  - destruct e; try done; by intros [= <-].
  - unfold createReaction. destruct (same_species rs ps); intros [= <-]; [done|].
    constructor; [|done]. by destruct forward.
  - by intros [= <-].
Qed.

Lemma mapped_shape self rs templ forward out :
  mapped self rs templ forward = ret out ->
  Forall (fun r => degeneracy r = 1
                   /\ Forall2 (fun m (w : option nat * list Molecule) => m ∈ w.2)
                        (if forward then reactants r else products r) rs) out.
Proof.
  unfold mapped.
  destruct rs as [|r0 [|r1 [|? ?]]];
    destruct (t_reactants templ) as [|slot0 [|slot1 [|? ?]]];
    try (by intros [= <-]).
  - apply for_each_Forall. intros molecule ys Hm.
    apply for_each_Forall. intros map zs _ Ha. apply attempt_shape in Ha.
    eapply Forall_impl; [exact Ha|]. simpl. intros r [Hd ->].
    split; [done|]. by repeat constructor.
  - apply for_each_Forall. intros moleculeA ys HA.
    apply for_each_Forall. intros moleculeB zs HB.
    assert (forall slotA slotB l,
               for_each
                 (fun mapA =>
                    for_each
                      (fun mapB =>
                         attempt self [moleculeA; moleculeB] [mapA; mapB] forward)
                      (matchReactantToTemplate moleculeB slotB))
                 (matchReactantToTemplate moleculeA slotA) = ret l ->
               Forall (fun r => degeneracy r = 1
                        /\ Forall2 (fun m (w : option nat * list Molecule) => m ∈ w.2)
                             (if forward then reactants r else products r)
                             [r0; r1]) l) as Hboth.
    { intros slotA slotB l. apply for_each_Forall. intros mapA ? _.
      apply for_each_Forall. intros mapB ? _ Ha. apply attempt_shape in Ha.
      eapply Forall_impl; [exact Ha|]. simpl. intros r [Hd ->].
      split; [done|]. by repeat constructor. }
    destruct (for_each _ (matchReactantToTemplate moleculeA slot0))
      as [|direct] eqn:Ed; simpl; [done|].
    apply Hboth in Ed.
    destruct (negb (same_list r0 r1)); simpl.
    + destruct (for_each _ (matchReactantToTemplate moleculeA slot1))
        as [|swapped] eqn:Es; simpl; [done|].
      apply Hboth in Es. intros [= <-]. by apply Forall_app.
    + intros [= <-]. by rewrite app_nil_r.
Qed.

Lemma remove_duplicates_count forward isomers0 rest :
  Z.of_nat (length (remove_duplicates forward isomers0 rest).1)
  + (remove_duplicates forward isomers0 rest).2
  = Z.of_nat (length rest)
  /\ 0 <= (remove_duplicates forward isomers0 rest).2.
Proof.
  induction rest as [|r rest IH]; simpl; [done|].
  destruct (remove_duplicates forward isomers0 rest) as [kept removed].
  destruct (matches _ _); simpl in *; lia.
Qed.

Lemma remove_duplicates_kept forward isomers0 rest x :
  x ∈ (remove_duplicates forward isomers0 rest).1 ->
  x ∈ rest /\ matches (varying forward x) isomers0 = false.
Proof.
  induction rest as [|r rest IH]; simpl; [by intros H%elem_of_nil|].
  destruct (remove_duplicates forward isomers0 rest) as [kept removed].
  destruct (matches (varying forward r) isomers0) eqn:E; simpl in *.
  - intros H. destruct (IH H). split; [by right|done].
  - intros H. apply elem_of_cons in H as [->|H].
    + split; [left|done].
    + destruct (IH H). split; [by right|done].
Qed.

(** The outer loop with no products given never fails, and the
    degeneracies it leaves add up to the number of reactions it started
    from. *)
Lemma merge_duplicates_sum fuel forward n rxnList0 :
  Forall (fun r => degeneracy r = 1) rxnList0 ->
  (length rxnList0 <= fuel)%nat ->
  exists out,
    merge_duplicates fuel forward n None rxnList0 = ret out
    /\ fold_right Z.add 0 (map degeneracy out) = Z.of_nat (length rxnList0).
Proof.
  revert rxnList0. induction fuel as [|fuel IH]; intros [|r0 rest] H Hlen;
    simpl in *; try lia; try (by exists []).
  apply Forall_cons in H as [H0 Hrest].
  pose proof (remove_duplicates_Forall _ forward
                (map generateResonanceIsomers (varying forward r0)) rest Hrest) as Hk.
  pose proof (remove_duplicates_count forward
                (map generateResonanceIsomers (varying forward r0)) rest) as [Hc _].
  pose proof (remove_duplicates_length forward
                (map generateResonanceIsomers (varying forward r0)) rest) as Hl.
  destruct (remove_duplicates forward _ rest) as [kept removed]. simpl in *.
  destruct (IH kept Hk) as (out & -> & Hsum); [lia|]. simpl.
  eexists. split; [reflexivity|]. simpl. lia.
Qed.

(** X14.  Merging duplicates loses no reaction path: with no products
    given, the loop does not fail, and the degeneracies of the reactions it
    keeps add up to the number of reactions made from the mappings. *)
Theorem merging_conserves_degeneracy (self : Family) (reactants : list Reactant)
    (forward : bool) (templ : Template) (raw : list TemplateReaction) :
  mapped self (map wrap reactants) templ forward = ret raw ->
  exists deduped,
    merged self reactants None forward templ = ret deduped
    /\ fold_right Z.add 0 (map degeneracy deduped) = Z.of_nat (length raw).
Proof.
  intros Hm. unfold merged. rewrite Hm. simpl.
  apply merge_duplicates_sum; [|done].
  apply mapped_shape in Hm. eapply Forall_impl; [exact Hm|]. by intros r [? _].
Qed.

Lemma mapped_arity self rs templ forward :
  length rs <> length (t_reactants templ) \/ (2 < length rs)%nat \/ rs = [] ->
  mapped self rs templ forward = ret [].
Proof.
  unfold mapped.
  destruct rs as [|r0 [|r1 [|? ?]]];
    destruct (t_reactants templ) as [|slot0 [|slot1 [|? ?]]];
    simpl; try done; intros [H|[H|H]]; try done; lia.
Qed.

(** X15.  The generator returns the empty list, without looking at any
    molecule, when the number of reactants is not the number the template
    expects, when there are more than two reactants or none, and in reverse
    when the family has no reverse template. *)
Theorem generateReactions_inner_arity (self : Family) (reactants : list Reactant)
    (given : option (list Molecule)) (forward : bool) :
  match (if forward then Some (forwardTemplate self) else reverseTemplate self) with
  | None => True
  | Some templ =>
      length reactants <> length (t_reactants templ)
      \/ (2 < length reactants)%nat \/ reactants = []
  end ->
  generateReactions_inner self reactants given forward = ret [].
Proof.
  unfold generateReactions_inner, generateReactions_body, merged.
  destruct (if forward then _ else _) as [templ|]; [|done].
  intros H. rewrite mapped_arity.
  - simpl. by destruct (halving_applies self reactants).
  - rewrite length_map. destruct H as [H|[H|H]]; [by left|by right; left|].
    right; right. by rewrite H.
Qed.

(** Each later stage keeps the reactions in place, with their two
    sides. *)
Lemma merge_duplicates_from fuel forward n given rxnList0 out :
  merge_duplicates fuel forward n given rxnList0 = ret out ->
  forall b, b ∈ out ->
    exists a, a ∈ rxnList0 /\ reactants b = reactants a
              /\ products b = products a /\ degeneracy a <= degeneracy b.
Proof.
  revert rxnList0 out. induction fuel as [|fuel IH]; intros [|r0 rest] out;
    simpl; try (by intros [= <-] b Hb%elem_of_nil).
  destruct (match given with
            | Some ps => _
            | None => _
            end) as [|m]; simpl; [done|].
  destruct m; simpl.
  - pose proof (remove_duplicates_kept forward
                  (map generateResonanceIsomers (varying forward r0)) rest) as Hk.
    pose proof (remove_duplicates_count forward
                  (map generateResonanceIsomers (varying forward r0)) rest)
      as [_ Hc].
    destruct (remove_duplicates forward _ rest) as [kept removed]. simpl in *.
    destruct (merge_duplicates fuel forward n given kept) as [|l] eqn:E; simpl;
      [done|].
    intros [= <-] b Hb. apply elem_of_cons in Hb as [->|Hb].
    + exists r0. split; [left|]. destruct r0; simpl. repeat split; try done. lia.
    + destruct (IH kept l E b Hb) as (a & Ha & H).
      exists a. split; [|done]. right. by apply Hk.
  - intros H b Hb. destruct (IH rest out H b Hb) as (a & Ha & H').
    exists a. split; [by right|done].
Qed.

Lemma merge_duplicates_no_duplicates fuel forward n given rxnList0 out :
  merge_duplicates fuel forward n given rxnList0 = ret out ->
  forall (i j : nat) a b, (i < j)%nat -> out !! i = Some a -> out !! j = Some b ->
    matches (varying forward b)
            (map generateResonanceIsomers (varying forward a)) = false.
Proof.
  revert rxnList0 out. induction fuel as [|fuel IH]; intros [|r0 rest] out;
    simpl; try (by intros [= <-] i j a b _ Hi; rewrite lookup_nil in Hi).
  destruct (match given with
            | Some ps => _
            | None => _
            end) as [|m]; simpl; [done|].
  destruct m; simpl; [|by apply IH].
  pose proof (remove_duplicates_kept forward
                (map generateResonanceIsomers (varying forward r0)) rest) as Hk.
  destruct (remove_duplicates forward _ rest) as [kept removed]. simpl in *.
  destruct (merge_duplicates fuel forward n given kept) as [|l] eqn:E; simpl;
    [done|].
  intros [= <-] i j a b Hij Hi Hj.
  destruct j as [|j]; [lia|]. simpl in Hj.
  destruct i as [|i]; simpl in Hi.
  - injection Hi as <-.
    assert (b ∈ l) as Hb by (by apply list_elem_of_lookup_2 with j).
    destruct (merge_duplicates_from _ _ _ _ _ _ E b Hb) as (x & Hx & Hr & Hp & _).
    apply Hk in Hx as [_ Hx].
    replace (varying forward (set_degeneracy r0 (degeneracy r0 + removed)))
      with (varying forward r0) by (by destruct r0, forward).
    replace (varying forward b) with (varying forward x); [done|].
    unfold varying. by rewrite Hr, Hp.
  - apply (IH kept l E i j); [lia|done..].
Qed.

Lemma halve_Forall2 rxnList out :
  halve rxnList = ret out ->
  Forall2 (fun a b => reactants b = reactants a /\ products b = products a
                      /\ degeneracy a = 2 * degeneracy b) rxnList out.
Proof.
  revert out. induction rxnList as [|r rest IH]; intros out; simpl.
  - intros [= <-]. constructor.
  - destruct (degeneracy r mod 2 =? 0) eqn:E; [|done].
    destruct (halve rest) as [|rest'] eqn:Eh; simpl; [done|].
    intros [= <-]. constructor; [|by apply IH].
    apply Z.eqb_eq in E. destruct r; simpl in *. repeat split.
    pose proof (Z.div_mod degeneracy0 2). lia.
Qed.

Lemma annotate_Forall2 self forward calculate rxnList out :
  annotate self forward calculate rxnList = ret out ->
  Forall2 (fun a b => reactants b = reactants a /\ products b = products a
                      /\ if forward then degeneracy b = degeneracy a
                         else exists x, calculate x = ret (degeneracy b))
          rxnList out.
Proof.
  revert out. induction rxnList as [|r rest IH]; intros out; simpl.
  - intros [= <-]. constructor.
  - destruct (getReactionPairs self r) as [|ps]; simpl; [done|].
    destruct (getReactionTemplate self _) as [|t]; simpl; [done|].
    destruct forward; simpl.
    + destruct (annotate self true calculate rest) as [|rest'] eqn:E; simpl;
        [done|].
      intros [= <-]. constructor; [done|by apply IH].
    + destruct (calculate _) as [|d] eqn:Ec; simpl; [done|].
      destruct (annotate self false calculate rest) as [|rest'] eqn:E; simpl;
        [done|].
      intros [= <-]. constructor; [|by apply IH].
      simpl. repeat split. eauto.
Qed.

(** The stages of the body, one after the other. *)
Lemma generateReactions_body_stages calculate self reactants given forward out :
  generateReactions_body calculate self reactants given forward = ret out ->
  out = []
  \/ exists templ raw deduped halved,
       (if forward then Some (forwardTemplate self) else reverseTemplate self)
       = Some templ
       /\ mapped self (map wrap reactants) templ forward = ret raw
       /\ merge_duplicates (length raw) forward (length reactants) given raw
          = ret deduped
       /\ (if halving_applies self reactants then halve deduped else ret deduped)
          = ret halved
       /\ annotate self forward (calculate self) halved = ret out.
Proof.
  unfold generateReactions_body, merged.
  destruct (if forward then _ else _) as [templ|]; [|intros [= <-]; by left].
  destruct (mapped self _ templ forward) as [|raw] eqn:Em; simpl; [done|].
  destruct (merge_duplicates _ _ _ _ raw) as [|deduped] eqn:Ed; simpl; [done|].
  destruct (if halving_applies self reactants then _ else _) as [|halved] eqn:Eh;
    simpl; [done|].
  intros Ha. right. by exists templ, raw, deduped, halved.
Qed.

Lemma halving_Forall2 (b : bool) deduped halved :
  (if b then halve deduped else ret deduped) = ret halved ->
  Forall2 (fun x y => reactants y = reactants x /\ products y = products x
                      /\ (1 <= degeneracy x -> 1 <= degeneracy y))
          deduped halved.
Proof.
  destruct b.
  - intros H. apply halve_Forall2 in H.
    eapply Forall2_impl; [exact H|]. simpl. intros x y (? & ? & ?).
    repeat split; try done. lia.
  - intros [= <-]. apply Forall2_same_length_lookup. split; [done|].
    intros i x y Hx Hy. rewrite Hx in Hy. injection Hy as <-. done.
Qed.

Lemma generateReactions_body_pos calculate self reactants given forward out :
  (forall s r d, calculate s r = ret d -> 1 <= d) ->
  generateReactions_body calculate self reactants given forward = ret out ->
  Forall (fun r => 1 <= degeneracy r) out.
Proof.
  intros Hc H. apply generateReactions_body_stages in H
    as [->|(templ & raw & deduped & halved & _ & Hm & Hd & Hh & Ha)]; [done|].
  apply mapped_shape in Hm. apply halving_Forall2 in Hh.
  apply annotate_Forall2 in Ha.
  apply Forall_lookup. intros i r Hr.
  destruct (Forall2_lookup_r _ _ _ _ _ Ha Hr) as (h & Hh' & _ & _ & Hdeg).
  destruct forward.
  - destruct (Forall2_lookup_r _ _ _ _ _ Hh Hh') as (x & Hx & _ & _ & Hpos).
    rewrite Hdeg. apply Hpos.
    assert (x ∈ deduped) as Hin by (by apply list_elem_of_lookup_2 with i).
    destruct (merge_duplicates_from _ _ _ _ _ _ Hd x Hin) as (a & Ha' & _ & _ & Hle).
    apply (proj1 (Forall_forall _ _) Hm) in Ha' as [H1 _]. lia.
  - destruct Hdeg as (x & Hx). by apply Hc in Hx.
Qed.

Lemma calculateDegeneracy_pos self reaction d :
  calculateDegeneracy self reaction = ret d -> 1 <= d.
Proof.
  unfold calculateDegeneracy.
  destruct (generateReactions_body _ self _ _ true) as [|reactions] eqn:E;
    simpl; [done|].
  apply generateReactions_body_pos in E; [|done].
  destruct (negb _); [done|].
  destruct reactions as [|r rest]; simpl; [done|].
  intros [= <-]. by apply Forall_cons in E as [? _].
Qed.

Lemma generateReactions_inner_pos self reactants given forward out :
  generateReactions_inner self reactants given forward = ret out ->
  Forall (fun r => 1 <= degeneracy r) out.
Proof.
  apply generateReactions_body_pos. intros s r d. apply calculateDegeneracy_pos.
Qed.

Lemma attach_reverse_from self reactionList out :
  attach_reverse self reactionList = ret out ->
  Forall2 (fun rxn r =>
             exists rv,
               r = set_reverse rxn rv
               /\ generateReactions_inner self (map OneMolecule (products rxn))
                    (Some (reactants rxn)) true = ret [rv])
          reactionList out.
Proof.
  revert out. induction reactionList as [|rxn rest IH]; intros out; simpl.
  - intros [= <-]. constructor.
  - destruct (generateReactions_inner self _ _ true) as [|reactions] eqn:E;
      simpl; [done|].
    destruct reactions as [|rv [|? ?]]; simpl; try done.
    destruct (attach_reverse self rest) as [|rest'] eqn:Er; simpl; [done|].
    intros [= <-]. constructor; [|by apply IH]. by exists rv.
Qed.

(** X16.  Every reaction [generateReactions] returns has a degeneracy of
    at least 1, and so has the reverse reaction attached to it: the
    halving, where it applies, does not take a degeneracy to 0. *)
Theorem generateReactions_degeneracy_positive (self : Family)
    (reactants : list Reactant) (out : list TemplateReaction) :
  generateReactions self reactants = ret out ->
  forall r, r ∈ out ->
    1 <= degeneracy r
    /\ forall rv, reverse r = Some rv -> 1 <= degeneracy rv.
Proof.
  unfold generateReactions.
  destruct (generateReactions_inner self reactants None true)
    as [|reactionList] eqn:Ef; simpl; [done|].
  pose proof (generateReactions_inner_pos _ _ _ _ _ Ef) as Hf.
  pose proof (generateReactions_inner_fresh _ _ _ _ _ Ef) as Hfr.
  destruct (ownReverse self).
  - intros Ha r Hr. apply attach_reverse_from in Ha.
    apply list_elem_of_lookup in Hr as [i Hr].
    destruct (Forall2_lookup_r _ _ _ _ _ Ha Hr) as (rxn & Hrxn & rv & -> & Hrv).
    apply list_elem_of_lookup_2 in Hrxn.
    split.
    + destruct rxn; simpl. by apply (proj1 (Forall_forall _ _) Hf) in Hrxn.
    + simpl. intros ? [= <-]. apply generateReactions_inner_pos in Hrv.
      by apply Forall_cons in Hrv as [? _].
  - destruct (generateReactions_inner self reactants None false)
      as [|reverseList] eqn:Er; simpl; [done|].
    pose proof (generateReactions_inner_pos _ _ _ _ _ Er) as Hr.
    pose proof (generateReactions_inner_fresh _ _ _ _ _ Er) as Hrr.
    intros [= <-] r Hin. apply elem_of_app in Hin as [Hin|Hin].
    + split; [by apply (proj1 (Forall_forall _ _) Hf)|].
      apply (proj1 (Forall_forall _ _) Hfr) in Hin as [_ Hnone].
      intros rv. by rewrite Hnone.
    + split; [by apply (proj1 (Forall_forall _ _) Hr)|].
      apply (proj1 (Forall_forall _ _) Hrr) in Hin as [_ Hnone].
      intros rv. by rewrite Hnone.
Qed.

(** X17.  The list [__generateReactions] returns holds no reaction twice:
    going forward, the products of a reaction match the resonance isomers
    of the products of no earlier reaction of the list (in reverse, the
    same of the reactants). *)
Theorem generateReactions_inner_no_duplicates (self : Family)
    (reactants : list Reactant) (given : option (list Molecule))
    (forward : bool) (out : list TemplateReaction) (i j : nat)
    (a b : TemplateReaction) :
  generateReactions_inner self reactants given forward = ret out ->
  (i < j)%nat -> out !! i = Some a -> out !! j = Some b ->
  matches (varying forward b)
          (map generateResonanceIsomers (varying forward a)) = false.
Proof.
  intros H Hij Hi Hj. apply generateReactions_body_stages in H
    as [->|(templ & raw & deduped & halved & _ & _ & Hd & Hh & Ha)];
    [by rewrite lookup_nil in Hi|].
  apply halving_Forall2 in Hh. apply annotate_Forall2 in Ha.
  destruct (Forall2_lookup_r _ _ _ _ _ Ha Hi) as (a1 & Ha1 & Har & Hap & _).
  destruct (Forall2_lookup_r _ _ _ _ _ Ha Hj) as (b1 & Hb1 & Hbr & Hbp & _).
  destruct (Forall2_lookup_r _ _ _ _ _ Hh Ha1) as (a0 & Ha0 & Har0 & Hap0 & _).
  destruct (Forall2_lookup_r _ _ _ _ _ Hh Hb1) as (b0 & Hb0 & Hbr0 & Hbp0 & _).
  pose proof (merge_duplicates_no_duplicates _ _ _ _ _ _ Hd i j a0 b0 Hij Ha0 Hb0)
    as Hm.
  unfold varying in *. by rewrite Har, Hap, Hbr, Hbp, Har0, Hap0, Hbr0, Hbp0.
Qed.

End Stages.

Section Pairs.
Context {mo : Molecules} {en : Engine}.

Lemma pair_by_labels_cases reaction lr lp r0 r1 p0 p1 :
  reactants reaction = [r0; r1] -> products reaction = [p0; p1] ->
  exists ps err,
    pair_by_labels reaction lr lp = ret (ps, err)
    /\ (err = true
        \/ ps = [] \/ ps = [(r0, p0); (r1, p1)] \/ ps = [(r0, p1); (r1, p0)]).
Proof.
  intros Hr Hp. unfold pair_by_labels. rewrite Hr, Hp.
  destruct (containsLabeledAtom reaction r0 lr),
    (containsLabeledAtom reaction p0 lp),
    (containsLabeledAtom reaction p1 lp),
    (containsLabeledAtom reaction r1 lr); do 2 eexists; split;
    try reflexivity; tauto.
Qed.

(** X18.  For a reaction of two reactants and two products,
    [getReactionPairs] either raises [ReactionPairsError] or returns no
    pair at all or one of the two ways to pair each reactant with one
    product; it raises for every family that is not one of the four
    hardcoded ones. *)
Theorem getReactionPairs_two_by_two (self : Family) (reaction : TemplateReaction)
    (r0 r1 p0 p1 : Molecule) :
  reactants reaction = [r0; r1] -> products reaction = [p0; p1] ->
  match getReactionPairs self reaction with
  | inl e => exists msg, e = ReactionPairsError msg
  | inr ps => ps = [] \/ ps = [(r0, p0); (r1, p1)] \/ ps = [(r0, p1); (r1, p0)]
  end
  /\ (Py.elem (Py.lower (label self))
        ["h_abstraction"; "disproportionation"; "substitution_o"; "substitutions"]
      = false ->
      exists msg, getReactionPairs self reaction = raise (ReactionPairsError msg)).
Proof.
  intros Hr Hp.
  assert (forall lr lp,
             match (found <- pair_by_labels reaction lr lp ;;
                    if found.2 : bool
                    then raise (ReactionPairsError
                                  ("Unable to determine reaction pairs for "
                                   ++ label self ++ " reaction "
                                   ++ reaction_str reaction ++ "."))
                    else ret found.1) with
             | inl e => exists msg, e = ReactionPairsError msg
             | inr ps => ps = [] \/ ps = [(r0, p0); (r1, p1)]
                         \/ ps = [(r0, p1); (r1, p0)]
             end) as Hcase.
  { intros lr lp.
    destruct (pair_by_labels_cases reaction lr lp r0 r1 p0 p1 Hr Hp)
      as (ps & err & -> & H). simpl.
    destruct err; [by eexists|]. destruct H as [H|H]; [done|exact H]. }
  unfold getReactionPairs. rewrite Hr, Hp. simpl.
  unfold Py.elem. simpl.
  destruct (Py.lower (label self) =? "h_abstraction")%string;
    [split; [apply Hcase|simpl; intros; discriminate]|].
  destruct (Py.lower (label self) =? "disproportionation")%string;
    [split; [apply Hcase|simpl; intros; discriminate]|].
  destruct (Py.lower (label self) =? "substitution_o")%string;
    [split; [apply Hcase|simpl; intros; discriminate]|].
  destruct (Py.lower (label self) =? "substitutions")%string;
    [split; [apply Hcase|simpl; intros; discriminate]|].
  simpl. split; [by eexists|]. intros _. by eexists.
Qed.

Lemma wrap_one xs ms :
  Forall2 (fun m (w : option nat * list Molecule) => m ∈ w.2) xs
    (map wrap (map OneMolecule ms)) ->
  xs = ms.
Proof.
  revert xs. induction ms as [|m ms IH]; intros xs H; simpl in H.
  - by apply Forall2_nil_inv_r in H.
  - apply Forall2_cons_inv_r in H as (x & xs' & Hx & H & ->).
    simpl in Hx. apply list_elem_of_singleton in Hx as ->.
    f_equal. by apply IH.
Qed.

Lemma merge_duplicates_given fuel n ps rxnList0 out :
  merge_duplicates fuel true n (Some ps) rxnList0 = ret out ->
  Forall (fun b => matches ps (map generateResonanceIsomers (products b)) = true)
    out.
Proof.
  revert rxnList0 out. induction fuel as [|fuel IH]; intros [|r0 rest] out;
    simpl; try (by intros [= <-]).
  destruct (matches ps _) eqn:Em; simpl; [|by apply IH].
  destruct (remove_duplicates true _ rest) as [kept removed].
  destruct (merge_duplicates fuel true n (Some ps) kept) as [|l] eqn:E; simpl;
    [done|].
  intros [= <-]. constructor; [by destruct r0|by apply (IH kept)].
Qed.

(** X19.  In a family that is its own reverse, every reaction
    [generateReactions] returns carries a reverse reaction, which has no
    reverse of its own, starts from the products of the reaction, and ends
    in molecules that match its reactants. *)
Theorem own_reverse_attached (self : Family) (reactants0 : list Reactant)
    (out : list TemplateReaction) :
  ownReverse self = true ->
  generateReactions self reactants0 = ret out ->
  forall r, r ∈ out ->
    exists rv,
      reverse r = Some rv
      /\ reverse rv = None
      /\ reactants rv = products r
      /\ matches (reactants r)
           (map generateResonanceIsomers (products rv)) = true.
Proof.
  intros Hown. unfold generateReactions. rewrite Hown.
  destruct (generateReactions_inner self reactants0 None true)
    as [|reactionList]; simpl; [done|].
  intros Ha r Hr. apply attach_reverse_from in Ha.
  apply list_elem_of_lookup in Hr as [i Hr].
  destruct (Forall2_lookup_r _ _ _ _ _ Ha Hr) as (rxn & _ & rv & -> & Hrv).
  exists rv. split; [done|].
  pose proof (generateReactions_inner_fresh _ _ _ _ _ Hrv) as Hfresh.
  apply Forall_cons in Hfresh as [[_ Hnone] _]. split; [done|].
  unfold generateReactions_inner in Hrv.
  apply generateReactions_body_stages in Hrv
    as [|(templ & raw & deduped & halved & _ & Hm & Hd & Hh & Han)]; [done|].
  apply mapped_shape in Hm. apply halving_Forall2 in Hh.
  apply annotate_Forall2 in Han.
  destruct (Forall2_lookup_r _ _ _ 0%nat rv Han eq_refl)
    as (h & Hh' & Hhr & Hhp & _).
  destruct (Forall2_lookup_r _ _ _ _ _ Hh Hh') as (x & Hx & Hxr & Hxp & _).
  apply list_elem_of_lookup_2 in Hx.
  pose proof (merge_duplicates_given _ _ _ _ _ Hd) as Hg.
  apply (proj1 (Forall_forall _ _) Hg) in Hx as Hmatch.
  destruct (merge_duplicates_from _ _ _ _ _ _ Hd x Hx) as (a & Ha' & Har & _).
  apply (proj1 (Forall_forall _ _) Hm) in Ha' as [_ Hshape].
  apply wrap_one in Hshape.
  destruct rxn; simpl in *. split; [congruence|].
  by rewrite Hhp, Hxp.
Qed.

End Pairs.

Section ToyRuns.
#[local] Existing Instance toy_molecules.

Lemma merging_conserves_degeneracy_witness :
  exists deduped,
    @merged toy_molecules toy_engine toy_isomerization [toy 2] None true
      (forwardTemplate toy_isomerization) = ret deduped
    /\ fold_right Z.add 0 (map degeneracy deduped) = 2.
Proof.
  apply (@merging_conserves_degeneracy toy_molecules toy_engine
           toy_isomerization [toy 2] true (forwardTemplate toy_isomerization)
           [toy_reaction [2%nat] [12%nat] 1; toy_reaction [2%nat] [12%nat] 1]).
  vm_compute. reflexivity.
Defined.

Lemma generateReactions_inner_arity_witness :
  @generateReactions_inner toy_molecules toy_engine toy_abstraction [toy 1]
    None true = ret [].
Proof.
  apply (@generateReactions_inner_arity toy_molecules toy_engine toy_abstraction
           [toy 1] None true).
  simpl. left. lia.
Defined.

Lemma generateReactions_degeneracy_positive_witness :
  let out :=
    [@mkReaction toy_molecules [13%nat] [23%nat] 1 [(13%nat, 23%nat)] [] None;
     @mkReaction toy_molecules [3%nat] [13%nat] 3 [(3%nat, 13%nat)] [] None] in
  @generateReactions toy_molecules toy_engine toy_isomerization [toy 13] = ret out
  /\ forall r, r ∈ out ->
       1 <= degeneracy r /\ forall rv, reverse r = Some rv -> 1 <= degeneracy rv.
Proof.
  intros out.
  assert (H : @generateReactions toy_molecules toy_engine toy_isomerization
                [toy 13] = ret out) by (vm_compute; reflexivity).
  split; [exact H|].
  exact (@generateReactions_degeneracy_positive toy_molecules toy_engine
           toy_isomerization [toy 13] out H).
Defined.

Lemma generateReactions_inner_no_duplicates_witness :
  let a := @mkReaction toy_molecules [1%nat] [11%nat] 1 [(1%nat, 11%nat)] [] None in
  let b := @mkReaction toy_molecules [2%nat] [12%nat] 2 [(2%nat, 12%nat)] [] None in
  @generateReactions_inner toy_molecules toy_engine toy_isomerization
    [toy_shared 0 [1%nat; 2%nat]] None true = ret [a; b]
  /\ matches (varying true b)
       (map generateResonanceIsomers (varying true a)) = false.
Proof.
  intros a b.
  assert (H : @generateReactions_inner toy_molecules toy_engine toy_isomerization
                [toy_shared 0 [1%nat; 2%nat]] None true = ret [a; b])
    by (vm_compute; reflexivity).
  split; [exact H|].
  apply (@generateReactions_inner_no_duplicates toy_molecules toy_engine
           toy_isomerization [toy_shared 0 [1%nat; 2%nat]] None true [a; b]
           0%nat 1%nat a b H); [lia|reflexivity..].
Defined.

Lemma getReactionPairs_two_by_two_witness :
  @getReactionPairs toy_molecules toy_engine toy_abstraction
    (toy_reaction [1%nat; 2%nat] [11%nat; 12%nat] 1)
  = ret [(1%nat, 11%nat); (2%nat, 12%nat)]
  /\ (Py.elem (Py.lower (label toy_abstraction))
        ["h_abstraction"; "disproportionation"; "substitution_o"; "substitutions"]
      = false ->
      exists msg,
        @getReactionPairs toy_molecules toy_engine toy_abstraction
          (toy_reaction [1%nat; 2%nat] [11%nat; 12%nat] 1)
        = raise (ReactionPairsError msg)).
Proof.
  split; [vm_compute; reflexivity|].
  apply (@getReactionPairs_two_by_two toy_molecules toy_engine toy_abstraction
           (toy_reaction [1%nat; 2%nat] [11%nat; 12%nat] 1)
           1%nat 2%nat 11%nat 12%nat); reflexivity.
Defined.

Lemma own_reverse_attached_witness :
  let rv := @mkReaction toy_molecules [5%nat] [4%nat] 1 [(5%nat, 4%nat)] [] None in
  let r :=
    @mkReaction toy_molecules [4%nat] [5%nat] 1 [(4%nat, 5%nat)] [] (Some rv) in
  @generateReactions toy_molecules toy_flip_engine toy_flip [toy 4] = ret [r]
  /\ forall r', r' ∈ [r] ->
       exists rv',
         reverse r' = Some rv'
         /\ reverse rv' = None
         /\ reactants rv' = products r'
         /\ matches (reactants r')
              (map generateResonanceIsomers (products rv')) = true.
Proof.
  intros rv r.
  assert (H : @generateReactions toy_molecules toy_flip_engine toy_flip [toy 4]
              = ret [r]) by (vm_compute; reflexivity).
  split; [exact H|].
  exact (@own_reverse_attached toy_molecules toy_flip_engine toy_flip [toy 4]
           [r] eq_refl H).
Defined.

End ToyRuns.


End GenerationExtras.

(** ** Loading and saving *)

Module LoadingExtras.
Import Recipe RecipeFacts Loading.

#[local] Arguments Py.elem : simpl never.
#[local] Arguments mem : simpl never.
#[local] Arguments String.append !_ _ / : simpl nomatch.

Lemma upper_ascii_idem c : upper_ascii (upper_ascii c) = upper_ascii c.
Proof. destruct c as [[] [] [] [] [] [] [] []]; reflexivity. Qed.

Lemma upper_idem s : upper (upper s) = upper s.
Proof.
  induction s as [|c s IH]; simpl; [done|]. by rewrite upper_ascii_idem, IH.
Qed.

Lemma loadRecipe_loop_app actions acc :
  match loadRecipe_loop actions acc with
  | inr r =>
      forallb accepted actions = true
      /\ Recipe.actions r = (Recipe.actions acc ++ map upper_name actions)%list
  | inl e =>
      exists pre a post,
        actions = (pre ++ a :: post)%list
        /\ forallb accepted pre = true
        /\ accepted a = false
        /\ e = if bool_decide (a = []) then IndexError else AssertionError
  end.
Proof.
  revert acc. induction actions as [|a rest IH]; intros acc; simpl.
  - by rewrite app_nil_r.
  - destruct a as [|name params]; simpl.
    { by exists [], [], rest. }
    destruct (Py.elem (upper name) action_names) eqn:E.
    + specialize (IH (addAction acc (upper name :: params))).
      destruct (loadRecipe_loop rest _) as [e|r].
      * destruct IH as (pre & a & post & -> & Hpre & Ha & He).
        exists ((name :: params) :: pre), a, post. simpl. by rewrite E, Hpre.
      * destruct IH as [Hall ->]. split; [done|]. simpl. by rewrite <- app_assoc.
    + by exists [], (name :: params), rest.
Qed.

(** X20.  [loadRecipe] accepts a list of actions exactly when each has a
    name that, put in upper case, is one of the five action names; the
    recipe then holds the actions in order, each with its name in upper
    case and its parameters untouched.  It stops at the first action that
    is not accepted, with [IndexError] when it is empty and
    [AssertionError] otherwise. *)
Theorem loadRecipe_result (actions : list Action) :
  match loadRecipe actions with
  | inr r =>
      forallb accepted actions = true
      /\ Recipe.actions r = map upper_name actions
  | inl e =>
      exists pre a post,
        actions = (pre ++ a :: post)%list
        /\ forallb accepted pre = true
        /\ accepted a = false
        /\ e = if bool_decide (a = []) then IndexError else AssertionError
  end.
Proof.
  unfold loadRecipe.
  pose proof (loadRecipe_loop_app actions (mkRecipe [])) as H.
  destruct (loadRecipe_loop actions (mkRecipe [])) as [e|r]; [exact H|].
  destruct H as [Hall Hr]. split; [exact Hall|exact Hr].
Qed.

Lemma accepted_upper_name a : accepted a = true -> accepted (upper_name a) = true.
Proof. destruct a as [|name params]; simpl; [done|]. by rewrite upper_idem. Qed.

Lemma upper_name_idem a : upper_name (upper_name a) = upper_name a.
Proof. destruct a as [|name params]; simpl; [done|]. by rewrite upper_idem. Qed.

(** X21.  Loading is idempotent: the actions of a loaded recipe load
    again, to the same recipe. *)
Theorem loadRecipe_idempotent (actions : list Action) (r : ReactionRecipe) :
  loadRecipe actions = ret r ->
  loadRecipe (Recipe.actions r) = ret r.
Proof.
  unfold loadRecipe. intros H.
  pose proof (loadRecipe_loop_app actions (mkRecipe [])) as Hr. rewrite H in Hr.
  destruct Hr as [Hall Hr].
  pose proof (loadRecipe_loop_app (Recipe.actions r) (mkRecipe [])) as Hr'.
  destruct (loadRecipe_loop (Recipe.actions r) (mkRecipe [])) as [e|r'].
  - destruct Hr' as (pre & a & post & Heq & _ & Ha & _).
    assert (accepted a = true) as Ha'; [|congruence].
    assert (forallb accepted (Recipe.actions r) = true) as Hall'.
    { rewrite Hr. rewrite forallb_forall in *. intros x Hx.
      apply in_map_iff in Hx as (y & <- & Hy). by apply accepted_upper_name, Hall. }
    rewrite Heq, forallb_app in Hall'. simpl in Hall'.
    apply andb_prop in Hall' as [_ Hall']. by apply andb_prop in Hall' as [? _].
  - destruct Hr' as [_ Hr']. f_equal. destruct r as [acts], r' as [acts'].
    simpl in *. f_equal. rewrite Hr', Hr, map_map.
    apply map_ext. intros a. apply upper_name_idem.
Qed.

Section Loaded.
Context {chem : Chemistry}.

Lemma applyAction_known_message doForward a0 params struct msg :
  Py.elem a0 action_names = true ->
  applyAction doForward (a0 :: params) struct = raise (InvalidActionError msg) ->
  msg = "Invalid atom labels encountered."
  \/ msg = "Attempted to remove a nonexistent bond."
  \/ exists l, msg = "Unable to find atom with label " ++ dquote ++ l ++ dquote
                     ++ " while applying reaction recipe.".
Proof.
  intros Hn. unfold applyAction. simpl.
  destruct (mem a0 bond_names) eqn:Hb.
  { destruct params as [|l1 [|info [|l2 [|? ?]]]]; simpl; try discriminate.
    destruct (getLabeledAtom struct l1) as [a1|]; [|intros [= <-]; auto].
    destruct (getLabeledAtom struct l2) as [a2|]; [|intros [= <-]; auto].
    destruct (a1 =? a2)%nat; [intros [= <-]; auto|].
    destruct (a0 =? "CHANGE_BOND")%string.
    { unfold Py.int. destruct (Py.int_opt info); simpl; [|discriminate].
      unfold getBond. destruct (bonds struct !! key a1 a2); simpl; [|discriminate].
      unfold changeBond. destruct (order_ok _); discriminate. }
    destruct (_ || _); [discriminate|].
    destruct (_ || _); [|discriminate].
    destruct (negb _); [intros [= <-]; auto|discriminate]. }
  destruct (mem a0 radical_names) eqn:Hr.
  { destruct params as [|lbl [|change [|? ?]]]; simpl; try discriminate.
    unfold Py.int. destruct (Py.int_opt change) as [z|]; simpl; [|discriminate].
    destruct (getLabeledAtom struct lbl) as [a|]; [|intros [= <-]; eauto].
    intros H.
    repeat match type of H with
           | (if ?c then _ else _) = _ => destruct c
           end;
      try discriminate; by apply radical_loop_not_invalid in H. }
  exfalso. revert Hn Hb Hr. unfold Py.elem, mem, action_names, bond_names,
    radical_names. simpl.
  destruct (a0 =? "CHANGE_BOND")%string, (a0 =? "FORM_BOND")%string,
    (a0 =? "BREAK_BOND")%string, (a0 =? "GAIN_RADICAL")%string,
    (a0 =? "LOSE_RADICAL")%string; simpl; discriminate.
Qed.

(** X22.  A recipe that [loadRecipe] accepted is never refused for an
    unknown action name when it is applied: whatever the graph and the
    direction, [__apply] does not raise [InvalidActionError] with the
    message [Unknown action ... encountered.]. *)
Theorem loaded_recipe_names_known (actions : list Action) (r : ReactionRecipe)
    (struct : Graph) (doForward : bool) (name : string) :
  loadRecipe actions = ret r ->
  apply r struct doForward
  <> raise (InvalidActionError
              ("Unknown action " ++ dquote ++ name ++ dquote ++ " encountered.")).
Proof.
  unfold loadRecipe. intros H.
  pose proof (loadRecipe_loop_app actions (mkRecipe [])) as Hr. rewrite H in Hr.
  destruct Hr as [Hall Hr]. unfold apply. rewrite Hr. clear H Hr r.
  revert struct. induction actions as [|a rest IH]; intros struct; simpl;
    [discriminate|].
  simpl in Hall. apply andb_prop in Hall as [Ha Hrest].
  destruct a as [|a0 params]; [done|]. simpl in Ha. simpl upper_name.
  destruct (applyAction doForward (upper a0 :: params) struct) as [e|s] eqn:E;
    simpl; [|by apply IH].
  intros [= ->].
  apply applyAction_known_message in E as [E|[E|[l E]]]; [| | |done];
    unfold dquote in E; simpl in E; discriminate.
Qed.

End Loaded.

Lemma loadRecipe_idempotent_witness :
  loadRecipe [["form_bond"; "*1"; "S"; "*2"]; ["Gain_Radical"; "*1"; "1"]]
  = ret (mkRecipe [["FORM_BOND"; "*1"; "S"; "*2"]; ["GAIN_RADICAL"; "*1"; "1"]])
  /\ loadRecipe [["FORM_BOND"; "*1"; "S"; "*2"]; ["GAIN_RADICAL"; "*1"; "1"]]
     = ret (mkRecipe [["FORM_BOND"; "*1"; "S"; "*2"]; ["GAIN_RADICAL"; "*1"; "1"]]).
Proof.
  assert (H : loadRecipe [["form_bond"; "*1"; "S"; "*2"]; ["Gain_Radical"; "*1"; "1"]]
              = ret (mkRecipe [["FORM_BOND"; "*1"; "S"; "*2"];
                               ["GAIN_RADICAL"; "*1"; "1"]]))
    by (vm_compute; reflexivity).
  split; [exact H|].
  exact (loadRecipe_idempotent _ _ H).
Defined.

Lemma loaded_recipe_names_known_witness :
  @apply molecule_chemistry
    (mkRecipe [["FORM_BOND"; "*1"; "S"; "*2"]; ["GAIN_RADICAL"; "*1"; "1"]])
    two_atoms true
  <> raise (InvalidActionError
              ("Unknown action " ++ dquote ++ "form_bond" ++ dquote
               ++ " encountered.")).
Proof.
  apply (@loaded_recipe_names_known molecule_chemistry
           [["form_bond"; "*1"; "S"; "*2"]; ["Gain_Radical"; "*1"; "1"]]).
  vm_compute. reflexivity.
Defined.

(** *** Strings *)

Lemma sapp_assoc (a b c : string) : (a ++ b) ++ c = a ++ (b ++ c).
Proof. induction a as [|x a IH]; simpl; [done|]. by rewrite IH. Qed.

Lemma sapp_nil_r (a : string) : a ++ "" = a.
Proof. induction a as [|x a IH]; simpl; [done|]. by rewrite IH. Qed.

Lemma all_chars_app P s t :
  all_chars P (s ++ t) = all_chars P s && all_chars P t.
Proof.
  induction s as [|c s IH]; simpl; [done|]. by rewrite IH, andb_assoc.
Qed.

Lemma all_chars_impl (P Q : ascii -> bool) s :
  (forall c, P c = true -> Q c = true) ->
  all_chars P s = true -> all_chars Q s = true.
Proof.
  intros H. induction s as [|c s IH]; simpl; [done|].
  intros Hs. apply andb_prop in Hs as [Hc Hs]. by rewrite (H c Hc), IH.
Qed.

Lemma no_space_no_newline s : no_space s = true -> no_char newline_char s = true.
Proof.
  apply all_chars_impl. intros c Hc.
  destruct (Ascii.eqb_spec c newline_char) as [->|]; [done|reflexivity].
Qed.

Lemma all_plain_no_space s : Py.all_plain s = true -> no_space s = true.
Proof.
  unfold no_space. induction s as [|c s IH]; simpl; [done|]. unfold Py.plain.
  intros H. apply andb_prop in H as [Hc Hs]. apply andb_prop in Hc as [Hc _].
  by rewrite Hc, IH.
Qed.

Lemma str_no_space z : no_space (Py.str z) = true.
Proof. apply all_plain_no_space, PyFacts.str_plain. Qed.

Lemma spaces_no_newline n : no_char newline_char (spaces n) = true.
Proof. unfold no_char. induction n as [|n IH]; simpl; [done|exact IH]. Qed.

Lemma join_all_chars P sep items :
  all_chars P sep = true -> forallb (all_chars P) items = true ->
  all_chars P (join sep items) = true.
Proof.
  intros Hsep. induction items as [|x [|y rest] IH]; simpl; [done| |].
  - by rewrite andb_true_r.
  - intros H. apply andb_prop in H as [Hx H].
    rewrite !all_chars_app, Hx, Hsep. simpl. by apply IH.
Qed.

(** *** [strip] *)

Lemma lstrip_no_space c s : Py.is_space c = false -> Py.lstrip (String c s) = String c s.
Proof. intros H. simpl. by rewrite H. Qed.

Lemma rstrip_first c s :
  Py.is_space c = false -> exists t, Py.rstrip (String c s) = String c t.
Proof.
  intros H. simpl. destruct (Py.rstrip s); [|by eexists].
  rewrite H. by eexists.
Qed.

Lemma strip_first c s :
  Py.is_space c = false -> exists t, Py.strip (String c s) = String c t.
Proof.
  intros H. unfold Py.strip. rewrite lstrip_no_space by done.
  by apply rstrip_first.
Qed.

Lemma rstrip_newline s : Py.rstrip (s ++ Py.newline) = Py.rstrip s.
Proof. induction s as [|c s IH]; simpl; [done|]. by rewrite IH. Qed.

Lemma rstrip_no_space s : no_space s = true -> Py.rstrip s = s.
Proof.
  unfold no_space. induction s as [|c s IH]; simpl; [done|].
  intros H. apply andb_prop in H as [Hc Hs]. rewrite (IH Hs).
  destruct s; [|done]. apply negb_true_iff in Hc. by rewrite Hc.
Qed.

Lemma rstrip_app_word p w :
  no_space w = true -> w <> "" -> Py.rstrip (p ++ w) = p ++ w.
Proof.
  intros Hw Hne. induction p as [|c p IH]; simpl.
  - by apply rstrip_no_space.
  - rewrite IH. destruct (p ++ w) eqn:E; [|done].
    destruct p; simpl in E; [done|discriminate].
Qed.

Lemma lstrip_word s : no_space s = true -> Py.lstrip s = s.
Proof.
  unfold no_space. destruct s as [|c s]; simpl; [done|].
  intros H. apply andb_prop in H as [Hc _]. apply negb_true_iff in Hc.
  by rewrite Hc.
Qed.

(** *** [split] on white space *)

Lemma split_ws_space c t : Py.is_space c = true -> split_ws (String c t) = split_ws t.
Proof. intros H. simpl. by rewrite H. Qed.

Lemma split_ws_spaces n t : split_ws (spaces n ++ t) = split_ws t.
Proof. induction n as [|n IH]; simpl; [done|exact IH]. Qed.

Lemma split_ws_word w t :
  no_space w = true -> w <> "" -> starts_word t = false ->
  split_ws (w ++ t) = w :: split_ws t.
Proof.
  unfold no_space. intros Hw Hne Ht. induction w as [|c w IH]; [done|].
  simpl in Hw. apply andb_prop in Hw as [Hc Hw]. apply negb_true_iff in Hc.
  change (String c w ++ t) with (String c (w ++ t)).
  cbn [split_ws]. rewrite Hc.
  destruct w as [|d w].
  - simpl. by rewrite Ht.
  - assert (starts_word (String d w ++ t) = true) as ->.
    { simpl in Hw. apply andb_prop in Hw as [Hd _]. simpl. exact Hd. }
    by rewrite IH.
Qed.

Lemma rstrip_starts_word s :
  Py.rstrip s <> "" -> starts_word (Py.rstrip s) = starts_word s.
Proof.
  destruct s as [|c s]; simpl; [done|].
  destruct (Py.rstrip s); [|done].
  destruct (Py.is_space c) eqn:E; simpl; rewrite ?E; [by intros []|done].
Qed.

Lemma rstrip_nil_starts_word s : Py.rstrip s = "" -> starts_word s = false.
Proof.
  destruct s as [|c s]; simpl; [done|].
  destruct (Py.rstrip s); [|done].
  destruct (Py.is_space c); done.
Qed.

Lemma split_ws_rstrip s : split_ws (Py.rstrip s) = split_ws s.
Proof.
  induction s as [|c s IH]; [done|].
  cbn [Py.rstrip split_ws].
  destruct (Py.rstrip s) as [|d r] eqn:E.
  - rewrite (rstrip_nil_starts_word _ E). simpl in IH. rewrite <- IH.
    destruct (Py.is_space c) eqn:Hc; simpl; [done|]. by rewrite Hc.
  - cbn [split_ws]. rewrite <- IH.
    assert (starts_word s = starts_word (String d r)) as ->.
    { rewrite <- E. symmetry. apply rstrip_starts_word. by rewrite E. }
    done.
Qed.

Lemma split_ws_lstrip s : split_ws (Py.lstrip s) = split_ws s.
Proof.
  induction s as [|c s IH]; [done|]. simpl.
  destruct (Py.is_space c) eqn:Hc; [exact IH|]. simpl. by rewrite Hc.
Qed.

Lemma split_ws_strip s : split_ws (Py.strip s) = split_ws s.
Proof. unfold Py.strip. by rewrite split_ws_rstrip, split_ws_lstrip. Qed.

(** *** [in] *)

Lemma prefix_app n s t : String.prefix n s = true -> String.prefix n (s ++ t) = true.
Proof.
  revert s. induction n as [|c n IH]; intros s; [by destruct (s ++ t)|].
  destruct s as [|d s]; simpl; [done|].
  destruct (ascii_dec c d); [apply IH|done].
Qed.

Lemma contains_app_l n s t : contains n s = true -> contains n (s ++ t) = true.
Proof.
  induction s as [|c s IH]; simpl.
  - rewrite orb_false_r. intros H. destruct n; [|done].
    destruct t; reflexivity.
  - intros H. apply orb_prop in H as [H|H].
    + apply (prefix_app _ (String c s) t) in H. simpl in H. by rewrite H.
    + by rewrite (IH H), orb_true_r.
Qed.

Lemma contains_app_r n s t : contains n t = true -> contains n (s ++ t) = true.
Proof.
  intros H. induction s as [|c s IH]; simpl; [done|]. by rewrite IH, orb_true_r.
Qed.

Lemma contains_lstrip_inv n s : contains n (Py.lstrip s) = true -> contains n s = true.
Proof.
  induction s as [|c s IH]; simpl; [done|].
  destruct (Py.is_space c); [|done]. intros H. by rewrite (IH H), orb_true_r.
Qed.

Lemma prefix_rstrip_inv n s :
  String.prefix n (Py.rstrip s) = true -> String.prefix n s = true.
Proof.
  revert n. induction s as [|c s IH]; intros n; [done|].
  cbn [Py.rstrip]. destruct (Py.rstrip s) as [|d r] eqn:E.
  - destruct (Py.is_space c); destruct n as [|x [|y n]]; simpl; try done.
    + destruct (ascii_dec x c); [|done]. by destruct s.
    + by destruct (ascii_dec x c).
  - destruct n as [|x n]; simpl; [done|].
    destruct (ascii_dec x c); [|done]. apply IH.
Qed.

Lemma contains_rstrip_inv n s : contains n (Py.rstrip s) = true -> contains n s = true.
Proof.
  induction s as [|c s IH]; [done|].
  intros H.
  assert (String.prefix n (Py.rstrip (String c s)) = true
          \/ contains n (Py.rstrip s) = true) as [Hp|Hc].
  { revert H. cbn [Py.rstrip]. destruct (Py.rstrip s) as [|d r] eqn:E.
    - destruct (Py.is_space c); simpl; rewrite ?orb_false_r; auto.
      intros H. apply orb_prop in H as [H|H]; auto.
    - cbn [contains]. intros H. apply orb_prop in H as [H|H]; auto. }
  - apply prefix_rstrip_inv in Hp. cbn [contains]. by rewrite Hp.
  - cbn [contains]. by rewrite (IH Hc), orb_true_r.
Qed.

Lemma contains_strip_inv n s : contains n (Py.strip s) = true -> contains n s = true.
Proof.
  unfold Py.strip. intros H. by apply contains_lstrip_inv, contains_rstrip_inv.
Qed.

Lemma contains_strip_false n s : contains n s = false -> contains n (Py.strip s) = false.
Proof.
  intros H. destruct (contains n (Py.strip s)) eqn:E; [|done].
  apply contains_strip_inv in E. congruence.
Qed.

Lemma prefix_rstrip n s :
  no_space n = true -> String.prefix n s = true ->
  String.prefix n (Py.rstrip s) = true.
Proof.
  unfold no_space. revert s. induction n as [|x n IH]; intros s Hn.
  - intros _. by destruct (Py.rstrip s).
  - destruct s as [|c s]; simpl; [done|].
    destruct (ascii_dec x c) as [->|]; [|done]. intros Hp.
    simpl in Hn. apply andb_prop in Hn as [Hc Hn]. apply negb_true_iff in Hc.
    specialize (IH s Hn Hp).
    destruct (Py.rstrip s) as [|d r].
    + rewrite Hc. simpl. destruct (ascii_dec c c); [|done]. by destruct n.
    + simpl. by destruct (ascii_dec c c).
Qed.

Lemma contains_nil n : contains n "" = true -> n = "".
Proof. simpl. rewrite orb_false_r. by destruct n. Qed.

Lemma contains_rstrip n s :
  no_space n = true -> n <> "" -> contains n s = true ->
  contains n (Py.rstrip s) = true.
Proof.
  intros Hn Hne. induction s as [|c s IH]; [done|].
  cbn [contains]. intros H. apply orb_prop in H as [H|H].
  - apply (prefix_rstrip _ _ Hn) in H.
    destruct (Py.rstrip (String c s)); simpl in *; by rewrite H.
  - specialize (IH H). cbn [Py.rstrip].
    destruct (Py.rstrip s) as [|d r] eqn:E.
    { by apply contains_nil in IH. }
    cbn [contains]. cbn [contains] in IH. by rewrite IH, orb_true_r.
Qed.

Lemma contains_lstrip n s :
  no_space n = true -> n <> "" -> contains n s = true ->
  contains n (Py.lstrip s) = true.
Proof.
  intros Hn Hne. unfold no_space in Hn. induction s as [|c s IH]; [done|].
  cbn [contains Py.lstrip]. destruct (Py.is_space c) eqn:Hc; [|done].
  intros H. apply orb_prop in H as [H|H]; [|by apply IH].
  destruct n as [|x n]; [done|]. simpl in H, Hn.
  destruct (ascii_dec x c) as [->|]; [|done]. by rewrite Hc in Hn.
Qed.

Lemma contains_strip n s :
  no_space n = true -> n <> "" -> contains n s = true ->
  contains n (Py.strip s) = true.
Proof.
  intros Hn Hne H. unfold Py.strip. by apply contains_rstrip, contains_lstrip.
Qed.

(** *** [split] on a character, and slices *)

Lemma split_no_sep sep s : no_char sep s = true -> Py.split sep s = [s].
Proof.
  unfold no_char. induction s as [|c s IH]; simpl; [done|].
  intros H. apply andb_prop in H as [Hc Hs]. apply negb_true_iff in Hc.
  by rewrite Hc, (IH Hs).
Qed.

Lemma split_app_sep sep p t :
  no_char sep p = true ->
  Py.split sep (p ++ String sep t) = p :: Py.split sep t.
Proof.
  unfold no_char. induction p as [|c p IH]; simpl.
  - intros _. by rewrite Ascii.eqb_refl.
  - intros H. apply andb_prop in H as [Hc Hp]. apply negb_true_iff in Hc.
    by rewrite Hc, (IH Hp).
Qed.

Lemma split_join sep params :
  params <> [] -> forallb (no_char sep) params = true ->
  Py.split sep (join (String sep "") params) = params.
Proof.
  induction params as [|p [|q rest] IH]; [done| |]; intros _ H.
  - simpl in *. rewrite andb_true_r in H. by apply split_no_sep.
  - change (join (String sep "") (p :: q :: rest))
      with (p ++ String sep (join (String sep "") (q :: rest))).
    simpl in H. apply andb_prop in H as [Hp H].
    rewrite split_app_sep by done. f_equal. by apply IH.
Qed.

Lemma substring_prefix s t : String.substring 0 (String.length s) (s ++ t) = s.
Proof.
  induction s as [|c s IH]; simpl; [by destruct t|]. by rewrite IH.
Qed.

Lemma length_sapp s t :
  String.length (s ++ t) = (String.length s + String.length t)%nat.
Proof. induction s as [|c s IH]; simpl; [done|]. by rewrite IH. Qed.

Lemma inner_braces a b s : inner (String a (s ++ String b "")) = s.
Proof.
  unfold inner. cbn [String.length]. rewrite length_sapp. simpl String.length.
  replace (S (String.length s + 1) - 2)%nat with (String.length s) by lia.
  cbn [String.substring]. apply substring_prefix.
Qed.

(** *** Lines *)

Lemma readlines_line body rest :
  no_char newline_char body = true ->
  readlines ((body ++ Py.newline) ++ rest) = (body ++ Py.newline) :: readlines rest.
Proof.
  unfold no_char. induction body as [|c body IH]; simpl; [done|].
  intros H. apply andb_prop in H as [Hc Hb]. apply negb_true_iff in Hc.
  fold newline_char. rewrite Hc. by rewrite (IH Hb).
Qed.

Lemma concat_cons x xs : String.concat "" (x :: xs) = x ++ String.concat "" xs.
Proof.
  destruct xs as [|y xs]; simpl; [by rewrite sapp_nil_r|done].
Qed.

Lemma readlines_concat ws :
  Forall (fun w => exists body, w = body ++ Py.newline
                                /\ no_char newline_char body = true) ws ->
  readlines (String.concat "" ws) = ws.
Proof.
  induction 1 as [|w ws (body & -> & Hb) _ IH]; [done|].
  rewrite concat_cons, readlines_line by done. by rewrite IH.
Qed.

(** *** The lines of the template file, read back *)

Lemma token_inv x :
  token x = true ->
  exists c r, x = String c r /\ Py.is_space c = false
              /\ no_space x = true /\ (x =? "+")%string = false
              /\ (x =? "->")%string = false.
Proof.
  unfold token. intros H.
  apply andb_prop in H as [H H4]. apply andb_prop in H as [H H3].
  apply andb_prop in H as [H1 H2].
  apply negb_true_iff in H3, H4.
  destruct x as [|c r]; [done|].
  exists c, r. repeat split; try done.
  unfold no_space in H2. simpl in H2. apply andb_prop in H2 as [Hc _].
  by apply negb_true_iff in Hc.
Qed.

Lemma template_tokens_join labels t atArrow R P :
  forallb token labels = true -> starts_word t = false ->
  template_tokens (split_ws (join " + " labels ++ t)) atArrow R P
  = template_tokens (split_ws t) atArrow
      (if atArrow then R else R ++ labels)%list
      (if atArrow then P ++ labels else P)%list.
Proof.
  intros Hl Ht. revert R P.
  induction labels as [|x [|y rest] IH]; intros R P.
  - simpl. destruct atArrow; by rewrite app_nil_r.
  - simpl in Hl. rewrite andb_true_r in Hl.
    destruct (token_inv x Hl) as (c & r & Hx & Hc & Hns & Hplus & Harrow).
    cbn [join]. rewrite split_ws_word; [|done|by rewrite Hx|done].
    cbn [template_tokens]. rewrite Harrow, Hplus. by destruct atArrow.
  - cbn [forallb] in Hl. apply andb_prop in Hl as [Hx Hl].
    destruct (token_inv x Hx) as (c & r & Hxe & Hc & Hns & Hplus & Harrow).
    change (join " + " (x :: y :: rest))
      with (x ++ " + " ++ join " + " (y :: rest)).
    rewrite !sapp_assoc.
    rewrite split_ws_word; [|done|by rewrite Hxe|done].
    change (" + " ++ join " + " (y :: rest) ++ t)
      with (String " " (String "+" (String " " (join " + " (y :: rest) ++ t)))).
    rewrite split_ws_space by done.
    change (String "+" (String " " (join " + " (y :: rest) ++ t)))
      with ("+" ++ String " " (join " + " (y :: rest) ++ t)).
    rewrite split_ws_word by done. rewrite split_ws_space by done.
    cbn [template_tokens]. rewrite Harrow, Hplus.
    change ("+" =? "->")%string with false. change ("+" =? "+")%string with true.
    cbn [negb andb].
    destruct atArrow; cbn [negb andb]; rewrite (IH Hl); cbn [negb andb];
      by rewrite <- app_assoc.
Qed.

Lemma template_tokens_line rs ps R P :
  forallb token rs = true -> forallb token ps = true ->
  template_tokens
    (split_ws (join " + " rs ++ " -> " ++ join " + " ps ++ Py.newline))
    false R P
  = ((R ++ rs)%list, (P ++ ps)%list).
Proof.
  intros Hr Hp. rewrite template_tokens_join by done.
  change (" -> " ++ join " + " ps ++ Py.newline)
    with (String " " ("->" ++ String " " (join " + " ps ++ Py.newline))).
  rewrite split_ws_space by done. rewrite split_ws_word by done.
  rewrite split_ws_space by done.
  cbn [template_tokens]. change ("->" =? "->")%string with true. cbv iota.
  by rewrite template_tokens_join.
Qed.

Lemma guard_paren c t :
  ((0 <? String.length (String c t))%nat
   && match String.get 0 (String c t) with
      | Some d => Ascii.eqb d "("
      | None => false
      end)
  = Ascii.eqb c "(".
Proof. reflexivity. Qed.

Lemma prefix_nil s : String.prefix "" s = true.
Proof. by destruct s. Qed.

(** The template line. *)
Lemma read_template_line st self :
  forallb token (forwardTemplate_reactants self) = true ->
  forallb token (forwardTemplate_products self) = true ->
  forallb (fun l => negb (String.prefix "(" l)) (forwardTemplate_reactants self)
  = true ->
  contains "thermo_consistence" (template_line self) = false ->
  contains "reverse" (template_line self) = false ->
  loadOldTemplate_line st (template_line self)
  = ret (mkKineticsFamily (reverse st)
           (forwardTemplate_reactants st ++ forwardTemplate_reactants self)
           (forwardTemplate_products st ++ forwardTemplate_products self)
           (forwardRecipe st) (ownReverse st)).
Proof.
  intros Hr Hp Hparen Hthermo Hrev.
  pose proof (contains_strip_false _ _ Hthermo) as G2.
  pose proof (contains_strip_false _ _ Hrev) as G3.
  assert (contains "->" (Py.strip (template_line self)) = true) as G4.
  { apply contains_strip; [done..|]. unfold template_line.
    apply contains_app_r. reflexivity. }
  pose proof (split_ws_strip (template_line self)) as Htok.
  assert (exists c t, Py.strip (template_line self) = String c t
                      /\ Ascii.eqb c "(" = false) as (c & t & Hs & Hc).
  { unfold template_line.
    destruct (forwardTemplate_reactants self) as [|r rest].
    - cbn [join]. unfold Py.strip.
      change (Py.lstrip ("" ++ " -> " ++ join " + " (forwardTemplate_products self)
                         ++ Py.newline))
        with (Py.lstrip (String "-" (">" ++ String " "
                (join " + " (forwardTemplate_products self) ++ Py.newline)))).
      rewrite lstrip_no_space by done.
      destruct (rstrip_first "-" (">" ++ String " "
                  (join " + " (forwardTemplate_products self) ++ Py.newline)))
        as [t Ht]; [done|].
      by exists "-"%char, t.
    - cbn [forallb] in Hr, Hparen.
      apply andb_prop in Hr as [Hr _]. apply andb_prop in Hparen as [Hparen _].
      destruct (token_inv r Hr) as (c & r' & -> & Hc & _).
      assert (Ascii.eqb c "(" = false) as Hne.
      { apply negb_true_iff in Hparen. simpl in Hparen.
        destruct (ascii_dec "(" c) as [<-|Hne].
        - by rewrite prefix_nil in Hparen.
        - apply Ascii.eqb_neq. congruence. }
      assert (exists X, join " + " (String c r' :: rest) ++ " -> "
                        ++ join " + " (forwardTemplate_products self) ++ Py.newline
                        = String c X) as [X ->].
      { destruct rest; cbn [join]; simpl; by eexists. }
      destruct (strip_first c X Hc) as [t Ht]. by exists c, t. }
  unfold loadOldTemplate_line. cbv zeta.
  rewrite G2, G3, G4. rewrite Hs in Htok |- *. rewrite guard_paren, Hc.
  cbv iota. rewrite Htok. unfold template_line.
  by rewrite template_tokens_line.
Qed.

(** The line of the reverse family. *)
Lemma read_reverse_line st name :
  no_space name = true -> no_char ":" name = true ->
  contains "thermo_consistence" name = false ->
  loadOldTemplate_line st ("reverse: " ++ name ++ Py.newline)
  = ret (mkKineticsFamily name (forwardTemplate_reactants st)
           (forwardTemplate_products st) (forwardRecipe st) (ownReverse st)).
Proof.
  intros Hns Hcolon Hthermo.
  destruct name as [|c name]; [reflexivity|].
  assert (Py.strip ("reverse: " ++ String c name ++ Py.newline)
          = "reverse: " ++ String c name) as Hs.
  { unfold Py.strip.
    change (Py.lstrip ("reverse: " ++ String c name ++ Py.newline))
      with ("reverse: " ++ String c name ++ Py.newline).
    rewrite <- sapp_assoc, rstrip_newline. by apply rstrip_app_word. }
  unfold loadOldTemplate_line. cbv zeta. rewrite Hs.
  change ("reverse: " ++ String c name)
    with (String "r" ("everse: " ++ String c name)) at 1.
  rewrite guard_paren. change (Ascii.eqb "r" "(") with false. cbv iota.
  assert (contains "thermo_consistence" ("reverse: " ++ String c name) = false)
    as ->.
  { simpl. simpl in Hthermo. exact Hthermo. }
  assert (contains "reverse" ("reverse: " ++ String c name) = true) as ->
    by reflexivity.
  change ("reverse: " ++ String c name)
    with ("reverse" ++ String ":" (String " " (String c name))).
  rewrite split_app_sep by done.
  rewrite (split_no_sep ":" (String " " (String c name))) by exact Hcolon.
  unfold Py.index. cbn [nth_error bind ret].
  assert (Py.rstrip (Py.lstrip (String " " (String c name))) = String c name)
    as Hname.
  { change (Py.lstrip (String " " (String c name)))
      with (Py.lstrip (String c name)).
    rewrite lstrip_word by done. by apply rstrip_no_space. }
  unfold Py.strip. by rewrite Hname.
Qed.

Lemma storable_inv a :
  storable a = true ->
  exists name param params,
    a = name :: param :: params
    /\ name <> "" /\ no_space name = true
    /\ forallb no_space (param :: params) = true
    /\ forallb (no_char ",") (param :: params) = true.
Proof.
  destruct a as [|name [|param params]]; simpl; try done.
  intros H. apply andb_prop in H as [H H3]. apply andb_prop in H as [H1 H2].
  apply andb_prop in H3 as [H3 H4]. apply andb_prop in H3 as [H3 H3'].
  exists name, param, params. split; [done|].
  split; [by destruct name|]. split; [done|].
  assert (forallb no_space params = true /\ forallb (no_char ",") params = true)
    as [Ha Hb].
  { clear -H4. induction params as [|p ps IH]; simpl in *; [done|].
    apply andb_prop in H4 as [Hp H4]. apply andb_prop in Hp as [Hp1 Hp2].
    destruct (IH H4). by rewrite Hp1, Hp2. }
  simpl. by rewrite H3, H3', Ha, Hb.
Qed.

Lemma join_no_space params :
  forallb no_space params = true -> no_space (join "," params) = true.
Proof. intros H. by apply join_all_chars. Qed.

(** The tokens of the line of an action. *)
Lemma action_line_tokens index name params :
  name <> "" -> no_space name = true -> forallb no_space params = true ->
  split_ws ("(" ++ Py.str (Z.of_nat index + 1) ++ ") " ++ ljust name 15 ++ " {"
            ++ join "," params ++ "}" ++ Py.newline)
  = ["(" ++ Py.str (Z.of_nat index + 1) ++ ")"; name;
     "{" ++ join "," params ++ "}"].
Proof.
  intros Hne Hname Hparams.
  set (n := Py.str (Z.of_nat index + 1)).
  set (J := join "," params).
  assert (no_space ("(" ++ n ++ ")") = true) as Hw1.
  { unfold no_space. rewrite !all_chars_app. fold (no_space n).
    unfold n. by rewrite str_no_space. }
  assert (no_space ("{" ++ J ++ "}") = true) as Hw3.
  { unfold no_space. rewrite !all_chars_app. fold (no_space J).
    unfold J. by rewrite join_no_space. }
  replace ("(" ++ n ++ ") " ++ ljust name 15 ++ " {" ++ J ++ "}" ++ Py.newline)
    with (("(" ++ n ++ ")")
          ++ String " " (name ++ spaces (15 - String.length name)
                         ++ String " " (("{" ++ J ++ "}") ++ Py.newline))).
  2:{ unfold ljust. rewrite !sapp_assoc. simpl. by rewrite ?sapp_assoc. }
  rewrite split_ws_word; [|done|done|done].
  rewrite split_ws_space by done.
  rewrite split_ws_word; [|done|done|].
  2:{ by destruct (15 - String.length name)%nat. }
  rewrite split_ws_spaces, split_ws_space by done.
  rewrite split_ws_word; [|done|done|done].
  reflexivity.
Qed.

Lemma read_action_line_any st index name params :
  name <> "" -> no_space name = true -> forallb no_space params = true ->
  loadOldTemplate_line st
    ("(" ++ Py.str (Z.of_nat index + 1) ++ ") " ++ ljust name 15 ++ " {"
     ++ join "," params ++ "}" ++ Py.newline)
  = ret (mkKineticsFamily (reverse st) (forwardTemplate_reactants st)
           (forwardTemplate_products st)
           (addAction (forwardRecipe st)
              (name :: Py.split "," (join "," params)))
           (ownReverse st)).
Proof.
  intros Hne Hname Hns.
  set (line := "(" ++ Py.str (Z.of_nat index + 1) ++ ") " ++ ljust name 15
               ++ " {" ++ join "," params ++ "}" ++ Py.newline).
  pose proof (split_ws_strip line) as Htok.
  unfold line in Htok at 2. rewrite action_line_tokens in Htok by done.
  destruct (strip_first "(" (Py.str (Z.of_nat index + 1) ++ ") " ++ ljust name 15
              ++ " {" ++ join "," params ++ "}" ++ Py.newline))
    as [t Ht]; [done|].
  change (String "(" (Py.str (Z.of_nat index + 1) ++ ") " ++ ljust name 15
              ++ " {" ++ join "," params ++ "}" ++ Py.newline))
    with line in Ht.
  unfold loadOldTemplate_line. cbv zeta. rewrite Ht in Htok |- *.
  rewrite guard_paren. change (Ascii.eqb "(" "(") with true. cbv iota.
  rewrite Htok. unfold Py.index. cbn [nth_error bind ret].
  change ("{" ++ join "," params ++ "}")
    with (String "{" (join "," params ++ String "}" "")).
  by rewrite inner_braces.
Qed.

Lemma read_action_line st index name param params :
  name <> "" -> no_space name = true ->
  forallb no_space (param :: params) = true ->
  forallb (no_char ",") (param :: params) = true ->
  loadOldTemplate_line st
    ("(" ++ Py.str (Z.of_nat index + 1) ++ ") " ++ ljust name 15 ++ " {"
     ++ join "," (param :: params) ++ "}" ++ Py.newline)
  = ret (mkKineticsFamily (reverse st) (forwardTemplate_reactants st)
           (forwardTemplate_products st)
           (addAction (forwardRecipe st) (name :: param :: params))
           (ownReverse st)).
Proof.
  intros Hne Hname Hns Hcomma.
  rewrite read_action_line_any by done. by rewrite split_join.
Qed.

(** X24.  An action without parameters does not come back as it was: its
    line is read as the action with one parameter, the empty string. *)
Theorem action_without_parameters (st : KineticsFamily) (index : nat)
    (name : string) :
  name <> "" -> no_space name = true ->
  exists line,
    action_line index [name] = ret line
    /\ loadOldTemplate_line st line
       = ret (mkKineticsFamily (reverse st) (forwardTemplate_reactants st)
                (forwardTemplate_products st)
                (addAction (forwardRecipe st) [name; ""]) (ownReverse st)).
Proof.
  intros Hne Hname. eexists. split; [reflexivity|].
  cbn [tl]. by rewrite read_action_line_any.
Qed.

Lemma read_action_lines st index acts lines rest :
  forallb storable acts = true ->
  action_lines index acts = ret lines ->
  loadOldTemplate_loop st (lines ++ rest)
  = loadOldTemplate_loop
      (mkKineticsFamily (reverse st) (forwardTemplate_reactants st)
         (forwardTemplate_products st)
         (mkRecipe (actions (forwardRecipe st) ++ acts)) (ownReverse st))
      rest.
Proof.
  revert st index lines. induction acts as [|a acts IH]; intros st index lines.
  - intros _ [= <-]. simpl. rewrite app_nil_r. by destruct st as [? ? ? [?] ?].
  - cbn [forallb]. intros H. apply andb_prop in H as [Ha Hacts].
    destruct (storable_inv a Ha)
      as (name & param & params & -> & Hne & Hname & Hns & Hcomma).
    cbn [action_lines]. unfold action_line. unfold Py.index. cbn [nth_error bind ret].
    destruct (action_lines (S index) acts) as [|lines'] eqn:E; [done|].
    cbn [bind ret]. intros [= <-].
    change ((?l :: lines') ++ rest)%list with (l :: (lines' ++ rest))%list.
    cbn [loadOldTemplate_loop].
    change (loadOldTemplate_line st _)
      with (loadOldTemplate_line st
              ("(" ++ Py.str (Z.of_nat index + 1) ++ ") " ++ ljust name 15
               ++ " {" ++ join "," (param :: params) ++ "}" ++ Py.newline)).
    rewrite read_action_line by done. cbn [bind ret].
    rewrite (IH _ (S index) lines' Hacts E). simpl.
    by rewrite <- app_assoc.
Qed.

Lemma action_lines_shape index acts :
  forallb storable acts = true ->
  exists lines,
    action_lines index acts = ret lines
    /\ Forall (fun w => exists body, w = body ++ Py.newline
                                     /\ no_char newline_char body = true) lines.
Proof.
  revert index. induction acts as [|a acts IH]; intros index.
  - intros _. by exists [].
  - cbn [forallb]. intros H. apply andb_prop in H as [Ha Hacts].
    destruct (storable_inv a Ha)
      as (name & param & params & -> & Hne & Hname & Hns & Hcomma).
    destruct (IH (S index) Hacts) as (lines & Hl & Hshape).
    cbn [action_lines]. unfold action_line. unfold Py.index. cbn [nth_error bind ret].
    rewrite Hl. cbn [bind ret]. eexists. split; [reflexivity|].
    constructor; [|done]. cbn [tl].
    exists ("(" ++ Py.str (Z.of_nat index + 1) ++ ") " ++ ljust name 15 ++ " {"
            ++ join "," (param :: params) ++ "}").
    split; [by rewrite !sapp_assoc|].
    unfold no_char, ljust. rewrite !all_chars_app.
    fold (no_char newline_char (Py.str (Z.of_nat index + 1))).
    fold (no_char newline_char name).
    fold (no_char newline_char (spaces (15 - String.length name))).
    fold (no_char newline_char (join "," (param :: params))).
    rewrite (no_space_no_newline _ (str_no_space _)).
    rewrite (no_space_no_newline _ Hname), spaces_no_newline.
    rewrite (no_space_no_newline _ (join_no_space _ Hns)). reflexivity.
Qed.

Lemma template_line_shape self :
  forallb token (forwardTemplate_reactants self) = true ->
  forallb token (forwardTemplate_products self) = true ->
  exists body, template_line self = body ++ Py.newline
               /\ no_char newline_char body = true.
Proof.
  intros Hr Hp.
  assert (forall l, forallb token l = true ->
                    no_char newline_char (join " + " l) = true) as Hj.
  { intros l Hl. apply join_all_chars; [done|].
    rewrite forallb_forall in *. intros x Hx.
    destruct (token_inv x (Hl x Hx)) as (_ & _ & _ & _ & Hns & _).
    by apply no_space_no_newline. }
  exists (join " + " (forwardTemplate_reactants self) ++ " -> "
          ++ join " + " (forwardTemplate_products self)).
  split; [unfold template_line; by rewrite !sapp_assoc|].
  unfold no_char. rewrite !all_chars_app.
  fold (no_char newline_char (join " + " (forwardTemplate_reactants self))).
  fold (no_char newline_char (join " + " (forwardTemplate_products self))).
  by rewrite (Hj _ Hr), (Hj _ Hp).
Qed.

(** X23.  The old-style template file keeps a family that is storable:
    [saveOldTemplate] succeeds, and [loadOldTemplate] reads from its text
    the labels of the reactants and products, the recipe with its actions
    in order, [ownReverse], and the name of the reverse family (which a
    family that is its own reverse does not write, so the name the loading
    family had is kept). *)
Theorem loadOldTemplate_saveOldTemplate (self0 self : KineticsFamily) :
  storable_family self = true ->
  exists text,
    saveOldTemplate self = ret text
    /\ loadOldTemplate self0 text
       = ret (mkKineticsFamily
                (if ownReverse self then reverse self0 else reverse self)
                (forwardTemplate_reactants self)
                (forwardTemplate_products self)
                (forwardRecipe self) (ownReverse self)).
Proof.
  unfold storable_family. intros H.
  apply andb_prop in H as [H Hacts]. apply andb_prop in H as [H Hrevname].
  apply andb_prop in H as [H Hrev]. apply andb_prop in H as [H Hthermo].
  apply andb_prop in H as [H Hparen]. apply andb_prop in H as [Hr Hp].
  apply negb_true_iff in Hrev, Hthermo.
  destruct (action_lines_shape 0 _ Hacts) as (lines & Hlines & Hshape).
  destruct (template_line_shape self Hr Hp) as (tbody & Htl & Htb).
  unfold saveOldTemplate, writes. rewrite Hlines. cbn [bind ret].
  eexists. split; [reflexivity|].
  unfold loadOldTemplate.
  assert (Hblank : exists body, Py.newline = body ++ Py.newline
                                /\ no_char newline_char body = true)
    by (by exists "").
  rewrite readlines_concat.
  2:{ apply Forall_app. split; [|apply Forall_app; split].
      - repeat constructor; [by exists tbody|done].
      - destruct (ownReverse self).
        + repeat constructor. by exists "thermo_consistence".
        + repeat constructor; [by exists "forward"|].
          exists ("reverse: " ++ reverse self). split; [by rewrite !sapp_assoc|].
          simpl in Hrevname. apply andb_prop in Hrevname as [Hn _].
          apply andb_prop in Hn as [Hn _].
          by apply (no_space_no_newline _) in Hn.
      - apply Forall_app. split; [|apply Forall_app; split]; [|done|].
        + repeat constructor; [done|by exists "Actions 1"].
        + by repeat constructor. }
  cbn [app loadOldTemplate_loop].
  rewrite read_template_line by done. cbn [bind ret].
  cbn [reverse forwardTemplate_reactants forwardTemplate_products forwardRecipe
       ownReverse app].
  change (loadOldTemplate_line ?st Py.newline) with (ret st). cbn [bind ret].
  destruct (ownReverse self) eqn:Hown.
  - cbn [app loadOldTemplate_loop].
    change (loadOldTemplate_line ?st ("thermo_consistence" ++ Py.newline))
      with (ret (mkKineticsFamily (reverse st) (forwardTemplate_reactants st)
                   (forwardTemplate_products st) (forwardRecipe st) true)).
    cbn [bind ret reverse forwardTemplate_reactants forwardTemplate_products
         forwardRecipe ownReverse].
    change (loadOldTemplate_line ?st Py.newline) with (ret st). cbn [bind ret].
    change (loadOldTemplate_line ?st ("Actions 1" ++ Py.newline)) with (ret st).
    cbn [bind ret].
    rewrite (read_action_lines _ 0 _ lines [Py.newline] Hacts Hlines).
    cbn [loadOldTemplate_loop].
    change (loadOldTemplate_line ?st Py.newline) with (ret st). cbn [bind ret].
    simpl. by destruct (forwardRecipe self).
  - cbn [app loadOldTemplate_loop].
    change (loadOldTemplate_line ?st ("forward" ++ Py.newline)) with (ret st).
    cbn [bind ret].
    simpl in Hrevname. apply andb_prop in Hrevname as [Hn Hnt].
    apply andb_prop in Hn as [Hn Hnc]. apply negb_true_iff in Hnt.
    rewrite read_reverse_line by done.
    cbn [bind ret reverse forwardTemplate_reactants forwardTemplate_products
         forwardRecipe ownReverse].
    change (loadOldTemplate_line ?st Py.newline) with (ret st). cbn [bind ret].
    change (loadOldTemplate_line ?st ("Actions 1" ++ Py.newline)) with (ret st).
    cbn [bind ret].
    rewrite (read_action_lines _ 0 _ lines [Py.newline] Hacts Hlines).
    cbn [loadOldTemplate_loop].
    change (loadOldTemplate_line ?st Py.newline) with (ret st). cbn [bind ret].
    simpl. by destruct (forwardRecipe self).
Qed.

Lemma loadOldTemplate_saveOldTemplate_witness :
  exists text,
    saveOldTemplate sample_family = ret text
    /\ loadOldTemplate (mkKineticsFamily "" [] [] (mkRecipe []) false) text
       = ret sample_family.
Proof.
  apply (loadOldTemplate_saveOldTemplate
           (mkKineticsFamily "" [] [] (mkRecipe []) false) sample_family).
  vm_compute. reflexivity.
Defined.

Lemma action_without_parameters_witness :
  exists line,
    action_line 0 ["NOTHING"] = ret line
    /\ loadOldTemplate_line sample_family line
       = ret (mkKineticsFamily (reverse sample_family)
                (forwardTemplate_reactants sample_family)
                (forwardTemplate_products sample_family)
                (addAction (forwardRecipe sample_family) ["NOTHING"; ""])
                (ownReverse sample_family)).
Proof.
  apply (action_without_parameters sample_family 0 "NOTHING"); [|reflexivity].
  discriminate.
Defined.

End LoadingExtras.

(** ** The label fix-ups of [applyRecipe] *)

Module LabelsExtras.
Import Recipe Labels.

Lemma count_label_cons l a ats :
  count_label l (a :: ats)
  = ((if bool_decide (label a = l) then 1 else 0) + count_label l ats)%nat.
Proof.
  unfold count_label. rewrite filter_cons.
  destruct (decide (bool_decide (label a = l))) as [H|H];
    case_bool_decide; simpl in *; try done.
Qed.

Lemma count_label_app l xs ys :
  count_label l (xs ++ ys) = (count_label l xs + count_label l ys)%nat.
Proof. unfold count_label. by rewrite filter_app, length_app. Qed.

Lemma count_label_zero l ats :
  count_label l ats = 0%nat <-> Forall (fun a => label a <> l) ats.
Proof.
  induction ats as [|a ats IH]; [done|].
  rewrite count_label_cons, Forall_cons, <- IH.
  case_bool_decide; split; try lia; tauto.
Qed.

Lemma set_label_same a : set_label a (label a) = a.
Proof. by destruct a. Qed.

Lemma number_identical_none ats c :
  count_label "*" ats = 0%nat -> number_identical ats c = (ats, c).
Proof.
  revert c. induction ats as [|a ats IH]; intros c; [done|].
  rewrite count_label_cons. case_bool_decide as Ha; [lia|]. intros H.
  simpl. apply String.eqb_neq in Ha. rewrite Ha. by rewrite IH.
Qed.

Lemma number_identical_count ats c :
  (number_identical ats c).2 = c + Z.of_nat (count_label "*" ats).
Proof.
  revert c. induction ats as [|a ats IH]; intros c.
  { unfold count_label. simpl. lia. }
  simpl. rewrite count_label_cons.
  destruct (String.eqb_spec (label a) "*") as [Ha|Ha].
  - specialize (IH (c + 1)).
    destruct (number_identical ats (c + 1)) as [rest' n]. simpl in *.
    rewrite bool_decide_eq_true_2 by done. lia.
  - specialize (IH c). destruct (number_identical ats c) as [rest' n].
    simpl in *. rewrite bool_decide_eq_false_2 by done. lia.
Qed.

Lemma number_identical_next ats c k :
  count_label "*" ats = S k ->
  exists pre a post,
    ats = (pre ++ a :: post)%list
    /\ label a = "*"
    /\ count_label "*" pre = 0%nat
    /\ count_label "*" post = k
    /\ (number_identical ats c).1
       = (pre ++ set_label a ("*" ++ Py.str (c + 1))
              :: (number_identical post (c + 1)).1)%list.
Proof.
  induction ats as [|a ats IH]; [done|].
  rewrite count_label_cons. simpl.
  destruct (String.eqb_spec (label a) "*") as [Ha|Ha].
  - rewrite bool_decide_eq_true_2 by done. intros [= Hk].
    exists [], a, ats.
    destruct (number_identical ats (c + 1)) as [rest' n]. by simpl.
  - rewrite bool_decide_eq_false_2 by done. simpl. intros Hk.
    destruct (IH Hk) as (pre & x & post & -> & Hx & Hpre & Hpost & Hn).
    exists (a :: pre), x, post. repeat split; try done.
    + rewrite count_label_cons, bool_decide_eq_false_2 by done. by rewrite Hpre.
    + destruct (number_identical (pre ++ x :: post) c) as [rest' n].
      simpl in *. by rewrite Hn.
Qed.

Lemma number_identical_two ats :
  count_label "*" ats = 2%nat ->
  exists pre a mid b post,
    ats = (pre ++ a :: mid ++ b :: post)%list
    /\ label a = "*" /\ label b = "*"
    /\ (number_identical ats 0).1
       = (pre ++ set_label a "*1" :: mid ++ set_label b "*2" :: post)%list.
Proof.
  intros Hc.
  destruct (number_identical_next _ 0 _ Hc)
    as (pre & a & rest & Hats & Ha & Hpre & Hrest & Hout).
  destruct (number_identical_next rest (0 + 1) _ Hrest)
    as (mid & b & post & -> & Hb & Hmid & Hpost & Hout').
  exists pre, a, mid, b, post. repeat split; try done.
  rewrite Hout, Hout'. by rewrite (number_identical_none post _ Hpost).
Qed.

(** X25.  The forward step of the radical recombination succeeds exactly
    when two atoms of the merged reactants carry the label [*]: the first
    is then labeled [*1], the second [*2], and nothing else changes.  With
    any other number of such atoms it raises [Exception]. *)
Theorem label_identical_centers_two (family : string) (reactantStructure : Graph) :
  match label_identical_centers family reactantStructure with
  | inr struct =>
      count_label "*" (atoms reactantStructure) = 2%nat
      /\ bonds struct = bonds reactantStructure
      /\ exists pre a mid b post,
           atoms reactantStructure = (pre ++ a :: mid ++ b :: post)%list
           /\ label a = "*" /\ label b = "*"
           /\ atoms struct
              = (pre ++ set_label a "*1" :: mid ++ set_label b "*2" :: post)%list
  | inl e =>
      count_label "*" (atoms reactantStructure) <> 2%nat
      /\ exists msg, e = Exception msg
  end.
Proof.
  unfold label_identical_centers.
  pose proof (number_identical_count (atoms reactantStructure) 0) as Hn.
  destruct (number_identical (atoms reactantStructure) 0) as [ats n] eqn:E.
  simpl in Hn. destruct (Z.eqb_spec n 2) as [H2|H2]; simpl.
  - assert (count_label "*" (atoms reactantStructure) = 2%nat) as Hc by lia.
    split; [done|]. split; [done|].
    destruct (number_identical_two _ Hc)
      as (pre & a & mid & b & post & Hats & Ha & Hb & Hout).
    exists pre, a, mid, b, post. repeat split; try done.
    rewrite E in Hout. exact Hout.
  - split; [lia|]. by eexists.
Qed.

(** X26.  The reverse step of the radical recombination undoes the
    forward one: when the reactants hold no atom labeled [*1] or [*2],
    taking the labels [*1] and [*2] back to [*] gives the graph the
    forward step started from. *)
Theorem unlabel_label_identical_centers (family : string)
    (reactantStructure struct : Graph) :
  count_label "*1" (atoms reactantStructure) = 0%nat ->
  count_label "*2" (atoms reactantStructure) = 0%nat ->
  label_identical_centers family reactantStructure = ret struct ->
  unlabel_identical_centers struct = reactantStructure.
Proof.
  intros H1 H2 H.
  assert (bonds struct = bonds reactantStructure
          /\ exists pre a mid b post,
               atoms reactantStructure = (pre ++ a :: mid ++ b :: post)%list
               /\ label a = "*" /\ label b = "*"
               /\ atoms struct
                  = (pre ++ set_label a "*1" :: mid ++ set_label b "*2"
                         :: post)%list)
    as (Hb & pre & a & mid & b & post & Hats & Ha & Hb' & Hout).
  { revert H. unfold label_identical_centers.
    pose proof (number_identical_count (atoms reactantStructure) 0) as Hn.
    destruct (number_identical (atoms reactantStructure) 0) as [ats n] eqn:E.
    simpl in Hn. destruct (Z.eqb_spec n 2) as [Hn2|Hn2]; simpl; [|done].
    intros [= <-]. split; [done|].
    assert (count_label "*" (atoms reactantStructure) = 2%nat) as Hc by lia.
    destruct (number_identical_two _ Hc)
      as (pre & a & mid & b & post & Hats & Ha & Hb & Hout).
    exists pre, a, mid, b, post. repeat split; try done.
    rewrite E in Hout. exact Hout. }
  apply count_label_zero in H1, H2.
  assert (forall l, Forall (fun x => label x <> "*1") l ->
                    Forall (fun x => label x <> "*2") l ->
                    map (fun atom =>
                           if (label atom =? "*1")%string
                              || (label atom =? "*2")%string
                           then set_label atom "*" else atom) l = l) as Hkeep.
  { induction l as [|x l IH]; [done|]. intros Hx1 Hx2.
    apply Forall_cons in Hx1 as [Hx1 Hl1]. apply Forall_cons in Hx2 as [Hx2 Hl2].
    simpl. apply String.eqb_neq in Hx1, Hx2. rewrite Hx1, Hx2. simpl.
    by rewrite IH. }
  rewrite Hats in H1, H2.
  apply Forall_app in H1 as [Hpre1 H1], H2 as [Hpre2 H2].
  apply Forall_cons in H1 as [_ H1], H2 as [_ H2].
  apply Forall_app in H1 as [Hmid1 H1], H2 as [Hmid2 H2].
  apply Forall_cons in H1 as [_ Hpost1], H2 as [_ Hpost2].
  unfold unlabel_identical_centers. destruct reactantStructure as [ats bs].
  simpl in *. rewrite Hb. f_equal. rewrite Hout, Hats.
  rewrite !map_app. simpl. rewrite !map_app. simpl.
  rewrite !Hkeep by done.
  destruct a as [la ra], b as [lb rb]. simpl in Ha, Hb'. subst la lb.
  reflexivity.
Qed.

Lemma unlabel_label_identical_centers_witness :
  exists struct,
    label_identical_centers "r_recombination" two_radicals = ret struct
    /\ map label (atoms struct) = ["*1"; ""; "*2"]
    /\ unlabel_identical_centers struct = two_radicals.
Proof.
  eexists. split; [reflexivity|]. split; [reflexivity|].
  apply (unlabel_label_identical_centers "r_recombination" two_radicals);
    reflexivity.
Defined.

(** *** The swap of a family that is its own reverse *)

Local Abbreviation sole l ats p :=
  ((exists a : Atom, ats !! p = Some a /\ label a = l)
   /\ forall (j : nat) (a' : Atom), ats !! j = Some a' -> label a' = l -> j = p).

Lemma count_one_sole l ats :
  count_label l ats = 1%nat -> exists p : nat, sole l ats p.
Proof.
  induction ats as [|a ats IH]; [done|].
  rewrite count_label_cons. case_bool_decide as Ha.
  - intros H. assert (count_label l ats = 0%nat) as H0 by lia.
    apply count_label_zero in H0. exists 0%nat. split; [by exists a|].
    intros [|j] a' Hj Hl; [done|]. simpl in Hj.
    apply list_elem_of_lookup_2 in Hj.
    by apply (proj1 (Forall_forall _ _) H0) in Hj.
  - simpl. intros H. destruct (IH H) as (p & (x & Hx & Hxl) & Huniq).
    exists (S p). split; [by exists x|].
    intros [|j] a' Hj Hl; simpl in Hj.
    + by injection Hj as <-.
    + f_equal. by apply (Huniq j a').
Qed.

Lemma atomLabels_from_absent i ats m l :
  Forall (fun a => label a <> l) ats ->
  atomLabels_from i ats m !! l = m !! l.
Proof.
  revert i m. induction ats as [|a ats IH]; intros i m H; simpl; [done|].
  apply Forall_cons in H as [Ha H]. rewrite IH by done.
  destruct (label a =? "")%string; [done|]. by rewrite lookup_insert_ne.
Qed.

Lemma atomLabels_from_sole i ats m l p :
  l <> "" -> sole l ats p -> atomLabels_from i ats m !! l = Some (i + p)%nat.
Proof.
  intros Hl. revert i m p.
  induction ats as [|a ats IH]; intros i m p [(x & Hx & Hxl) Huniq].
  { by rewrite lookup_nil in Hx. }
  simpl. destruct p as [|p].
  - simpl in Hx. injection Hx as ->. subst l.
    apply String.eqb_neq in Hl. rewrite Hl.
    rewrite atomLabels_from_absent.
    + rewrite lookup_insert_eq. f_equal. lia.
    + apply Forall_forall. intros y Hy Hyl.
      apply list_elem_of_lookup in Hy as [j Hj].
      by specialize (Huniq (S j) y Hj Hyl).
  - simpl in Hx. rewrite (IH (S i) _ p).
    + f_equal. lia.
    + split; [by exists x|]. intros j a' Hj Hl'.
      specialize (Huniq (S j) a' Hj Hl'). lia.
Qed.

Lemma atomLabels_sole struct l p :
  l <> "" -> sole l (atoms struct) p -> atomLabels struct !! l = Some p.
Proof.
  intros Hl Hs. unfold atomLabels. by rewrite (atomLabels_from_sole 0 _ _ l p).
Qed.

(** Two relabelings from the same dictionary swap the two labels on every
    atom when each labels one atom only. *)
Lemma relabel_swap struct k1 k2 :
  k1 <> "" -> k2 <> "" -> k1 <> k2 ->
  count_label k1 (atoms struct) = 1%nat ->
  count_label k2 (atoms struct) = 1%nat ->
  match relabel (atomLabels struct) k1 k2 struct with
  | inl key => inl key
  | inr struct' => relabel (atomLabels struct) k2 k1 struct'
  end
  = inr (mkGraph
           (map (fun a =>
                   if (label a =? k1)%string then set_label a k2
                   else if (label a =? k2)%string then set_label a k1
                   else a)
                (atoms struct))
           (bonds struct)).
Proof.
  intros H1 H2 Hne Hc1 Hc2.
  destruct (count_one_sole _ _ Hc1) as (p1 & Hs1).
  destruct (count_one_sole _ _ Hc2) as (p2 & Hs2).
  unfold relabel.
  rewrite (atomLabels_sole _ _ _ H1 Hs1), (atomLabels_sole _ _ _ H2 Hs2).
  simpl. f_equal. f_equal.
  destruct Hs1 as [(a1 & Ha1 & Hl1) Hu1], Hs2 as [(a2 & Ha2 & Hl2) Hu2].
  assert (p1 <> p2) as Hp by (intros ->; congruence).
  apply list_eq. intros i. rewrite list_lookup_fmap.
  destruct (decide (i = p2)) as [->|Hi2].
  - rewrite list_lookup_alter_eq, list_lookup_alter_ne by done.
    rewrite Ha2. simpl. subst k2.
    apply String.eqb_neq in Hne. rewrite String.eqb_sym, Hne.
    by rewrite String.eqb_refl.
  - rewrite list_lookup_alter_ne by done.
    destruct (decide (i = p1)) as [->|Hi1].
    + rewrite list_lookup_alter_eq, Ha1. simpl. subst k1.
      by rewrite String.eqb_refl.
    + rewrite list_lookup_alter_ne by done.
      destruct (atoms struct !! i) as [a|] eqn:Ea; [|done]. simpl.
      destruct (String.eqb_spec (label a) k1) as [E1|E1].
      { by specialize (Hu1 i a Ea E1). }
      destruct (String.eqb_spec (label a) k2) as [E2|E2]; [|done].
      by specialize (Hu2 i a Ea E2).
Qed.

Lemma count_label_swapped k1 k2 ats :
  k1 <> k2 ->
  count_label k1
    (map (fun a =>
            if (label a =? k1)%string then set_label a k2
            else if (label a =? k2)%string then set_label a k1
            else a) ats)
  = count_label k2 ats.
Proof.
  intros Hne. induction ats as [|a ats IH]; [done|].
  simpl. rewrite !count_label_cons, IH. f_equal.
  destruct (String.eqb_spec (label a) k1) as [E1|E1].
  - simpl. rewrite bool_decide_eq_false_2 by congruence.
    by rewrite bool_decide_eq_false_2 by congruence.
  - destruct (String.eqb_spec (label a) k2) as [E2|E2].
    + simpl. by rewrite !bool_decide_eq_true_2.
    + by rewrite !bool_decide_eq_false_2.
Qed.

Lemma count_label_swapped2 k1 k2 ats :
  k1 <> k2 ->
  count_label k2
    (map (fun a =>
            if (label a =? k1)%string then set_label a k2
            else if (label a =? k2)%string then set_label a k1
            else a) ats)
  = count_label k1 ats.
Proof.
  intros Hne. induction ats as [|a ats IH]; [done|].
  simpl. rewrite !count_label_cons, IH. f_equal.
  destruct (String.eqb_spec (label a) k1) as [E1|E1].
  - simpl. rewrite bool_decide_eq_true_2 by done.
    by rewrite bool_decide_eq_true_2 by done.
  - destruct (String.eqb_spec (label a) k2) as [E2|E2].
    + simpl. rewrite bool_decide_eq_false_2 by congruence.
      by rewrite bool_decide_eq_false_2 by congruence.
    + by rewrite !bool_decide_eq_false_2.
Qed.

Lemma swap_twice k1 k2 ats :
  k1 <> k2 ->
  map (fun a =>
         if (label a =? k1)%string then set_label a k2
         else if (label a =? k2)%string then set_label a k1
         else a)
    (map (fun a =>
            if (label a =? k1)%string then set_label a k2
            else if (label a =? k2)%string then set_label a k1
            else a) ats)
  = ats.
Proof.
  intros Hne. rewrite map_map. rewrite <- (map_id ats) at 2.
  apply map_ext. intros [l r]. simpl.
  destruct (String.eqb_spec l k1) as [E1|E1]; simpl.
  - apply String.eqb_neq in Hne. rewrite String.eqb_sym, Hne.
    rewrite String.eqb_refl. unfold set_label. simpl. by subst.
  - destruct (String.eqb_spec l k2) as [E2|E2]; simpl.
    + rewrite String.eqb_refl. unfold set_label. simpl. by subst.
    + apply String.eqb_neq in E1, E2. by rewrite E1, E2.
Qed.

(** X27.  In the hydrogen abstraction family the relabeling of the
    products swaps the labels [*1] and [*3] when each is on one atom, and
    is its own inverse: relabeling the result gives the graph back. *)
Theorem relabel_own_reverse_involutive (family : string) (productStructure : Graph) :
  Py.lower family = "h_abstraction" ->
  count_label "*1" (atoms productStructure) = 1%nat ->
  count_label "*3" (atoms productStructure) = 1%nat ->
  exists struct,
    relabel_own_reverse family productStructure = inr struct
    /\ atoms struct
       = map (fun a =>
                if (label a =? "*1")%string then set_label a "*3"
                else if (label a =? "*3")%string then set_label a "*1"
                else a)
           (atoms productStructure)
    /\ bonds struct = bonds productStructure
    /\ relabel_own_reverse family struct = inr productStructure.
Proof.
  intros Hf H1 H3. unfold relabel_own_reverse. rewrite Hf. simpl.
  rewrite (relabel_swap productStructure "*1" "*3") by done.
  eexists. split; [reflexivity|]. split; [reflexivity|]. split; [reflexivity|].
  rewrite (relabel_swap _ "*1" "*3"); try done.
  - simpl. destruct productStructure as [ats bs]. simpl.
    by rewrite swap_twice.
  - simpl. by rewrite count_label_swapped.
  - simpl. by rewrite count_label_swapped2.
Qed.

Lemma relabel_own_reverse_involutive_witness :
  exists struct,
    relabel_own_reverse "H_Abstraction" abstraction_products = inr struct
    /\ map label (atoms struct) = ["*3"; "*2"; "*1"; ""]
    /\ relabel_own_reverse "H_Abstraction" struct = inr abstraction_products.
Proof.
  destruct (relabel_own_reverse_involutive "H_Abstraction" abstraction_products)
    as (struct & Hs & Hats & Hb & Hback); [reflexivity..|].
  exists struct. split; [exact Hs|]. split; [|exact Hback].
  rewrite Hats. reflexivity.
Defined.

(** X28.  The two products are ordered so that the one holding [*1] comes
    first if either holds it, and ordering them again changes nothing:
    the second ordering, in [__generateProductStructures], leaves the list
    as [applyRecipe] returned it. *)
Theorem place_labeled_first_idempotent {X : Type}
    (containsLabeledAtom : X -> string -> bool) (productStructures : list X) :
  place_labeled_first containsLabeledAtom
    (place_labeled_first containsLabeledAtom productStructures)
  = place_labeled_first containsLabeledAtom productStructures
  /\ Permutation (place_labeled_first containsLabeledAtom productStructures)
       productStructures
  /\ forall p0 p1,
       place_labeled_first containsLabeledAtom productStructures = [p0; p1] ->
       containsLabeledAtom p1 "*1" = true -> containsLabeledAtom p0 "*1" = true.
Proof.
  unfold place_labeled_first.
  destruct productStructures as [|p0 [|p1 [|p2 rest]]]; try done.
  destruct (containsLabeledAtom p0 "*1") eqn:E0,
    (containsLabeledAtom p1 "*1") eqn:E1; simpl; rewrite ?E0, ?E1; simpl;
    (split; [done|]); (split; [try done; apply perm_swap|]);
    intros q0 q1 [= <- <-]; congruence.
Qed.

(** *** The hydrogen migration: a chain of labels turned around *)

#[local] Arguments star : simpl never.

Lemma reverse_chain_ops D h n i s :
  reverse_chain D h n i s
  = relabel_all D
      (map (fun j => (star j, star (4 + h - j)))
           (map (fun k => i + Z.of_nat k) (seq 0 n))) s.
Proof.
  revert i s. induction n as [|n IH]; intros i s; [done|].
  cbn [reverse_chain seq map relabel_all fst snd].
  replace (i + Z.of_nat 0) with i by lia. unfold star at 1 2.
  destruct (relabel D _ _ s) as [key|s1]; [done|].
  rewrite IH, <- seq_shift, !map_map. f_equal.
  apply map_ext. intros k.
  by replace (i + 1 + Z.of_nat k) with (i + Z.of_nat (S k)) by lia.
Qed.

Lemma relabel_own_reverse_migration family s :
  Py.lower family = "intra_h_migration" ->
  relabel_own_reverse family s
  = relabel_all (atomLabels s)
      (migration_ops (Z.of_nat (size (atomLabels s)))) s.
Proof.
  intros Hf. unfold relabel_own_reverse. rewrite Hf.
  change ("intra_h_migration" =? "h_abstraction")%string with false.
  change ("intra_h_migration" =? "intra_h_migration")%string with true.
  cbv iota zeta. unfold migration_ops, migration_indices.
  cbn [map relabel_all fst snd].
  change (star 1) with "*1". change (star (mirror _ 1)) with "*2".
  change (star 2) with "*2". change (star (mirror _ 2)) with "*1".
  destruct (relabel (atomLabels s) "*1" "*2" s) as [key|s1]; [done|].
  destruct (relabel (atomLabels s) "*2" "*1" s1) as [key|s2]; [done|].
  destruct (4 <? Z.of_nat (size (atomLabels s))); [|done].
  rewrite reverse_chain_ops, !map_map. f_equal.
  apply map_ext. intros k. unfold mirror.
  destruct (Z.eqb_spec (4 + Z.of_nat k) 1); [lia|].
  destruct (Z.eqb_spec (4 + Z.of_nat k) 2); [lia|]. done.
Qed.

Lemma relabel_all_keys D ops s s' :
  relabel_all D ops s = inr s' -> Forall (fun op => is_Some (D !! op.1)) ops.
Proof.
  revert s. induction ops as [|op ops IH]; intros s; [done|].
  cbn [relabel_all]. unfold relabel.
  destruct (D !! op.1) as [p|] eqn:E; [|done].
  intros H. constructor; [by rewrite E|]. by apply IH in H.
Qed.

(** The dictionary and the labels of the atoms. *)
Lemma atomLabels_from_Some i ats m l q :
  atomLabels_from i ats m !! l = Some q ->
  m !! l = Some q
  \/ exists (p : nat) a, q = (i + p)%nat /\ ats !! p = Some a /\ label a = l
                         /\ l <> "".
Proof.
  revert i m. induction ats as [|a ats IH]; intros i m; simpl; [by left|].
  intros H. apply IH in H as [H|(p & x & -> & Hx & Hl & Hne)].
  - destruct (String.eqb_spec (label a) "") as [E|E]; [by left|].
    destruct (decide (label a = l)) as [<-|Hal].
    + rewrite lookup_insert_eq in H. injection H as <-.
      right. exists 0%nat, a. repeat split; try done; lia.
    + rewrite lookup_insert_ne in H by done. by left.
  - right. exists (S p), x. repeat split; try done; lia.
Qed.

Lemma atomLabels_Some s l q :
  atomLabels s !! l = Some q ->
  exists a, atoms s !! q = Some a /\ label a = l /\ l <> "".
Proof.
  unfold atomLabels. intros H.
  apply atomLabels_from_Some in H as [H|(p & a & -> & Ha & Hl & Hne)].
  - by rewrite lookup_empty in H.
  - by exists a.
Qed.

Lemma atomLabels_from_mono i ats m l :
  is_Some (m !! l) -> is_Some (atomLabels_from i ats m !! l).
Proof.
  revert i m. induction ats as [|a ats IH]; intros i m H; simpl; [done|].
  apply IH. destruct (label a =? "")%string; [done|].
  destruct (decide (label a = l)) as [<-|Hal].
  - by rewrite lookup_insert_eq.
  - by rewrite lookup_insert_ne.
Qed.

Lemma atomLabels_from_is_Some i ats m l (p : nat) a :
  ats !! p = Some a -> label a = l -> l <> "" ->
  is_Some (atomLabels_from i ats m !! l).
Proof.
  revert i m p. induction ats as [|x ats IH]; intros i m p Hp Hl Hne;
    [by rewrite lookup_nil in Hp|].
  simpl. destruct p as [|p]; simpl in Hp.
  - injection Hp as ->. subst l. apply String.eqb_neq in Hne. rewrite Hne.
    apply atomLabels_from_mono. by rewrite lookup_insert_eq.
  - by apply (IH _ _ p).
Qed.

Lemma atomLabels_dom s l :
  is_Some (atomLabels s !! l)
  <-> l <> "" /\ exists (p : nat) a, atoms s !! p = Some a /\ label a = l.
Proof.
  split.
  - intros [q Hq]. apply atomLabels_Some in Hq as (a & Ha & Hl & Hne).
    split; [done|]. by exists q, a.
  - intros (Hne & p & a & Ha & Hl). by apply (atomLabels_from_is_Some _ _ _ _ p a).
Qed.

(** The relabelings as a map over the atoms. *)
Lemma find_none_keys (ops : list (string * string)) l :
  l ∉ map fst ops -> List.find (fun op => (op.1 =? l)%string) ops = None.
Proof.
  induction ops as [|op ops IH]; [done|]. simpl. intros H.
  apply not_elem_of_cons in H as [Hne H].
  destruct (String.eqb_spec op.1 l) as [E|E]; [congruence|]. by apply IH.
Qed.

Lemma find_app_keys (seen ops : list (string * string)) l :
  List.find (fun op => (op.1 =? l)%string) (seen ++ ops)
  = match List.find (fun op => (op.1 =? l)%string) seen with
    | Some op => Some op
    | None => List.find (fun op => (op.1 =? l)%string) ops
    end.
Proof.
  induction seen as [|op seen IH]; [done|]. simpl.
  by destruct (op.1 =? l)%string.
Qed.

Lemma relabel_all_map D ats0 b seen ops :
  NoDup (map fst (seen ++ ops)) ->
  Forall (fun op =>
            exists (p : nat) a,
              D !! op.1 = Some p /\ ats0 !! p = Some a /\ label a = op.1
              /\ forall (j : nat) a', ats0 !! j = Some a' -> label a' = op.1 ->
                                      j = p) ops ->
  relabel_all D ops (mkGraph (map (renamed seen) ats0) b)
  = inr (mkGraph (map (renamed (seen ++ ops)) ats0) b).
Proof.
  revert seen. induction ops as [|[k l] ops IH]; intros seen Hnd Hops.
  { by rewrite app_nil_r. }
  apply Forall_cons in Hops as [(p & a & HD & Ha & Hl & Hu) Hops].
  simpl in HD, Hl, Hu. cbn [relabel_all fst snd]. unfold relabel.
  rewrite HD. cbn [atoms bonds].
  assert (k ∉ map fst seen) as Hk.
  { rewrite map_app in Hnd. apply NoDup_app in Hnd as (_ & Hd & _).
    intros Hin. apply (Hd k Hin). left. }
  assert (alter (fun atom => set_label atom l) p (map (renamed seen) ats0)
          = map (renamed (seen ++ [(k, l)])%list) ats0) as ->.
  { apply list_eq. intros i. rewrite list_lookup_fmap.
    destruct (decide (i = p)) as [->|Hi].
    - rewrite list_lookup_alter_eq, list_lookup_fmap, Ha. simpl. f_equal.
      unfold renamed. rewrite find_app_keys, Hl.
      rewrite (find_none_keys seen k Hk). simpl. by rewrite String.eqb_refl.
    - rewrite list_lookup_alter_ne by done. rewrite list_lookup_fmap.
      destruct (ats0 !! i) as [a'|] eqn:Ea; [|done]. simpl. f_equal.
      unfold renamed. rewrite find_app_keys.
      destruct (List.find _ seen); [done|]. simpl.
      destruct (String.eqb_spec k (label a')) as [E|E]; [|done].
      by specialize (Hu i a' Ea (eq_sym E)). }
  rewrite (IH (seen ++ [(k, l)])%list).
  - by rewrite <- app_assoc.
  - by rewrite <- app_assoc.
  - done.
Qed.

(** The numbers the migration goes through. *)
Lemma migration_indices_elem h j :
  j ∈ migration_indices h <-> j = 1 \/ j = 2 \/ (4 < h /\ 4 <= j <= h).
Proof.
  unfold migration_indices. rewrite !elem_of_cons.
  destruct (Z.ltb_spec 4 h) as [Hh|Hh].
  - rewrite list_elem_of_fmap. split.
    + intros [->|[->|(k & -> & Hk)]]; [tauto..|].
      apply elem_of_seq in Hk. right; right. lia.
    + intros [->|[->|(_ & Hj)]]; [tauto..|].
      right; right. exists (Z.to_nat (j - 4)). split; [lia|].
      apply elem_of_seq. lia.
  - rewrite elem_of_nil. split; [tauto|]. intros [->|[->|(? & _)]]; [tauto..|lia].
Qed.

Lemma migration_indices_NoDup h : NoDup (migration_indices h).
Proof.
  unfold migration_indices.
  assert (NoDup (if 4 <? h
                 then map (fun k => 4 + Z.of_nat k) (seq 0 (Z.to_nat (h + 1 - 4)))
                 else [])) as Hc.
  { destruct (4 <? h); [|constructor].
    assert (Inj eq eq (fun k : nat => 4 + Z.of_nat k)) as Hinj
      by (intros x y H; lia).
    apply (NoDup_fmap_2 (fun k : nat => 4 + Z.of_nat k)), NoDup_seq. }
  assert (forall j, j ∈ (if 4 <? h
                         then map (fun k => 4 + Z.of_nat k)
                                (seq 0 (Z.to_nat (h + 1 - 4)))
                         else []) -> 4 <= j) as Hge.
  { intros j. destruct (4 <? h); [|by intros ?%elem_of_nil].
    intros (k & -> & _)%list_elem_of_fmap. lia. }
  constructor.
  - rewrite elem_of_cons. intros [?|H%Hge]; [done|lia].
  - constructor; [|done]. intros H%Hge. lia.
Qed.

Lemma mirror_elem h j :
  j ∈ migration_indices h -> mirror h j ∈ migration_indices h.
Proof.
  rewrite !migration_indices_elem. unfold mirror.
  intros [->|[->|(Hh & Hj)]]; simpl; [tauto..|].
  destruct (Z.eqb_spec j 1); [lia|]. destruct (Z.eqb_spec j 2); [lia|].
  right; right. lia.
Qed.

Lemma mirror_mirror h j :
  j ∈ migration_indices h -> mirror h (mirror h j) = j.
Proof.
  rewrite migration_indices_elem. unfold mirror.
  intros [->|[->|(Hh & Hj)]]; simpl; [done..|].
  destruct (Z.eqb_spec j 1); [lia|]. destruct (Z.eqb_spec j 2); [lia|].
  destruct (Z.eqb_spec (4 + h - j) 1); [lia|].
  destruct (Z.eqb_spec (4 + h - j) 2); [lia|]. lia.
Qed.

Lemma star_inj i j : star i = star j -> i = j.
Proof.
  unfold star. intros [= H]. change (Py.str i = Py.str j) in H.
  pose proof (PyFacts.int_opt_str i) as Hi. rewrite H in Hi.
  rewrite PyFacts.int_opt_str in Hi. by injection Hi.
Qed.

Lemma star_nonempty i : star i <> "".
Proof. done. Qed.

Lemma migration_ops_keys h :
  map fst (migration_ops h) = map star (migration_indices h).
Proof. unfold migration_ops. rewrite map_map. by apply map_ext. Qed.

Lemma migration_ops_NoDup h : NoDup (map fst (migration_ops h)).
Proof.
  rewrite migration_ops_keys.
  assert (Inj eq eq star) as Hinj by (intros x y; apply star_inj).
  apply (NoDup_fmap_2 star), migration_indices_NoDup.
Qed.

Lemma find_migration_ops h j :
  j ∈ migration_indices h ->
  List.find (fun op => (op.1 =? star j)%string) (migration_ops h)
  = Some (star j, star (mirror h j)).
Proof.
  unfold migration_ops. induction (migration_indices h) as [|i l IH];
    [by intros ?%elem_of_nil|].
  intros Hj. cbn [List.find map fst].
  destruct (String.eqb_spec (star i) (star j)) as [E|E].
  - by apply star_inj in E as ->.
  - apply elem_of_cons in Hj as [->|Hj]; [done|]. by apply IH.
Qed.

Lemma find_migration_ops_inv h l op :
  List.find (fun op => (op.1 =? l)%string) (migration_ops h) = Some op ->
  exists j, j ∈ migration_indices h /\ l = star j
            /\ op = (star j, star (mirror h j)).
Proof.
  intros H. apply find_some in H as [Hin Heq].
  apply String.eqb_eq in Heq. unfold migration_ops in Hin.
  apply in_map_iff in Hin as (j & <- & Hj). simpl in Heq.
  exists j. split; [by apply list_elem_of_In|]. by split.
Qed.

(** The relabeling of the migration is its own inverse on every atom. *)
Lemma renamed_renamed h a :
  renamed (migration_ops h) (renamed (migration_ops h) a) = a.
Proof.
  unfold renamed at 2.
  destruct (List.find _ (migration_ops h)) as [op|] eqn:E.
  - apply find_migration_ops_inv in E as (j & Hj & Hl & ->).
    unfold renamed. cbn [snd set_label label].
    rewrite (find_migration_ops h _ (mirror_elem h j Hj)).
    cbn [snd set_label radicalElectrons]. rewrite (mirror_mirror h j Hj).
    destruct a as [la ra]. cbn [label radicalElectrons] in *. by subst.
  - unfold renamed. by rewrite E.
Qed.

Lemma renamed_label ops a b :
  label a = label b -> label (renamed ops a) = label (renamed ops b).
Proof.
  intros H. unfold renamed. rewrite H. by destruct (List.find _ ops).
Qed.

Lemma renamed_label_inj h a b :
  label (renamed (migration_ops h) a) = label (renamed (migration_ops h) b) ->
  label a = label b.
Proof.
  intros H. apply (renamed_label (migration_ops h)) in H.
  by rewrite !renamed_renamed in H.
Qed.

Lemma renamed_label_nonempty h a :
  label (renamed (migration_ops h) a) <> "" -> label a <> "".
Proof.
  intros H E. apply H. unfold renamed.
  destruct (List.find _ (migration_ops h)) as [op|] eqn:Ef; [|done].
  apply find_migration_ops_inv in Ef as (j & _ & Hl & _).
  rewrite E in Hl. by destruct (star_nonempty j).
Qed.

Lemma renamed_unique_labels h ats :
  unique_labels ats -> unique_labels (map (renamed (migration_ops h)) ats).
Proof.
  intros Hu i j a b Hi Hj Hl Hne.
  rewrite list_lookup_fmap in Hi, Hj.
  destruct (ats !! i) as [a0|] eqn:Ei; [|done].
  destruct (ats !! j) as [b0|] eqn:Ej; [|done].
  simpl in Hi, Hj. injection Hi as <-. injection Hj as <-.
  apply (Hu i j a0 b0); try done.
  - by apply (renamed_label_inj h).
  - by apply (renamed_label_nonempty h).
Qed.

(** The labels in use are the same after the relabeling. *)
Lemma renamed_dom h s :
  Forall (fun op => is_Some (atomLabels s !! op.1)) (migration_ops h) ->
  forall l,
    is_Some (atomLabels
               (mkGraph (map (renamed (migration_ops h)) (atoms s)) (bonds s))
             !! l)
    <-> is_Some (atomLabels s !! l).
Proof.
  intros Hkeys l.
  assert (forall j, j ∈ migration_indices h ->
                    exists (p : nat) a, atoms s !! p = Some a
                                        /\ label a = star j) as Hhas.
  { intros j Hj.
    assert (is_Some (atomLabels s !! star j)) as Hs.
    { apply (proj1 (Forall_forall _ _) Hkeys (star j, star (mirror h j))).
      unfold migration_ops. apply list_elem_of_fmap. by exists j. }
    apply atomLabels_dom in Hs as (_ & p & a & Ha & Hl). by exists p, a. }
  rewrite !atomLabels_dom. cbn [atoms]. split.
  - intros (Hne & p & a' & Ha' & Hl). split; [done|].
    rewrite list_lookup_fmap in Ha'.
    destruct (atoms s !! p) as [a|] eqn:Ea; [|done]. simpl in Ha'.
    injection Ha' as <-. revert Hl. unfold renamed.
    destruct (List.find _ (migration_ops h)) as [op|] eqn:E.
    + apply find_migration_ops_inv in E as (j & Hj & Hlj & ->). simpl.
      intros <-. apply Hhas. by apply mirror_elem.
    + intros <-. by exists p, a.
  - intros (Hne & p & a & Ha & Hl). split; [done|].
    destruct (List.find (fun op => (op.1 =? l)%string) (migration_ops h))
      as [op|] eqn:E.
    + apply find_migration_ops_inv in E as (j & Hj & Hlj & ->).
      destruct (Hhas (mirror h j) (mirror_elem h j Hj)) as (q & x & Hx & Hxl).
      exists q, (renamed (migration_ops h) x).
      rewrite list_lookup_fmap, Hx. split; [done|].
      unfold renamed. rewrite Hxl.
      rewrite (find_migration_ops h _ (mirror_elem h j Hj)). simpl.
      by rewrite (mirror_mirror h j Hj).
    + exists p, (renamed (migration_ops h) a).
      rewrite list_lookup_fmap, Ha. split; [done|].
      unfold renamed. rewrite Hl, E. done.
Qed.

Lemma renamed_size h s :
  Forall (fun op => is_Some (atomLabels s !! op.1)) (migration_ops h) ->
  size (atomLabels
          (mkGraph (map (renamed (migration_ops h)) (atoms s)) (bonds s)))
  = size (atomLabels s).
Proof.
  intros Hkeys. rewrite <- !size_dom. f_equal.
  apply set_eq. intros l. rewrite !elem_of_dom. by apply renamed_dom.
Qed.

Lemma relabel_all_unique s ops :
  unique_labels (atoms s) ->
  NoDup (map fst ops) ->
  Forall (fun op => is_Some (atomLabels s !! op.1)) ops ->
  relabel_all (atomLabels s) ops s
  = inr (mkGraph (map (renamed ops) (atoms s)) (bonds s)).
Proof.
  intros Hu Hnd Hkeys.
  assert (map (renamed []) (atoms s) = atoms s) as Hid.
  { rewrite <- (map_id (atoms s)) at 2. by apply map_ext. }
  destruct s as [ats b]. simpl in *.
  rewrite <- Hid at 2.
  rewrite (relabel_all_map _ ats b [] ops); [done|done|].
  apply Forall_forall. intros op Hop.
  apply (proj1 (Forall_forall _ _) Hkeys) in Hop as [p Hp].
  destruct (atomLabels_Some _ _ _ Hp) as (a & Ha & Hl & Hne). simpl in Ha.
  exists p, a. repeat split; try done.
  intros j a' Hj Hl'. apply (Hu j p a' a); try done; congruence.
Qed.

(** X30.  In the intramolecular hydrogen migration family, when no label
    is on two atoms, the relabeling of the products (the ends [*1] and
    [*2] exchanged, the chain of labels from [*4] up turned around) is its
    own inverse: if it succeeds, relabeling its result succeeds and gives
    the graph back. *)
Theorem migration_relabel_involutive (family : string)
    (productStructure struct : Graph) :
  Py.lower family = "intra_h_migration" ->
  unique_labels (atoms productStructure) ->
  relabel_own_reverse family productStructure = inr struct ->
  relabel_own_reverse family struct = inr productStructure.
Proof.
  intros Hf Hu H. rewrite relabel_own_reverse_migration in H |- * by done.
  set (h := Z.of_nat (size (atomLabels productStructure))) in *.
  pose proof (relabel_all_keys _ _ _ _ H) as Hkeys.
  rewrite (relabel_all_unique _ _ Hu (migration_ops_NoDup h) Hkeys) in H.
  injection H as <-.
  rewrite (renamed_size h productStructure Hkeys). fold h.
  rewrite relabel_all_unique.
  - cbn [atoms bonds]. rewrite map_map.
    destruct productStructure as [ats b]. simpl. f_equal. f_equal.
    rewrite <- (map_id ats) at 2. apply map_ext. intros a.
    apply renamed_renamed.
  - cbn [atoms]. by apply renamed_unique_labels.
  - apply migration_ops_NoDup.
  - apply Forall_forall. intros op Hop.
    apply (renamed_dom h productStructure Hkeys).
    by apply (proj1 (Forall_forall _ _) Hkeys).
Qed.

Lemma migration_relabel_involutive_witness :
  exists struct,
    relabel_own_reverse "intra_H_migration" migration_chain = inr struct
    /\ map label (atoms struct) = ["*2"; "*5"; "*4"; "*1"; "*3"; ""]
    /\ relabel_own_reverse "intra_H_migration" struct = inr migration_chain.
Proof.
  eexists. split; [vm_compute; reflexivity|]. split; [reflexivity|].
  apply (migration_relabel_involutive "intra_H_migration" migration_chain).
  - reflexivity.
  - intros [|[|[|[|[|[|i]]]]]] [|[|[|[|[|[|j]]]]]] a b; simpl;
      intros [= <-] [= <-]; simpl; intros Hl Hne; try done.
  - vm_compute. reflexivity.
Defined.

End LabelsExtras.

(** ** The product template *)

Module ProductTemplateExtras.
Import Generation ProductTemplate.

Section Unique.
Context {mo : Molecules}.

(** What holds of the lists between two steps: no list holds a structure
    isomorphic to an earlier one of the same list, every structure in a
    list was met at that position ([seen]), and every structure met is in
    its list or isomorphic to one of it. *)
Local Abbreviation sorted_by_position L seen :=
  ((forall (k : nat) slot (i j : nat) a b,
       L !! k = Some slot -> (i < j)%nat ->
       slot !! i = Some a -> slot !! j = Some b -> isIsomorphic a b = false)
   /\ (forall (k : nat) slot s, L !! k = Some slot -> s ∈ slot -> seen k s)
   /\ (forall (k : nat) s, seen k s ->
         exists slot s', L !! k = Some slot /\ s' ∈ slot
                         /\ (s' = s \/ isIsomorphic s' s = true))).

Lemma nth_error_lookup {A} (l : list A) (i : nat) : nth_error l i = l !! i.
Proof.
  revert i. induction l as [|x l IH]; intros [|i]; simpl; auto.
Qed.

Lemma append_unless_isomorphic_elem slot struct s :
  s ∈ append_unless_isomorphic slot struct -> s ∈ slot \/ s = struct.
Proof.
  unfold append_unless_isomorphic. destruct (existsb _ slot); [by left|].
  rewrite elem_of_app, list_elem_of_singleton. tauto.
Qed.

Lemma append_unless_isomorphic_keeps slot struct s :
  s ∈ slot -> s ∈ append_unless_isomorphic slot struct.
Proof.
  unfold append_unless_isomorphic. destruct (existsb _ slot); [done|].
  rewrite elem_of_app. by left.
Qed.

Lemma append_unless_isomorphic_covers slot struct :
  exists s', s' ∈ append_unless_isomorphic slot struct
             /\ (s' = struct \/ isIsomorphic s' struct = true).
Proof.
  unfold append_unless_isomorphic. destruct (existsb _ slot) eqn:E.
  - apply existsb_exists in E as (s' & Hin & Hiso).
    exists s'. split; [by apply list_elem_of_In|by right].
  - exists struct. split; [|by left].
    rewrite elem_of_app, list_elem_of_singleton. by right.
Qed.

Lemma append_unless_isomorphic_distinct slot struct :
  (forall (i j : nat) a b, (i < j)%nat -> slot !! i = Some a ->
     slot !! j = Some b -> isIsomorphic a b = false) ->
  forall (i j : nat) a b, (i < j)%nat ->
    append_unless_isomorphic slot struct !! i = Some a ->
    append_unless_isomorphic slot struct !! j = Some b ->
    isIsomorphic a b = false.
Proof.
  intros Hslot. unfold append_unless_isomorphic.
  destruct (existsb _ slot) eqn:E; [done|].
  intros i j a b Hij Hi Hj.
  destruct (decide (j < length slot)%nat) as [Hlt|Hge].
  - rewrite lookup_app_l in Hi, Hj by lia. by apply (Hslot i j).
  - pose proof (lookup_lt_Some _ _ _ Hj) as Hlen.
    rewrite length_app in Hlen. simpl in Hlen.
    assert (j = length slot) as -> by lia.
    rewrite lookup_app_r in Hj by lia. rewrite Nat.sub_diag in Hj.
    injection Hj as <-. rewrite lookup_app_l in Hi by lia.
    destruct (isIsomorphic a struct) eqn:Eiso; [|done].
    assert (existsb (fun s => isIsomorphic s struct) slot = true) as Hex;
      [|congruence].
    apply existsb_exists. exists a. split; [|done].
    apply list_elem_of_In. by apply list_elem_of_lookup_2 with i.
Qed.

Lemma sort_into_slots_spec productStructure i L out (seen : nat -> Molecule -> Prop) :
  sorted_by_position L seen ->
  sort_into_slots i productStructure L = ret out ->
  length out = length L
  /\ sorted_by_position out
       (fun k s => seen k s
                   \/ exists j : nat, productStructure !! j = Some s
                                      /\ k = (i + j)%nat).
Proof.
  revert i L seen. induction productStructure as [|struct rest IH];
    intros i L seen (Hdist & Hfrom & Hcov); simpl.
  - intros [= <-]. split; [done|]. split; [done|]. split.
    + intros k slot s Hk Hs. left. by apply (Hfrom k slot).
    + intros k s [Hs|(j & Hj & _)]; [by apply Hcov|].
      by rewrite lookup_nil in Hj.
  - unfold Py.index. destruct (nth_error L i) as [slot|] eqn:Ei; [|done].
    simpl. rewrite nth_error_lookup in Ei. intros Hout.
    apply (IH (S i) _
             (fun k s => seen k s \/ (k = i /\ s = struct))) in Hout.
    + destruct Hout as (Hlen & Hd & Hf & Hc).
      rewrite length_insert in Hlen. split; [done|]. split; [done|]. split.
      * intros k sl s Hk Hs.
        destruct (Hf k sl s Hk Hs) as [[H|[-> ->]]|(j & Hj & ->)].
        -- by left.
        -- right. exists 0%nat. split; [done|lia].
        -- right. exists (S j). split; [done|lia].
      * intros k s [Hs|(j & Hj & ->)].
        -- apply Hc. by left; left.
        -- destruct j as [|j]; simpl in Hj.
           ++ injection Hj as <-. apply Hc. left. right. split; [lia|done].
           ++ apply Hc. right. exists j. split; [done|lia].
    + split; [|split].
      * intros k sl a0 b0 x y Hk Hab Hx Hy.
        destruct (decide (k = i)) as [->|Hne].
        -- rewrite list_lookup_insert_eq in Hk by (by apply lookup_lt_Some in Ei).
           injection Hk as <-.
           apply (append_unless_isomorphic_distinct slot struct
                    (fun i' j' a b => Hdist i slot i' j' a b Ei) a0 b0); done.
        -- rewrite list_lookup_insert_ne in Hk by done.
           by apply (Hdist k sl a0 b0).
      * intros k sl s Hk Hs.
        destruct (decide (k = i)) as [->|Hne].
        -- rewrite list_lookup_insert_eq in Hk by (by apply lookup_lt_Some in Ei).
           injection Hk as <-.
           apply append_unless_isomorphic_elem in Hs as [Hs| ->].
           ++ left. by apply (Hfrom i slot).
           ++ by right.
        -- rewrite list_lookup_insert_ne in Hk by done.
           left. by apply (Hfrom k sl).
      * intros k s [Hs|[-> ->]].
        -- destruct (Hcov k s Hs) as (sl & s' & Hk & Hin & Hiso).
           destruct (decide (k = i)) as [->|Hne].
           ++ rewrite Ei in Hk. injection Hk as <-.
              exists (append_unless_isomorphic slot struct), s'.
              split; [by rewrite list_lookup_insert_eq
                         by (by apply lookup_lt_Some in Ei)|].
              split; [by apply append_unless_isomorphic_keeps|done].
           ++ exists sl, s'. by rewrite list_lookup_insert_ne.
        -- destruct (append_unless_isomorphic_covers slot struct)
             as (s' & Hin & Hiso).
           exists (append_unless_isomorphic slot struct), s'.
           split; [by rewrite list_lookup_insert_eq
                      by (by apply lookup_lt_Some in Ei)|done].
Qed.

Lemma unique_loop_spec productStructures L out (seen : nat -> Molecule -> Prop) :
  sorted_by_position L seen ->
  unique_loop productStructures L = ret out ->
  length out = length L
  /\ sorted_by_position out
       (fun k s => seen k s
                   \/ exists ps, ps ∈ productStructures /\ ps !! k = Some s).
Proof.
  revert L seen. induction productStructures as [|ps rest IH];
    intros L seen HL; simpl.
  - intros [= <-]. destruct HL as (Hd & Hf & Hc).
    split; [done|]. split; [done|]. split.
    + intros k slot s Hk Hs. left. by apply (Hf k slot).
    + intros k s [Hs|(ps & Hps & _)]; [by apply Hc|].
      by apply elem_of_nil in Hps.
  - destruct (sort_into_slots 0 ps L) as [|L1] eqn:E1; simpl; [done|].
    apply (sort_into_slots_spec _ _ _ _ _ HL) in E1 as [Hlen1 H1].
    intros Hout. apply (IH _ _ H1) in Hout as (Hlen & Hd & Hf & Hc).
    split; [congruence|]. split; [done|]. split.
    + intros k slot s Hk Hs.
      destruct (Hf k slot s Hk Hs) as [[H|(j & Hj & ->)]|(ps' & Hps' & Hk')].
      * by left.
      * right. exists ps. split; [left|done].
      * right. exists ps'. split; [by right|done].
    + intros k s [Hs|(ps' & Hps' & Hk')].
      * apply Hc. by left; left.
      * apply elem_of_cons in Hps' as [->|Hps'].
        -- apply Hc. left. right. by exists k.
        -- apply Hc. right. by exists ps'.
Qed.

(** X29.  The lists of product structures [generateProductTemplate]
    builds hold, position by position, one structure for each class of
    isomorphic structures met at that position: no list holds a structure
    isomorphic to an earlier one of the list, every structure of a list
    was a product at that position, and every product is in the list of
    its position or isomorphic to a structure of it.  There are as many
    lists as the first combination has products. *)
Theorem unique_product_structures_spec
    (productStructures out : list (list Molecule)) :
  unique_product_structures productStructures = ret out ->
  (exists first, head productStructures = Some first
                 /\ length out = length first)
  /\ (forall (k : nat) slot (i j : nat) a b,
        out !! k = Some slot -> (i < j)%nat ->
        slot !! i = Some a -> slot !! j = Some b -> isIsomorphic a b = false)
  /\ (forall (k : nat) slot s, out !! k = Some slot -> s ∈ slot ->
        exists ps, ps ∈ productStructures /\ ps !! k = Some s)
  /\ (forall ps (k : nat) s, ps ∈ productStructures -> ps !! k = Some s ->
        exists slot s', out !! k = Some slot /\ s' ∈ slot
                        /\ (s' = s \/ isIsomorphic s' s = true)).
Proof.
  unfold unique_product_structures, Py.index.
  destruct productStructures as [|first rest] eqn:E; [done|]. rewrite <- E.
  simpl nth_error. rewrite E at 1. simpl. intros H.
  apply (unique_loop_spec _ _ _ (fun _ _ => False)) in H.
  - destruct H as (Hlen & Hd & Hf & Hc). rewrite length_replicate in Hlen.
    split; [exists first; by rewrite E|]. split; [done|]. split.
    + intros k slot s Hk Hs. by destruct (Hf k slot s Hk Hs) as [[]|H].
    + intros ps k s Hps Hk. apply Hc. right. by exists ps.
  - split; [|split].
    + intros k slot i j a b Hk _ Hi.
      apply lookup_replicate in Hk as [-> _]. by rewrite lookup_nil in Hi.
    + intros k slot s Hk Hs. apply lookup_replicate in Hk as [-> _].
      by apply elem_of_nil in Hs.
    + by intros k s [].
Qed.

End Unique.

Lemma unique_product_structures_spec_witness :
  @unique_product_structures toy_molecules
    [[1%nat; 2%nat]; [1%nat; 3%nat]; [4%nat; 2%nat]]
  = ret [[1%nat; 4%nat]; [2%nat; 3%nat]]
  /\ forall (k : nat) slot (i j : nat) a b,
       [[1%nat; 4%nat]; [2%nat; 3%nat]] !! k = Some slot -> (i < j)%nat ->
       slot !! i = Some a -> slot !! j = Some b ->
       @isIsomorphic toy_molecules a b = false.
Proof.
  assert (H : @unique_product_structures toy_molecules
                [[1%nat; 2%nat]; [1%nat; 3%nat]; [4%nat; 2%nat]]
              = ret [[1%nat; 4%nat]; [2%nat; 3%nat]])
    by (vm_compute; reflexivity).
  split; [exact H|].
  exact (proj1 (proj2 (@unique_product_structures_spec toy_molecules _ _ H))).
Defined.

End ProductTemplateExtras.
